(** * Derepute: the TorReputationStore registry and its off-chain pipeline

    A shallow embedding of
    - [contracts/contracts/TorReputationStore.sol] (the registry store),
    - [scripts/src/transformers/relayData.ts] (the record transformer),
    - [scripts/src/processDownloadedData.ts] ([ContractUpdater.updateContract]),
    - [web/app/page.tsx] ([fetchAllRelaysProgressively]),
    together with the properties the specification states about them.

    Conventions.
    - A Solidity [uint256] and an [address] are integers in [Z]; Solidity
      0.8 arithmetic is checked, so [+] and [-] are written with their
      overflow test and panic.  A JavaScript [number] holding an integer is
      an integer in [Z]; the one fractional field of the feed is a binary64
      value, and its product is rounded as IEEE 754 prescribes.  Where a
      JavaScript number is handed to the contract, ethers' ABI coder stands
      in between and refuses what is not a [uint256].
    - A [string] is a sequence of bytes, so [String.length] is Solidity's
      [bytes(s).length].  A JavaScript string is represented by its UTF-8
      encoding, the bytes ethers hands to the contract; [s.length] counts
      UTF-16 code units and is computed from the encoding.
    - A call that fails a [require] reverts: the transaction leaves the
      storage as it was.  Events are not part of the storage and are left
      out. *)

From Stdlib Require Import ZArith String Ascii List Lia SpecFloat.
From stdpp Require Import gmap strings list fin_maps sorting.
Open Scope string_scope.
Open Scope Z_scope.

(** ** Results of a contract call *)

Inductive failure : Type :=
| Error (reason : string)   (* a failed [require] *)
| Panic (code : Z).         (* 0x11 arithmetic overflow, 0x32 index out of range *)

Inductive result (A : Type) : Type :=
| Ok (a : A)
| Fail (f : failure).
Arguments Ok {A} a.
Arguments Fail {A} f.

Definition rbind {A B} (c : result A) (k : A -> result B) : result B :=
  match c with
  | Ok a => k a
  | Fail f => Fail f
  end.

Notation "'let*' x := c 'in' k" := (rbind c (fun x => k))
  (at level 10, x name, c at level 100, k at level 200).
Notation "c ;;; k" := (rbind c (fun _ => k))
  (at level 100, k at level 200, right associativity).

Definition require (cond : bool) (reason : string) : result unit :=
  if cond then Ok tt else Fail (Error reason).

Definition succeeds {A} (r : result A) : bool :=
  match r with Ok _ => true | Fail _ => false end.

Definition MAX_UINT256 : Z := 2 ^ 256 - 1.

Definition checked_add (a b : Z) : result Z :=
  if a + b <=? MAX_UINT256 then Ok (a + b) else Fail (Panic 17).

Definition checked_sub (a b : Z) : result Z :=
  if b <=? a then Ok (a - b) else Fail (Panic 17).

(** [bytes(s).length] *)
Definition blen (s : string) : Z := Z.of_nat (String.length s).

(** ** Storage of TorReputationStore *)

Definition FINGERPRINT_LENGTH : Z := 40.
Definition MAX_UPTIME : Z := 1000.
Definition COUNTRY_CODE_LENGTH : Z := 2.

Record RelayData : Type := mkRelayData {
  fingerprint : string;
  nickname : string;
  flags : list string;
  uptime : Z;
  bandwidth : Z;
  consensusWeight : Z;
  country : string;
  asNumber : string;
  lastSeen : Z;
  running : bool
}.

(** The value every key of a Solidity mapping holds before it is written. *)
Definition zeroRelay : RelayData :=
  mkRelayData "" "" [] 0 0 0 "" "" 0 false.

Definition address : Type := Z.

Record State : Type := mkState {
  owner : address;
  authorizedUpdaters : gmap Z bool;
  relaysByFingerprint : gmap string RelayData;
  fingerprintList : list string
}.

(** [msg.sender] and [block.timestamp] of the transaction. *)
Record Env : Type := mkEnv {
  msg_sender : address;
  block_timestamp : Z
}.

(** [authorizedUpdaters[a]] *)
Definition isUpdater (s : State) (a : address) : bool :=
  default false (authorizedUpdaters s !! a).

(** [relaysByFingerprint[fp]] *)
Definition relayAt (s : State) (fp : string) : RelayData :=
  default zeroRelay (relaysByFingerprint s !! fp).

Definition set_owner (s : State) (a : address) : State :=
  mkState a (authorizedUpdaters s) (relaysByFingerprint s) (fingerprintList s).

Definition set_updater (s : State) (a : address) (b : bool) : State :=
  mkState (owner s) (<[a := b]> (authorizedUpdaters s))
          (relaysByFingerprint s) (fingerprintList s).

(** [fingerprintList.push(fp)] *)
Definition push_fingerprint (s : State) (fp : string) : State :=
  mkState (owner s) (authorizedUpdaters s) (relaysByFingerprint s)
          (fingerprintList s ++ [fp]).

(** [relaysByFingerprint[fp] = r] *)
Definition set_relay (s : State) (fp : string) (r : RelayData) : State :=
  mkState (owner s) (authorizedUpdaters s)
          (<[fp := r]> (relaysByFingerprint s)) (fingerprintList s).

(** ** Modifiers *)

Definition onlyOwner (e : Env) (s : State) : result unit :=
  require (msg_sender e =? owner s) "Only owner can call this function".

Definition onlyAuthorized (e : Env) (s : State) : result unit :=
  require ((msg_sender e =? owner s) || isUpdater s (msg_sender e))
          "Only owner or authorized updaters can call this function".

(** ** Functions of the contract *)

Definition constructor (e : Env) : State :=
  mkState (msg_sender e) ∅ ∅ [].

Definition transferOwnership (e : Env) (newOwner : address) (s : State)
  : result State :=
  onlyOwner e s ;;;
  require (negb (newOwner =? 0)) "New owner cannot be zero address" ;;;
  Ok (set_owner s newOwner).

Definition addAuthorizedUpdater (e : Env) (updater : address) (s : State)
  : result State :=
  onlyOwner e s ;;;
  require (negb (updater =? 0)) "Updater cannot be zero address" ;;;
  require (negb (isUpdater s updater)) "Address already authorized" ;;;
  Ok (set_updater s updater true).

Definition removeAuthorizedUpdater (e : Env) (updater : address) (s : State)
  : result State :=
  onlyOwner e s ;;;
  require (isUpdater s updater) "Address not authorized" ;;;
  Ok (set_updater s updater false).

Definition updateRelay (e : Env)
    (_fingerprint _nickname : string) (_flags : list string)
    (_uptime _bandwidth _consensusWeight : Z)
    (_country _asNumber : string) (_lastSeen : Z) (_running : bool)
    (s : State) : result State :=
  onlyAuthorized e s ;;;
  require (blen _fingerprint =? FINGERPRINT_LENGTH) "Invalid fingerprint length" ;;;
  require (_uptime <=? MAX_UPTIME) "Uptime exceeds maximum" ;;;
  require (blen _country =? COUNTRY_CODE_LENGTH) "Invalid country code" ;;;
  require (_lastSeen <=? block_timestamp e) "Last seen cannot be in future" ;;;
  require (blen _nickname >? 0) "Nickname cannot be empty" ;;;
  let s1 :=
    if blen (fingerprint (relayAt s _fingerprint)) =? 0
    then push_fingerprint s _fingerprint
    else s in
  Ok (set_relay s1 _fingerprint
        (mkRelayData _fingerprint _nickname _flags _uptime _bandwidth
                     _consensusWeight _country _asNumber _lastSeen _running)).

(** The body of the [for] loop of [batchUpdateRelays], element by element. *)
Fixpoint batchLoop (e : Env) (relays : list RelayData) (s : State)
  : result State :=
  match relays with
  | [] => Ok s
  | relay :: rest =>
      require (blen (fingerprint relay) =? FINGERPRINT_LENGTH) "Invalid fingerprint length" ;;;
      require (uptime relay <=? MAX_UPTIME) "Uptime exceeds maximum" ;;;
      require (blen (country relay) =? COUNTRY_CODE_LENGTH) "Invalid country code" ;;;
      require (lastSeen relay <=? block_timestamp e) "Last seen cannot be in future" ;;;
      require (blen (nickname relay) >? 0) "Nickname cannot be empty" ;;;
      let s1 :=
        if blen (fingerprint (relayAt s (fingerprint relay))) =? 0
        then push_fingerprint s (fingerprint relay)
        else s in
      batchLoop e rest (set_relay s1 (fingerprint relay) relay)
  end.

Definition batchUpdateRelays (e : Env) (relays : list RelayData) (s : State)
  : result State :=
  onlyAuthorized e s ;;;
  batchLoop e relays s.

(** *** Views *)

Definition getRelay (fp : string) (s : State) : result RelayData :=
  require (blen (fingerprint (relayAt s fp)) >? 0) "Relay not found" ;;;
  Ok (relayAt s fp).

Definition getRelayCount (s : State) : Z :=
  Z.of_nat (length (fingerprintList s)).

(** [a[i]] on a storage array: out of range is panic 0x32. *)
Definition index_at (l : list string) (i : Z) : result string :=
  if (0 <=? i) && (i <? Z.of_nat (length l))
  then match l !! Z.to_nat i with
       | Some x => Ok x
       | None => Fail (Panic 50)
       end
  else Fail (Panic 50).

Definition getFingerprintByIndex (index : Z) (s : State) : result string :=
  require (index <? getRelayCount s) "Index out of bounds" ;;;
  index_at (fingerprintList s) index.

(** The [for] loop of [getRelaysPaginated]: [n] further iterations from
    counter [i]. *)
Fixpoint pageLoop (s : State) (offset i : Z) (n : nat)
  : result (list RelayData) :=
  match n with
  | O => Ok []
  | S n' =>
      let* k := checked_add offset i in
      let* fp := index_at (fingerprintList s) k in
      let* tl := pageLoop s offset (i + 1) n' in
      Ok (relayAt s fp :: tl)
  end.

Definition getRelaysPaginated (offset limit : Z) (s : State)
  : result (list RelayData) :=
  require (offset <? getRelayCount s) "Offset out of bounds" ;;;
  let* end0 := checked_add offset limit in
  let end_ := if end0 >? getRelayCount s then getRelayCount s else end0 in
  let* resultLength := checked_sub end_ offset in
  pageLoop s offset 0 (Z.to_nat resultLength).

Definition relayExists (fp : string) (s : State) : bool :=
  blen (fingerprint (relayAt s fp)) >? 0.

(** ** Transactions *)

Inductive Call : Type :=
| CallTransferOwnership (newOwner : address)
| CallAddAuthorizedUpdater (updater : address)
| CallRemoveAuthorizedUpdater (updater : address)
| CallUpdateRelay (r : RelayData)
| CallBatchUpdateRelays (relays : list RelayData).

(** [updateRelay] called with the ten fields of [r] as its arguments. *)
Definition updateRelayWith (e : Env) (r : RelayData) (s : State) : result State :=
  updateRelay e (fingerprint r) (nickname r) (flags r) (uptime r)
    (bandwidth r) (consensusWeight r) (country r) (asNumber r)
    (lastSeen r) (running r) s.

Definition exec (e : Env) (c : Call) (s : State) : result State :=
  match c with
  | CallTransferOwnership a => transferOwnership e a s
  | CallAddAuthorizedUpdater a => addAuthorizedUpdater e a s
  | CallRemoveAuthorizedUpdater a => removeAuthorizedUpdater e a s
  | CallUpdateRelay r => updateRelayWith e r s
  | CallBatchUpdateRelays rs => batchUpdateRelays e rs s
  end.

(** The storage after the transaction: a reverted call changes nothing. *)
Definition step (e : Env) (c : Call) (s : State) : State :=
  match exec e c s with
  | Ok s' => s'
  | Fail _ => s
  end.

Inductive reachable : State -> Prop :=
| reachable_deploy (e : Env) : reachable (constructor e)
| reachable_step (e : Env) (c : Call) (s : State) :
    reachable s -> reachable (step e c s).

(** ** The record invariants of the specification (section 3) *)

Definition store_invariants (now : Z) (r : RelayData) : Prop :=
  blen (fingerprint r) = 40 /\
  uptime r <= 1000 /\
  blen (country r) = 2 /\
  nickname r <> "" /\
  lastSeen r <= now.

Definition authorized (e : Env) (s : State) : Prop :=
  msg_sender e = owner s \/ isUpdater s (msg_sender e) = true.

(** ** JavaScript strings *)

(** [hay.includes(needle)] *)
Fixpoint includes (needle hay : string) : bool :=
  String.prefix needle hay ||
  match hay with
  | EmptyString => false
  | String _ tl => includes needle tl
  end.

(** [s.replace(c, d)] with a one-character pattern: the first occurrence only. *)
Fixpoint replaceFirst (c d : ascii) (s : string) : string :=
  match s with
  | EmptyString => EmptyString
  | String a tl =>
      if Ascii.eqb a c then String d tl else String a (replaceFirst c d tl)
  end.

Definition isAsciiChar (a : ascii) : bool := (nat_of_ascii a <? 128)%nat.

(** Every character of the string is below U+0080. *)
Fixpoint isAscii (s : string) : bool :=
  match s with
  | EmptyString => true
  | String a tl => isAsciiChar a && isAscii tl
  end.

(** The UTF-16 code units of a character, counted at the first byte of
    its encoding: a continuation byte adds nothing, the lead byte of a
    four-byte sequence (a surrogate pair in UTF-16) counts for two. *)
Definition codeUnits (a : ascii) : Z :=
  let k := nat_of_ascii a in
  if ((128 <=? k) && (k <? 192))%nat then 0
  else if (240 <=? k)%nat then 2
  else 1.

(** [s.length] *)
Fixpoint jsLength (s : string) : Z :=
  match s with
  | EmptyString => 0
  | String a tl => codeUnits a + jsLength tl
  end.

Definition upperAscii (a : ascii) : ascii :=
  let k := nat_of_ascii a in
  if ((97 <=? k) && (k <=? 122))%nat then ascii_of_nat (k - 32) else a.

(** [s.toUpperCase()] on a string of ASCII characters. *)
Fixpoint upperCaseAscii (s : string) : string :=
  match s with
  | EmptyString => EmptyString
  | String a tl => String (upperAscii a) (upperCaseAscii tl)
  end.

(** [s.startsWith(p)] *)
Definition startsWith (p s : string) : bool := String.prefix p s.

Definition bytes (l : list nat) : string :=
  foldr (fun k s => String (ascii_of_nat k) s) EmptyString l.

(** The WhiteSpace and LineTerminator characters of ECMAScript, encoded:
    U+0009 to U+000D, U+0020, U+00A0, U+1680, U+2000 to U+200A, U+2028,
    U+2029, U+202F, U+205F, U+3000 and U+FEFF. *)
Definition whiteSpaces : list string :=
  map bytes
    [[9]; [10]; [11]; [12]; [13]; [32]; [194; 160]; [225; 154; 128];
     [226; 128; 128]; [226; 128; 129]; [226; 128; 130]; [226; 128; 131];
     [226; 128; 132]; [226; 128; 133]; [226; 128; 134]; [226; 128; 135];
     [226; 128; 136]; [226; 128; 137]; [226; 128; 138];
     [226; 128; 168]; [226; 128; 169]; [226; 128; 175]; [226; 129; 159];
     [227; 128; 128]; [239; 187; 191]]%nat.

Fixpoint skip (k : nat) (s : string) : string :=
  match k, s with
  | S k', String _ tl => skip k' tl
  | _, _ => s
  end.

(** The string without its first character, if that is one of [patterns]. *)
Definition stripOne (patterns : list string) (s : string) : option string :=
  match List.find (fun p => String.prefix p s) patterns with
  | Some p => Some (skip (String.length p) s)
  | None => None
  end.

Fixpoint stripAll (patterns : list string) (fuel : nat) (s : string) : string :=
  match fuel with
  | O => s
  | S fuel' =>
      match stripOne patterns s with
      | Some rest => stripAll patterns fuel' rest
      | None => s
      end
  end.

Definition trimStart (s : string) : string :=
  stripAll whiteSpaces (String.length s) s.

Definition trimEnd (s : string) : string :=
  String.rev (stripAll (map String.rev whiteSpaces) (String.length s) (String.rev s)).

(** [s.trim()] *)
Definition trim (s : string) : string := trimEnd (trimStart s).

(** [a || b] on optional strings: the empty string is falsy. *)
Definition orString (a b : option string) : option string :=
  match a with
  | Some s => if String.eqb s "" then b else Some s
  | None => b
  end.

(** [a || b] on optional numbers: zero is falsy. *)
Definition orNumber (a b : option Z) : option Z :=
  match a with
  | Some k => if k =? 0 then b else Some k
  | None => b
  end.

(** ** JavaScript numbers *)

(** The product of two binary64 values, rounded to the nearest, ties to
    even. *)
Definition mulDouble (x y : spec_float) : spec_float := SFmul 53 1024 x y.

(** The binary64 value of an integer literal. *)
Definition doubleOfInteger (k : Z) : spec_float :=
  binary_normalize 53 1024 k 0 false.

(** [Math.floor(x)] for a finite [x]. *)
Definition floorDouble (x : spec_float) : Z :=
  match x with
  | S754_finite sign m e =>
      let k := if sign then Z.neg m else Z.pos m in
      if 0 <=? e then k * 2 ^ e else k / 2 ^ (- e)
  | _ => 0
  end.

Definition isFiniteDouble (x : spec_float) : bool :=
  match x with
  | S754_zero _ | S754_finite _ _ _ => true
  | _ => false
  end.

(** The sign bit of a number. *)
Definition isNegativeDouble (x : spec_float) : bool :=
  match x with
  | S754_zero sign | S754_infinity sign | S754_finite sign _ _ => sign
  | S754_nan => false
  end.

(** ** The transformer (relayData.ts) *)

Definition DEFAULT_RUNNING_UPTIME : Z := 950.
Definition FALLBACK_RUNNING_UPTIME : Z := 900.
Definition CONSENSUS_WEIGHT_MULTIPLIER : Z := 50000.
Definition DEFAULT_COUNTRY_CODE : string := "??".
Definition DEFAULT_AS_NUMBER : string := "AS0".

(** [fraction * CONSENSUS_WEIGHT_MULTIPLIER] *)
Definition scaleFraction (x : spec_float) : spec_float :=
  mulDouble x (doubleOfInteger CONSENSUS_WEIGHT_MULTIPLIER).

(** The values [consensus_weight_fraction] ranges over: the finite
    binary64 numbers whose product with the multiplier does not overflow.
    (NaN is not a JSON value, and the floor of an infinite product is no
    integer.) *)
Definition isFraction (x : spec_float) : bool :=
  valid_binary 53 1024 x && isFiniteDouble x && isFiniteDouble (scaleFraction x).

Record Fraction : Type := mkFraction {
  fractionValue : spec_float;
  fractionRange : isFraction fractionValue = true
}.

(** The fields of [OnionooRelay] (types/index.ts) that [transformRelay]
    reads; an absent field is [None]. *)
Module Onionoo.
Record Relay : Type := mkRelay {
  n : option string;
  f : option string;
  r : option bool;
  t : option string;
  nickname : option string;
  fingerprint : option string;
  last_seen : option string;
  running : option bool;
  flags : option (list string);
  country : option string;
  as_number : option string;
  consensus_weight : option Z;
  measured_bandwidth : option Z;
  advertised_bandwidth : option Z;
  consensus_weight_fraction : option Fraction
}.
End Onionoo.

(** The uptime computation of [transformRelay] (lines 52-64). *)
Definition deriveUptime (running : bool) (fraction : option Fraction) : Z :=
  let uptime := if running then DEFAULT_RUNNING_UPTIME else 0 in
  match fraction with
  | Some q =>
      Z.min MAX_UPTIME (floorDouble (scaleFraction (fractionValue q)))
  | None =>
      if running then FALLBACK_RUNNING_UPTIME else uptime
  end.

Section Transformer.

(** [s.toUpperCase()] on a string that has a character beyond ASCII: the
    case mapping of Unicode, which is the engine's. *)
Variable unicodeUpperCase : string -> string.

(** [s.toUpperCase()] *)
Definition toUpperCase (s : string) : string :=
  if isAscii s then upperCaseAscii s else unicodeUpperCase s.

(** [new Date(s).getTime()]: milliseconds since the epoch, [None] for NaN. *)
Variable dateParse : string -> option Z.

(** The last-seen computation of [transformRelay] (lines 34-50). *)
Definition deriveLastSeen (now : Z) (lastSeenStr : option string) : Z :=
  match lastSeenStr with
  | Some str =>
      if String.eqb str "" then now
      else
        let utcString :=
          if includes "Z" str then str
          else String.append (replaceFirst " " "T" str) "Z" in
        match dateParse utcString with
        | Some ms => Z.min (ms / 1000) now
        | None => now
        end
  | None => now
  end.

(** [transformRelay]; [nowMs] is [Date.now()].  [None] is [null]. *)
Definition transformRelay (nowMs : Z) (relay : Onionoo.Relay)
  : option RelayData :=
  match orString (Onionoo.fingerprint relay) (Onionoo.f relay) with
  | None => None
  | Some fingerprint =>
      if String.eqb fingerprint "" || negb (jsLength fingerprint =? FINGERPRINT_LENGTH)
      then None
      else
        let nickname :=
          default "Unknown"
            (orString (orString (Onionoo.nickname relay) (Onionoo.n relay))
                      (Some "Unknown")) in
        let flags := default [] (Onionoo.flags relay) in
        let running :=
          match Onionoo.running relay with
          | Some b => b
          | None => default false (Onionoo.r relay)
          end in
        let now := nowMs / 1000 in
        let lastSeen :=
          deriveLastSeen now
            (orString (Onionoo.last_seen relay) (Onionoo.t relay)) in
        let uptime :=
          deriveUptime running (Onionoo.consensus_weight_fraction relay) in
        let bandwidth :=
          default 0
            (orNumber (orNumber (Onionoo.measured_bandwidth relay)
                                (Onionoo.advertised_bandwidth relay))
                      (Some 0)) in
        let consensusWeight :=
          default 0 (orNumber (Onionoo.consensus_weight relay) (Some 0)) in
        let country :=
          default DEFAULT_COUNTRY_CODE
            (orString (Onionoo.country relay) (Some DEFAULT_COUNTRY_CODE)) in
        let asNumber0 :=
          default DEFAULT_AS_NUMBER
            (orString (Onionoo.as_number relay) (Some DEFAULT_AS_NUMBER)) in
        let asNumber :=
          if negb (startsWith "AS" asNumber0)
          then String.append "AS" asNumber0
          else asNumber0 in
        Some (mkRelayData (toUpperCase fingerprint) nickname flags uptime
                          bandwidth consensusWeight country asNumber
                          lastSeen running)
  end.

End Transformer.

(** [validateRelayData] *)
Definition validateRelayData (relay : RelayData) : bool :=
  if String.eqb (fingerprint relay) "" || negb (jsLength (fingerprint relay) =? 40)
  then false
  else if uptime relay >? 1000
  then false
  else if String.eqb (nickname relay) "" || String.eqb (trim (nickname relay)) ""
  then false
  else true.

(** [batchRelays]: one [slice] per iteration; [fuel] bounds the iterations
    (a [batchSize] of zero never advances [i] in the source). *)
Fixpoint batchRelaysFrom (fuel : nat) (relays : list RelayData) (batchSize : nat)
  : list (list RelayData) :=
  match fuel, relays with
  | _, [] => []
  | O, _ => []
  | S fuel', _ =>
      take batchSize relays :: batchRelaysFrom fuel' (drop batchSize relays) batchSize
  end.

Definition batchRelays (relays : list RelayData) (batchSize : nat)
  : list (list RelayData) :=
  batchRelaysFrom (length relays) relays batchSize.

(** ** The synchronization pipeline (processDownloadedData.ts) *)

Record UpdateResult : Type := mkUpdateResult {
  success : bool;
  relaysUpdated : Z;
  error : option string
}.

(** What the write channel does with one submission: it throws before
    the call is executed (rate limit, nonce conflict, timeout of the
    request), the call is executed in a block and confirmed, or the call
    is executed in a block and [tx.wait()] throws all the same (the
    connection is lost while waiting). *)
Inductive Attempt : Type :=
| ChannelError (message : string)
| Mined (timestamp : Z)
| MinedUnconfirmed (timestamp : Z) (message : string).

(** The run so far: the contract storage, the number of submissions
    made, the delays waited (in ms, oldest first) and [results]. *)
Record Run : Type := mkRun {
  store : State;
  submissions : nat;
  slept : list Z;
  results : list UpdateResult
}.

Definition failureMessage (fl : failure) : string :=
  match fl with
  | Error reason => reason
  | Panic _ => "panic"
  end.

Definition sleep (ms : Z) (run : Run) : Run :=
  mkRun (store run) (submissions run) (slept run ++ [ms]) (results run).

Definition pushResult (res : UpdateResult) (run : Run) : Run :=
  mkRun (store run) (submissions run) (slept run) (results run ++ [res]).

(** [Number.MAX_SAFE_INTEGER] *)
Definition MAX_SAFE_INTEGER : Z := 2 ^ 53 - 1.

(** ethers encodes a JavaScript number as a [uint256] only if it is an
    integer from 0 to [Number.MAX_SAFE_INTEGER]; for any other number the
    call throws before a request is made. *)
Definition encodesAsUint (k : Z) : bool := (0 <=? k) && (k <=? MAX_SAFE_INTEGER).

Definition abiEncodable (relay : RelayData) : bool :=
  encodesAsUint (uptime relay) && encodesAsUint (bandwidth relay) &&
  encodesAsUint (consensusWeight relay) && encodesAsUint (lastSeen relay).

Definition encodingError : string := "value out-of-bounds".

(** The largest time value of a [Date], in ms. *)
Definition MAX_DATE_MS : Z := 8640000000000000.

(** Line 299 of the [catch] block prints
    [new Date(batch[0]?.lastSeen * 1000).toISOString()], which throws a
    RangeError when the batch is empty or the time is out of the range of
    [Date]; [true] when it prints. *)
Definition printsFirstRelay (batch : list RelayData) : bool :=
  match batch with
  | [] => false
  | relay :: _ => Z.abs (lastSeen relay * 1000) <=? MAX_DATE_MS
  end.

Definition invalidTimeValue : string := "Invalid time value".

Section Pipeline.

(** The channel's answer to the k-th submission of the run. *)
Variable channel : nat -> Attempt.
Variable signer : address.
Variable dryRun : bool.
(** [parseInt(process.env.BATCH_DELAY || "3000")] *)
Variable batchDelay : Z.

(** The [try] block up to [tx.wait()]: [None] when the transaction is
    confirmed, the thrown error's message otherwise.  A batch ethers
    cannot encode throws before anything is submitted; a call that would
    revert is refused by [estimateGas]. *)
Definition submitBatch (batch : list RelayData) (run : Run)
  : Run * option string :=
  if negb (forallb abiEncodable batch) then (run, Some encodingError)
  else
    let counted st :=
      mkRun st (S (submissions run)) (slept run) (results run) in
    match channel (submissions run) with
    | ChannelError message => (counted (store run), Some message)
    | Mined ts =>
        match batchUpdateRelays (mkEnv signer ts) batch (store run) with
        | Ok st' => (counted st', None)
        | Fail fl => (counted (store run), Some (failureMessage fl))
        end
    | MinedUnconfirmed ts message =>
        match batchUpdateRelays (mkEnv signer ts) batch (store run) with
        | Ok st' => (counted st', Some message)
        | Fail fl => (counted (store run), Some (failureMessage fl))
        end
    end.

(** The [for] loop of [updateContract] from batch [i] on; [total] is
    [batches.length].  The second component is the message of an error
    that leaves the loop, [None] when the loop runs to its end. *)
Fixpoint updateLoop (i total : Z) (batches : list (list RelayData))
    (run : Run) : Run * option string :=
  match batches with
  | [] => (run, None)
  | batch :: rest =>
      if dryRun then
        updateLoop (i + 1) total rest
          (pushResult (mkUpdateResult true (Z.of_nat (length batch)) None) run)
      else
        match submitBatch batch run with
        | (run1, None) =>
            let run2 :=
              pushResult (mkUpdateResult true (Z.of_nat (length batch)) None) run1 in
            let run3 := if i <? total - 1 then sleep batchDelay run2 else run2 in
            updateLoop (i + 1) total rest run3
        | (run1, Some message) =>
            if negb (printsFirstRelay batch) then (run1, Some invalidTimeValue)
            else
              let run2 :=
                if includes "nonce" message || includes "replacement" message
                then sleep 3000 run1 else run1 in
              let run3 := pushResult (mkUpdateResult false 0 (Some message)) run2 in
              updateLoop (i + 1) total rest run3
        end
  end.

(** [updateContract]: [inl] is the error thrown, by the authorization
    check or out of the loop, [inr] the run with its [results]. *)
Definition updateContract (relayData : list RelayData) (batchSize : nat)
    (st : State) : string + Run :=
  if negb (isUpdater st signer) && negb (signer =? owner st)
  then inl "Signer is not authorized to update the contract"
  else
    let batches := batchRelays relayData batchSize in
    match updateLoop 0 (Z.of_nat (length batches)) batches (mkRun st 0 [] []) with
    | (run, None) => inr run
    | (_, Some message) => inl message
    end.

End Pipeline.

(** ** The reader (web/app/page.tsx) *)

Definition MAX_RETRY_ATTEMPTS : Z := 5.

(** What the RPC endpoint does with one read. *)
Inductive ReadAttempt : Type :=
| ReadError (message : string)
| ReadServed.

(** The sweep so far: the number of reads issued, the delays waited (ms,
    oldest first) and [allRelays]. *)
Record Reader : Type := mkReader {
  reads : nat;
  waited : list Z;
  allRelays : list RelayData
}.

Inductive BatchFetch : Type :=
| Fetched (batchData : list RelayData)   (* success = true *)
| Exhausted                              (* the while loop ended with success = false *)
| Thrown (message : string).             (* an error other than rate limiting *)

Section Reader.

(** The endpoint's answer to the k-th read of the sweep. *)
Variable rpc : nat -> ReadAttempt.
(** The contract storage the reads are served from. *)
Variable st : State.

(** [client.readContract(getRelaysPaginated, [offset, limit])] *)
Definition readContract (offset limit : Z) (k : nat)
  : result (list RelayData) + string :=
  match rpc k with
  | ReadError message => inr message
  | ReadServed => inl (getRelaysPaginated offset limit st)
  end.

(** The [while (!success && retries < 5)] loop; [fuel] bounds its
    iterations.  Returns the reader, [retries] and the outcome. *)
Fixpoint retryLoop (fuel : nat) (offset limit retries : Z) (rd : Reader)
  : Reader * Z * BatchFetch :=
  if retries <? 5 then
    match fuel with
    | O => (rd, retries, Exhausted)
    | S fuel' =>
        let rd1 := mkReader (S (reads rd)) (waited rd) (allRelays rd) in
        let failed message :=
          let retries1 := retries + 1 in
          if includes "rate limit" message || includes "429" message then
            let delay := 2 ^ retries1 * 1000 in
            retryLoop fuel' offset limit retries1
              (mkReader (reads rd1) (waited rd1 ++ [delay]) (allRelays rd1))
          else (rd1, retries1, Thrown message) in
        match readContract offset limit (reads rd) with
        | inl (Ok batchData) => (rd1, retries, Fetched batchData)
        | inl (Fail fl) => failed (failureMessage fl)
        | inr message => failed message
        end
    end
  else (rd, retries, Exhausted).

(** The [for] loop of [fetchAllRelaysProgressively]: [todo] further
    batches from batch [i]. *)
Fixpoint sweepLoop (todo : nat) (i total : Z) (rd : Reader) : Reader :=
  match todo with
  | O => rd
  | S todo' =>
      let batchSize := 50 in
      let offset := i * batchSize in
      let limit := Z.min batchSize (total - offset) in
      match retryLoop 5 offset limit 0 rd with
      | (rd1, _, Fetched batchData) =>
          sweepLoop todo' (i + 1) total
            (mkReader (reads rd1) (waited rd1 ++ [500])
                      (allRelays rd1 ++ batchData))
      | (rd1, _, Exhausted) => rd1
      | (rd1, _, Thrown _) => rd1
      end
  end.

(** [fetchAllRelaysProgressively]; [totalCount] is the relay count read
    beforehand. *)
Definition fetchAllRelaysProgressively (totalCount : Z) : Reader :=
  if totalCount =? 0 then mkReader 0 [] []
  else
    let total := totalCount in
    let batches := (total + 49) / 50 in
    sweepLoop (Z.to_nat batches) 0 total (mkReader 0 [] []).

End Reader.

(** ** The rest of the transformer (relayData.ts) *)

(** [keyof RelayData] *)
Inductive RelayKey : Type :=
| KeyFingerprint | KeyNickname | KeyFlags | KeyUptime | KeyBandwidth
| KeyConsensusWeight | KeyCountry | KeyAsNumber | KeyLastSeen | KeyRunning.

(** [relay[sortBy]], by its [typeof]. *)
Inductive FieldValue : Type :=
| NumberValue (k : Z)
| StringValue (str : string)
| OtherValue.

Definition fieldOf (key : RelayKey) (relay : RelayData) : FieldValue :=
  match key with
  | KeyFingerprint => StringValue (fingerprint relay)
  | KeyNickname => StringValue (nickname relay)
  | KeyFlags => OtherValue
  | KeyUptime => NumberValue (uptime relay)
  | KeyBandwidth => NumberValue (bandwidth relay)
  | KeyConsensusWeight => NumberValue (consensusWeight relay)
  | KeyCountry => StringValue (country relay)
  | KeyAsNumber => StringValue (asNumber relay)
  | KeyLastSeen => NumberValue (lastSeen relay)
  | KeyRunning => OtherValue
  end.

(** [Array.prototype.sort] with a comparator is a stable sort: an element
    is placed before the first element it does not compare greater than. *)
Fixpoint insertSorted {A} (cmp : A -> A -> Z) (x : A) (l : list A) : list A :=
  match l with
  | [] => [x]
  | y :: l' => if cmp x y <=? 0 then x :: l else y :: insertSorted cmp x l'
  end.

Definition stableSort {A} (cmp : A -> A -> Z) (l : list A) : list A :=
  foldr (insertSorted cmp) [] l.

Record TransformOptions : Type := mkTransformOptions {
  normalizeUptime : option bool;
  filterInvalid : option bool;
  sortBy : option RelayKey
}.

Section Sorting.

(** [a.localeCompare(b)] *)
Variable localeCompare : string -> string -> Z.

(** The comparator of [sortRelays]. *)
Definition compareRelays (key : RelayKey) (descending : bool)
    (a b : RelayData) : Z :=
  match fieldOf key a, fieldOf key b with
  | NumberValue aVal, NumberValue bVal =>
      if descending then bVal - aVal else aVal - bVal
  | StringValue aVal, StringValue bVal =>
      if descending then localeCompare bVal aVal else localeCompare aVal bVal
  | _, _ => 0
  end.

(** [sortRelays]: sorts a copy, the argument is not changed. *)
Definition sortRelays (relays : list RelayData) (key : RelayKey)
    (descending : bool) : list RelayData :=
  stableSort (compareRelays key descending) relays.

Variable unicodeUpperCase : string -> string.
Variable dateParse : string -> option Z.
(** [Date.now()] at the k-th call of [transformRelay]. *)
Variable nowAt : nat -> Z.

(** The [for] loop of [transformRelays] from the k-th relay on. *)
Fixpoint transformLoop (k : nat) (relays : list Onionoo.Relay)
  : list RelayData :=
  match relays with
  | [] => []
  | relay :: rest =>
      match transformRelay unicodeUpperCase dateParse (nowAt k) relay with
      | Some relayData => relayData :: transformLoop (S k) rest
      | None => transformLoop (S k) rest
      end
  end.

(** [transformRelays] *)
Definition transformRelays (relays : list Onionoo.Relay)
    (options : TransformOptions) : list RelayData :=
  let transformed := transformLoop 0 relays in
  let transformed :=
    match filterInvalid options with
    | Some false => transformed
    | _ => List.filter validateRelayData transformed
    end in
  match sortBy options with
  | Some key => sortRelays transformed key true
  | None => transformed
  end.

End Sorting.

(** [filterByMinWeight] *)
Definition filterByMinWeight (relays : list RelayData) (minWeight : Z)
  : list RelayData :=
  List.filter (fun relay => consensusWeight relay >=? minWeight) relays.

(** [filterByFlags] *)
Definition filterByFlags (relays : list RelayData) (requiredFlags : list string)
  : list RelayData :=
  List.filter
    (fun relay =>
       forallb (fun flag => existsb (String.eqb flag) (flags relay)) requiredFlags)
    relays.

(** ** The rest of the pipeline (processDownloadedData.ts) *)

(** The sampling loop of [verifyUpdate]: the fingerprint and the record
    of the index positions [i], [i + 1], ... *)
Fixpoint sampleLoop (st : State) (i : Z) (todo : nat)
  : result (list (string * RelayData)) :=
  match todo with
  | O => Ok []
  | S todo' =>
      let* fp := getFingerprintByIndex i st in
      let* relay := getRelay fp st in
      let* tl := sampleLoop st (i + 1) todo' in
      Ok ((fp, relay) :: tl)
  end.

(** [verifyUpdate]: the count and the sampled relays it prints. *)
Definition verifyUpdate (st : State) : result (Z * list (string * RelayData)) :=
  let relayCount := getRelayCount st in
  if relayCount >? 0 then
    let sampleSize := Z.min 3 relayCount in
    let* samples := sampleLoop st 0 (Z.to_nat sampleSize) in
    Ok (relayCount, samples)
  else Ok (relayCount, []).

(** The summary of [run]: successful and failed batches, and
    [totalRelaysUpdated]. *)
Definition runSummary (res : list UpdateResult) : Z * Z * Z :=
  (Z.of_nat (length (List.filter (fun r => success r) res)),
   Z.of_nat (length (List.filter (fun r => negb (success r)) res)),
   foldl (fun sum r => sum + relaysUpdated r) 0 res).

(** ** The search view (web/app/page.tsx) *)





(** [dataSource]: the cache when searching and the cache is filled, the
    current page otherwise. *)
Definition dataSource (searchQuery : string) (cacheData : option (list RelayData))
    (relayArray : list RelayData) : list RelayData :=
  match cacheData with
  | Some cached =>
      if negb (String.eqb searchQuery "") && (0 <? length cached)%nat
      then cached else relayArray
  | None => relayArray
  end.







(** ** Auxiliary definitions for the statements *)

(** A record that breaks one of the invariants of section 3 at time [now]. *)
Definition violates (now : Z) (r : RelayData) : Prop :=
  blen (fingerprint r) <> 40 \/
  uptime r > 1000 \/
  blen (country r) <> 2 \/
  nickname r = "" \/
  lastSeen r > now.

(** The storage write both [updateRelay] and the loop of
    [batchUpdateRelays] perform once the checks have passed. *)
Definition writeRelay (r : RelayData) (s : State) : State :=
  set_relay
    (if blen (fingerprint (relayAt s (fingerprint r))) =? 0
     then push_fingerprint s (fingerprint r)
     else s)
    (fingerprint r) r.

(** The five [require]s on a record, as one boolean. *)
Definition recordChecks (now : Z) (r : RelayData) : bool :=
  (blen (fingerprint r) =? FINGERPRINT_LENGTH) &&
  (uptime r <=? MAX_UPTIME) &&
  (blen (country r) =? COUNTRY_CODE_LENGTH) &&
  (lastSeen r <=? now) &&
  (blen (nickname r) >? 0).

(** The index and the mapping describe the same set of records. *)
Definition store_consistent (s : State) : Prop :=
  NoDup (fingerprintList s) /\
  length (fingerprintList s) = size (relaysByFingerprint s) /\
  (forall fp, fp ∈ fingerprintList s <-> is_Some (relaysByFingerprint s !! fp)) /\
  (forall fp r, relaysByFingerprint s !! fp = Some r ->
     fingerprint r = fp /\ blen fp = 40).

(** Nothing stored in [s0] is lost in [s]. *)
Definition extends (s0 s : State) : Prop :=
  fingerprintList s0 `prefix_of` fingerprintList s /\
  (forall fp, relayExists fp s0 = true -> relayExists fp s = true).

Definition unauthorizedError : failure :=
  Error "Only owner or authorized updaters can call this function".

Definition notOwnerError : failure :=
  Error "Only owner can call this function".

(** Sample data of the contract's test suite. *)
Definition sampleRelay : RelayData :=
  mkRelayData "A1B2C3D4E5F6A1B2C3D4E5F6A1B2C3D4E5F6A1B2" "TorRelayTest"
    ["Guard"; "Fast"; "Stable"] 950 1000000 500 "US" "AS1234" 1700000000 true.

Definition withFingerprint (fp : string) (r : RelayData) : RelayData :=
  mkRelayData fp (nickname r) (flags r) (uptime r) (bandwidth r)
    (consensusWeight r) (country r) (asNumber r) (lastSeen r) (running r).

Definition withNickname (nick : string) (r : RelayData) : RelayData :=
  mkRelayData (fingerprint r) nick (flags r) (uptime r) (bandwidth r)
    (consensusWeight r) (country r) (asNumber r) (lastSeen r) (running r).

Definition withCountry (c : string) (r : RelayData) : RelayData :=
  mkRelayData (fingerprint r) (nickname r) (flags r) (uptime r) (bandwidth r)
    (consensusWeight r) c (asNumber r) (lastSeen r) (running r).

(** ["c" x 40] *)
Fixpoint repeatChar (c : ascii) (k : nat) : string :=
  match k with
  | O => EmptyString
  | S k' => String c (repeatChar c k')
  end.

Definition deployer : Env := mkEnv 1 1700000000.
Definition laterBy (who : address) : Env := mkEnv who 1700000100.

(** A store deployed by address 1 and holding [sampleRelay]. *)
Definition seededStore : State :=
  step deployer (CallUpdateRelay sampleRelay) (constructor deployer).

Definition badCountryRelay : RelayData :=
  withCountry "USA" (withFingerprint (repeatChar "B" 40) sampleRelay).

Definition mixedBatch : list RelayData :=
  [withFingerprint (repeatChar "A" 40) sampleRelay; badCountryRelay;
   withFingerprint (repeatChar "C" 40) sampleRelay].

(** [sampleRelay] with its fingerprint in lower case. *)
Definition hexLowerRelay : RelayData :=
  withFingerprint "a1b2c3d4e5f6a1b2c3d4e5f6a1b2c3d4e5f6a1b2" sampleRelay.

(** Two fingerprints that differ in letter case only, neither of them
    hexadecimal. *)
Definition lowerCaseRelay : RelayData :=
  withFingerprint (repeatChar "z" 40) sampleRelay.

Definition upperCaseRelay : RelayData :=
  withFingerprint (repeatChar "Z" 40) sampleRelay.

(** A store holding the records "A" x 40 and "C" x 40. *)
Definition twoRelayStore : State :=
  step deployer
    (CallBatchUpdateRelays [withFingerprint (repeatChar "A" 40) sampleRelay;
                            withFingerprint (repeatChar "C" 40) sampleRelay])
    (constructor deployer).

Definition offsetOutOfBounds : failure := Error "Offset out of bounds".

(** What the loop of [updateContract] records for a chunk, given what
    its submission threw: success with the size of the chunk, or failure
    with no relay updated and the message. *)
Definition chunkResult (batch : list RelayData) (thrown : option string)
  : UpdateResult :=
  match thrown with
  | None => mkUpdateResult true (Z.of_nat (length batch)) None
  | Some message => mkUpdateResult false 0 (Some message)
  end.

Definition mentionsNonce (message : string) : bool :=
  includes "nonce" message || includes "replacement" message.

(** The wait that follows chunk [i] of [total]: the inter-chunk delay
    after a success that is not the last chunk, 3000 ms after an error
    that mentions a nonce or a replacement. *)
Definition chunkWait (batchDelay i total : Z) (thrown : option string) : list Z :=
  match thrown with
  | None => if i <? total - 1 then [batchDelay] else []
  | Some message => if mentionsNonce message then [3000] else []
  end.

(** The waits of the chunks [i], [i + 1], ..., in order. *)
Fixpoint chunkWaits (batchDelay i total : Z) (thrown : list (option string))
  : list Z :=
  match thrown with
  | [] => []
  | t :: rest =>
      (chunkWait batchDelay i total t ++ chunkWaits batchDelay (i + 1) total rest)%list
  end.

(** A write channel that answers the first submission with a nonce
    conflict and executes every later one. *)
Definition nonceConflictOnce (k : nat) : Attempt :=
  match k with
  | O => ChannelError "nonce too low"
  | _ => Mined 1700000100
  end.

(** A write channel that throttles the first two submissions and would
    execute any later one. *)
Definition throttledTwice (k : nat) : Attempt :=
  match k with
  | O | S O => ChannelError "rate limit exceeded"
  | _ => Mined 1700000100
  end.

(** An RPC endpoint that answers the first two reads with HTTP 429. *)
Definition rateLimitedTwice (k : nat) : ReadAttempt :=
  match k with
  | O | S O => ReadError "HTTP 429"
  | _ => ReadServed
  end.

(** The test of [fetchAllRelaysProgressively] for a retryable error. *)
Definition isRateLimit (message : string) : bool :=
  includes "rate limit" message || includes "429" message.

(** A feed entry whose country code has three letters, and the record
    [transformRelay] makes of it. *)
Definition longCountryEntry : Onionoo.Relay :=
  Onionoo.mkRelay None None None None
    (Some "TorRelayTest") (Some "a1b2c3d4e5f6a1b2c3d4e5f6a1b2c3d4e5f6a1b2")
    None (Some true) None (Some "USA") None None None None None.

Definition longCountryRecord : RelayData :=
  mkRelayData "A1B2C3D4E5F6A1B2C3D4E5F6A1B2C3D4E5F6A1B2" "TorRelayTest"
    [] 900 0 0 "USA" "AS0" 1700000000 true.

(** A feed entry whose nickname is one space, and its record. *)
Definition blankNicknameEntry : Onionoo.Relay :=
  Onionoo.mkRelay None None None None
    (Some " ") (Some "a1b2c3d4e5f6a1b2c3d4e5f6a1b2c3d4e5f6a1b2")
    None (Some true) None (Some "us") None None None None None.


(** The fractions -1, 0.01, 0.00014 and 0.00062 as binary64 values. *)
Definition minusOne : Fraction :=
  mkFraction (S754_finite true 4503599627370496 (-52)) eq_refl.

Definition onePercent : Fraction :=
  mkFraction (S754_finite false 5764607523034235 (-59)) eq_refl.

Definition fourteenHundredThousandths : Fraction :=
  mkFraction (S754_finite false 5165088340638674 (-65)) eq_refl.

Definition sixtyTwoHundredThousandths : Fraction :=
  mkFraction (S754_finite false 5718490662849961 (-63)) eq_refl.

(** A running feed entry that reports a negative fraction. *)
Definition negativeFractionRelay : Onionoo.Relay :=
  Onionoo.mkRelay None None None None
    (Some "TorRelayTest") (Some "a1b2c3d4e5f6a1b2c3d4e5f6a1b2c3d4e5f6a1b2")
    None (Some true) None (Some "us") None None None None
    (Some minusOne).

(** The record [transformRelay] makes of [negativeFractionRelay]. *)
Definition negativeUptimeRecord : RelayData :=
  mkRelayData "A1B2C3D4E5F6A1B2C3D4E5F6A1B2C3D4E5F6A1B2" "TorRelayTest"
    [] (-50000) 0 0 "us" "AS0" 1700000000 true.

(** A feed entry that reports 1% of the consensus weight. *)
Definition onePercentRelay : Onionoo.Relay :=
  Onionoo.mkRelay None None None None
    (Some "TorRelayTest") (Some "a1b2c3d4e5f6a1b2c3d4e5f6a1b2c3d4e5f6a1b2")
    None (Some true) None (Some "us") None None None None
    (Some onePercent).

(** The record [transformRelay] makes of [onePercentRelay]. *)
Definition onePercentRecord : RelayData :=
  mkRelayData "A1B2C3D4E5F6A1B2C3D4E5F6A1B2C3D4E5F6A1B2" "TorRelayTest"
    [] 500 0 0 "us" "AS0" 1700000000 true.

(** A fingerprint that begins with U+00DF and goes on with 39 letters, a
    feed entry carrying it, and what an engine's upper-casing makes of
    it: U+00DF becomes "SS". *)
Definition sharpSFingerprint : string :=
  String.append (bytes [195; 159]%nat) (repeatChar "a" 39).

Definition sharpSEntry : Onionoo.Relay :=
  Onionoo.mkRelay None None None None
    (Some "TorRelayTest") (Some sharpSFingerprint)
    None (Some true) None (Some "us") None None None None None.

Definition sharpSToSS (str : string) : string :=
  String.append "SS" (upperCaseAscii (skip 2 str)).

(** [relay.running ?? relay.r ?? false] *)
Definition feedRunning (relay : Onionoo.Relay) : bool :=
  match Onionoo.running relay with
  | Some b => b
  | None => default false (Onionoo.r relay)
  end.

(** A date parser that recognises nothing. *)
Definition noDate (str : string) : option Z := None.

(** A case mapping that leaves the strings beyond ASCII as they are. *)
Definition noCaseMapping (str : string) : string := str.

(** The owner adds itself as an updater, then removes itself again. *)
Definition ownerAsUpdater : State :=
  step deployer (CallAddAuthorizedUpdater 1) (constructor deployer).

Definition ownerRemoved : State :=
  step deployer (CallRemoveAuthorizedUpdater 1) ownerAsUpdater.

(** The owner adds address 7 as an updater, then removes it again. *)
Definition sevenAdded : State :=
  step deployer (CallAddAuthorizedUpdater 7) (constructor deployer).

Definition sevenRemoved : State :=
  step deployer (CallRemoveAuthorizedUpdater 7) sevenAdded.

(** The ten records of the pagination tests: fingerprints ["0" x 40] to
    ["9" x 40]. *)
Definition tenRelays : list RelayData :=
  map (fun c => withFingerprint (repeatChar c 40) sampleRelay)
      ["0"; "1"; "2"; "3"; "4"; "5"; "6"; "7"; "8"; "9"]%char.

Definition tenRelayStore : State :=
  step deployer (CallBatchUpdateRelays tenRelays) (constructor deployer).

(** A batch for the ten-record store: a new fingerprint, a stored one, the
    new one again, and a second new one. *)
Definition repeatedBatch : list RelayData :=
  [lowerCaseRelay;
   withNickname "Again" (withFingerprint (repeatChar "0" 40) sampleRelay);
   withNickname "Twice" lowerCaseRelay;
   upperCaseRelay].

Definition grownStore : State :=
  step (laterBy 1) (CallBatchUpdateRelays repeatedBatch) tenRelayStore.

(** A record whose lastSeen is beyond the range of Date. *)
Definition farFutureRelay : RelayData :=
  mkRelayData "A1B2C3D4E5F6A1B2C3D4E5F6A1B2C3D4E5F6A1B2" "TorRelayTest"
    ["Guard"; "Fast"; "Stable"] 950 1000000 500 "US" "AS1234" 9000000000000 true.

(** A write channel that executes every submission and loses every
    confirmation. *)
Definition lostConfirmation (k : nat) : Attempt :=
  MinedUnconfirmed 1700000100 "timeout exceeded".

(** A write channel that executes every submission. *)
Definition alwaysMined (k : nat) : Attempt := Mined 1700000100.

(** The feed of the specification's scenario, already transformed:
    ["A" x 40], ["B" x 40], ["C" x 40]. *)
Definition abcRelays : list RelayData :=
  [withFingerprint (repeatChar "A" 40) sampleRelay;
   withFingerprint (repeatChar "B" 40) sampleRelay;
   withFingerprint (repeatChar "C" 40) sampleRelay].

(** The storage a run ends with, the deployer's storage if it threw. *)
Definition storeAfter (outcome : string + Run) : State :=
  match outcome with
  | inl _ => constructor deployer
  | inr run => store run
  end.

(** Single upserts issued one after the other in one block. *)
Fixpoint sequentialUpdates (e : Env) (relays : list RelayData) (s : State)
  : result State :=
  match relays with
  | [] => Ok s
  | r :: rest =>
      let* s1 := updateRelayWith e r s in
      sequentialUpdates e rest s1
  end.

(** The five [require]s on a record, in the order of the source. *)
Definition recordRequires (now : Z) (r : RelayData) : result unit :=
  require (blen (fingerprint r) =? FINGERPRINT_LENGTH) "Invalid fingerprint length" ;;;
  require (uptime r <=? MAX_UPTIME) "Uptime exceeds maximum" ;;;
  require (blen (country r) =? COUNTRY_CODE_LENGTH) "Invalid country code" ;;;
  require (lastSeen r <=? now) "Last seen cannot be in future" ;;;
  require (blen (nickname r) >? 0) "Nickname cannot be empty".

(** The storage after the writes of [relays], first to last. *)
Definition writeAll (relays : list RelayData) (s : State) : State :=
  foldl (fun st r => writeRelay r st) s relays.

(** The last record of [relays] carrying the fingerprint [fp]. *)
Definition lastWrite (fp : string) (relays : list RelayData) : option RelayData :=
  foldl (fun acc r => if String.eqb (fingerprint r) fp then Some r else acc)
        None relays.

(** [relay.fingerprint || relay.f] *)
Definition feedFingerprint (relay : Onionoo.Relay) : option string :=
  orString (Onionoo.fingerprint relay) (Onionoo.f relay).

(** The fingerprint [transformRelay] reads is there and is ASCII. *)
Definition asciiFingerprint (relay : Onionoo.Relay) : bool :=
  match feedFingerprint relay with
  | Some fp => isAscii fp
  | None => false
  end.

(** The key a comparator orders by: [cmp a b <= 0] exactly when the key
    of [a] is at most the key of [b]. *)
Definition ordersBy {A} (cmp : A -> A -> Z) (g : A -> Z) : Prop :=
  forall a b, cmp a b <= 0 <-> g a <= g b.

(** The numeric fields of a record. *)
Definition numberField (key : RelayKey) : option (RelayData -> Z) :=
  match key with
  | KeyUptime => Some uptime
  | KeyBandwidth => Some bandwidth
  | KeyConsensusWeight => Some consensusWeight
  | KeyLastSeen => Some lastSeen
  | _ => None
  end.

(** A comparison of strings by length, to instantiate [localeCompare]. *)
Definition compareLength (a b : string) : Z := blen a - blen b.

Definition weighted (w : Z) (nick : string) : RelayData :=
  mkRelayData (fingerprint sampleRelay) nick [] 950 0 w "US" "AS1" 0 true.

(** The options every caller of [transformRelays] passes. *)
Definition pipelineOptions : TransformOptions :=
  mkTransformOptions None (Some true) (Some KeyConsensusWeight).

Definition fixedClock (k : nat) : Z := 1700000000000.

(** The records of the chunks whose result reports success, in order. *)
Fixpoint appliedRelays (batches : list (list RelayData))
    (res : list UpdateResult) : list RelayData :=
  match batches, res with
  | batch :: batches', r :: res' =>
      ((if success r then batch else []) ++ appliedRelays batches' res')%list
  | _, _ => []
  end.

(** The records of the chunks flagged in [written], in order. *)
Fixpoint writtenRelays (batches : list (list RelayData)) (written : list bool)
  : list RelayData :=
  match batches, written with
  | batch :: batches', w :: written' =>
      ((if w then batch else []) ++ writtenRelays batches' written')%list
  | _, _ => []
  end.

(** An RPC endpoint that serves every read. *)
Definition alwaysServed (k : nat) : ReadAttempt := ReadServed.

(** An RPC endpoint that is rate limited for good. *)
Definition alwaysLimited (k : nat) : ReadAttempt := ReadError "rate limit".

(** An RPC endpoint that is down. *)
Definition alwaysDown (k : nat) : ReadAttempt := ReadError "connection refused".

(** * Properties *)

(** ** The model on the repository's own tests *)

Example test_pagination_first_page :
  getRelaysPaginated 0 5 tenRelayStore = Ok (take 5 tenRelays).
Proof. vm_compute. reflexivity. Qed.

Example test_pagination_beyond_bounds :
  getRelaysPaginated 8 5 tenRelayStore = Ok (drop 8 tenRelays).
Proof. vm_compute. reflexivity. Qed.

Example test_pagination_offset_out_of_bounds :
  getRelaysPaginated 999 5 tenRelayStore = Fail offsetOutOfBounds.
Proof. vm_compute. reflexivity. Qed.

Example test_relay_queries :
  getRelay (fingerprint sampleRelay) seededStore = Ok sampleRelay /\
  getRelayCount seededStore = 1 /\
  relayExists (fingerprint sampleRelay) seededStore = true /\
  relayExists (repeatChar "X" 40) seededStore = false /\
  getFingerprintByIndex 0 seededStore = Ok (fingerprint sampleRelay) /\
  getFingerprintByIndex 999 seededStore = Fail (Error "Index out of bounds") /\
  getRelay (repeatChar "X" 40) seededStore = Fail (Error "Relay not found").
Proof. repeat split; vm_compute; reflexivity. Qed.

Example test_rejected_updates :
  updateRelayWith deployer (withFingerprint "SHORT" sampleRelay) (constructor deployer)
    = Fail (Error "Invalid fingerprint length") /\
  updateRelay deployer (fingerprint sampleRelay) (nickname sampleRelay)
    (flags sampleRelay) 1001 (bandwidth sampleRelay) (consensusWeight sampleRelay)
    (country sampleRelay) (asNumber sampleRelay) (lastSeen sampleRelay)
    (running sampleRelay) (constructor deployer)
    = Fail (Error "Uptime exceeds maximum") /\
  transferOwnership deployer 0 (constructor deployer)
    = Fail (Error "New owner cannot be zero address") /\
  removeAuthorizedUpdater deployer 7 (constructor deployer)
    = Fail (Error "Address not authorized").
Proof. repeat split; vm_compute; reflexivity. Qed.

(** The scenario of the specification: three records, chunk size 2. *)
Example scenario_three_records_two_chunks :
  batchRelays abcRelays 2 = [take 2 abcRelays; drop 2 abcRelays] /\
  getRelayCount
    (storeAfter (updateContract alwaysMined 1 false 3000 abcRelays 2
                   (constructor deployer))) = 3 /\
  getFingerprintByIndex 0
    (storeAfter (updateContract alwaysMined 1 false 3000 abcRelays 2
                   (constructor deployer))) = Ok (repeatChar "A" 40).
Proof. repeat split; vm_compute; reflexivity. Qed.

Example transform_upper_cases_fingerprint :
  fingerprint <$> transformRelay noCaseMapping noDate 1700000000000 onePercentRelay
  = Some "A1B2C3D4E5F6A1B2C3D4E5F6A1B2C3D4E5F6A1B2".
Proof. vm_compute. reflexivity. Qed.

(** ** Basic facts about the checks *)

Lemma blen_nonneg (x : string) : 0 <= blen x.
Proof. unfold blen. lia. Qed.

Lemma blen_pos_iff (x : string) : (blen x >? 0) = true <-> x <> "".
Proof.
  unfold blen. destruct x as [|a tl]; simpl.
  - split; [discriminate | congruence].
  - split; [discriminate | intros _; apply Z.gtb_lt; lia].
Qed.

Lemma recordChecks_true (now : Z) (r : RelayData) :
  recordChecks now r = true <-> store_invariants now r.
Proof.
  unfold recordChecks, store_invariants, FINGERPRINT_LENGTH, MAX_UPTIME,
    COUNTRY_CODE_LENGTH.
  rewrite !andb_true_iff, !Z.eqb_eq, !Z.leb_le, blen_pos_iff. tauto.
Qed.

Lemma violates_iff (now : Z) (r : RelayData) :
  violates now r <-> ~ store_invariants now r.
Proof.
  unfold violates, store_invariants. split.
  - intros H (H1 & H2 & H3 & H4 & H5).
    destruct H as [H | [H | [H | [H | H]]]]; try contradiction; lia.
  - intros H.
    destruct (decide (blen (fingerprint r) = 40)); [| tauto].
    destruct (decide (uptime r <= 1000)); [| right; left; lia].
    destruct (decide (blen (country r) = 2)); [| tauto].
    destruct (decide (nickname r = "")); [tauto |].
    destruct (decide (lastSeen r <= now)); [| do 4 right; lia].
    exfalso. apply H. tauto.
Qed.

Lemma recordChecks_false (now : Z) (r : RelayData) :
  recordChecks now r = false <-> violates now r.
Proof.
  rewrite violates_iff, <- recordChecks_true.
  destruct (recordChecks now r); split; congruence.
Qed.

Lemma onlyAuthorized_ok (e : Env) (s : State) :
  authorized e s -> onlyAuthorized e s = Ok tt.
Proof.
  intros [H | H]; unfold onlyAuthorized.
  - rewrite (proj2 (Z.eqb_eq _ _) H). reflexivity.
  - rewrite H, orb_true_r. reflexivity.
Qed.

Lemma onlyAuthorized_fail (e : Env) (s : State) :
  ~ authorized e s -> onlyAuthorized e s = Fail unauthorizedError.
Proof.
  intros H. unfold onlyAuthorized, authorized in *.
  destruct (Z.eqb_spec (msg_sender e) (owner s)) as [Heq | Hne]; [tauto |].
  destruct (isUpdater s (msg_sender e)); [tauto | reflexivity].
Qed.

(** ** What a successful write does *)

Lemma updateRelay_body (e : Env) (r : RelayData) (s : State) :
  store_invariants (block_timestamp e) r ->
  updateRelayWith e r s = (onlyAuthorized e s ;;; Ok (writeRelay r s)).
Proof.
  intros (H1 & H2 & H3 & H4 & H5).
  unfold updateRelayWith, updateRelay, writeRelay.
  destruct (onlyAuthorized e s) as [[] | fl]; simpl; [| reflexivity].
  unfold FINGERPRINT_LENGTH, MAX_UPTIME, COUNTRY_CODE_LENGTH.
  rewrite (proj2 (Z.eqb_eq _ _) H1), (proj2 (Z.leb_le _ _) H2),
    (proj2 (Z.eqb_eq _ _) H3), (proj2 (Z.leb_le _ _) H5),
    (proj2 (blen_pos_iff _) H4).
  simpl. destruct r; reflexivity.
Qed.

Lemma updateRelay_ok (e : Env) (r : RelayData) (s : State) :
  authorized e s -> store_invariants (block_timestamp e) r ->
  updateRelayWith e r s = Ok (writeRelay r s).
Proof.
  intros Ha Hv. rewrite updateRelay_body by assumption.
  rewrite onlyAuthorized_ok by assumption. reflexivity.
Qed.

Lemma updateRelay_invalid (e : Env) (r : RelayData) (s : State) :
  violates (block_timestamp e) r -> succeeds (updateRelayWith e r s) = false.
Proof.
  intros Hv. apply recordChecks_false in Hv. revert Hv.
  unfold updateRelayWith, updateRelay, recordChecks.
  destruct (onlyAuthorized e s) as [[] | fl]; simpl; [| reflexivity].
  destruct (blen (fingerprint r) =? FINGERPRINT_LENGTH); simpl; [| reflexivity].
  destruct (uptime r <=? MAX_UPTIME); simpl; [| reflexivity].
  destruct (blen (country r) =? COUNTRY_CODE_LENGTH); simpl; [| reflexivity].
  destruct (lastSeen r <=? block_timestamp e); simpl; [| reflexivity].
  destruct (blen (nickname r) >? 0); simpl; [discriminate | reflexivity].
Qed.

Lemma batchLoop_cons_ok (e : Env) (r : RelayData) (rest : list RelayData)
    (s : State) :
  store_invariants (block_timestamp e) r ->
  batchLoop e (r :: rest) s = batchLoop e rest (writeRelay r s).
Proof.
  intros (H1 & H2 & H3 & H4 & H5). simpl.
  unfold FINGERPRINT_LENGTH, MAX_UPTIME, COUNTRY_CODE_LENGTH.
  rewrite (proj2 (Z.eqb_eq _ _) H1), (proj2 (Z.leb_le _ _) H2),
    (proj2 (Z.eqb_eq _ _) H3), (proj2 (Z.leb_le _ _) H5),
    (proj2 (blen_pos_iff _) H4).
  reflexivity.
Qed.

Lemma batchLoop_cons_invalid (e : Env) (r : RelayData) (rest : list RelayData)
    (s : State) :
  violates (block_timestamp e) r ->
  succeeds (batchLoop e (r :: rest) s) = false.
Proof.
  intros Hv. apply recordChecks_false in Hv. revert Hv.
  unfold recordChecks. simpl.
  destruct (blen (fingerprint r) =? FINGERPRINT_LENGTH); simpl; [| reflexivity].
  destruct (uptime r <=? MAX_UPTIME); simpl; [| reflexivity].
  destruct (blen (country r) =? COUNTRY_CODE_LENGTH); simpl; [| reflexivity].
  destruct (lastSeen r <=? block_timestamp e); simpl; [| reflexivity].
  destruct (blen (nickname r) >? 0); simpl; [discriminate | reflexivity].
Qed.

Lemma batchLoop_invalid (e : Env) (relays : list RelayData) (bad : RelayData) :
  bad ∈ relays -> violates (block_timestamp e) bad ->
  forall s, succeeds (batchLoop e relays s) = false.
Proof.
  intros Hin Hbad. induction relays as [| r rest IH]; intros s.
  - inversion Hin.
  - destruct (recordChecks (block_timestamp e) r) eqn:Hr.
    + apply recordChecks_true in Hr. rewrite batchLoop_cons_ok by assumption.
      apply IH. apply elem_of_cons in Hin as [-> | Hin]; [| assumption].
      exfalso. apply violates_iff in Hbad. contradiction.
    + apply batchLoop_cons_invalid. apply recordChecks_false. assumption.
Qed.

Lemma step_failed (e : Env) (c : Call) (s : State) :
  succeeds (exec e c s) = false -> step e c s = s.
Proof. unfold step. destruct (exec e c s); [discriminate | reflexivity]. Qed.

(** ** C1: an invalid record rejects the whole call *)

(** C1. For an authorized caller, a batch in which some record violates
    an invariant of section 3 makes [batchUpdateRelays] fail, and the
    transaction leaves the storage unchanged: the count is the same and
    every key reads what it read before, so none of the batch's records
    is written.  The same holds for [updateRelay] on an invalid record. *)
Theorem invalid_record_rejects_write
    (e : Env) (s : State) (relays : list RelayData) (bad : RelayData) :
  authorized e s ->
  bad ∈ relays ->
  violates (block_timestamp e) bad ->
  (succeeds (batchUpdateRelays e relays s) = false /\
   step e (CallBatchUpdateRelays relays) s = s /\
   getRelayCount (step e (CallBatchUpdateRelays relays) s) = getRelayCount s /\
   (forall fp, relayAt (step e (CallBatchUpdateRelays relays) s) fp = relayAt s fp)) /\
  (succeeds (updateRelayWith e bad s) = false /\
   step e (CallUpdateRelay bad) s = s /\
   getRelayCount (step e (CallUpdateRelay bad) s) = getRelayCount s /\
   (forall fp, relayAt (step e (CallUpdateRelay bad) s) fp = relayAt s fp)).
Proof.
  intros Hauth Hin Hbad.
  assert (Hb : succeeds (batchUpdateRelays e relays s) = false).
  { unfold batchUpdateRelays. rewrite onlyAuthorized_ok by assumption.
    simpl. eapply batchLoop_invalid; eassumption. }
  assert (Hu : succeeds (updateRelayWith e bad s) = false)
    by (apply updateRelay_invalid; assumption).
  assert (Hsb : step e (CallBatchUpdateRelays relays) s = s)
    by (apply step_failed; exact Hb).
  assert (Hsu : step e (CallUpdateRelay bad) s = s)
    by (apply step_failed; exact Hu).
  rewrite Hsb, Hsu. repeat split; assumption.
Qed.

(** A batch of two valid records around one with a three-letter country,
    sent by the owner to a store that already holds a record. *)
Lemma invalid_record_rejects_write_witness :
  getRelayCount seededStore = 1 /\
  succeeds (batchUpdateRelays (laterBy 1) mixedBatch seededStore) = false /\
  step (laterBy 1) (CallBatchUpdateRelays mixedBatch) seededStore = seededStore.
Proof.
  assert (Ha : authorized (laterBy 1) seededStore) by (left; reflexivity).
  assert (Hin : badCountryRelay ∈ mixedBatch) by (right; left).
  assert (Hbad : violates (block_timestamp (laterBy 1)) badCountryRelay)
    by (right; right; left; vm_compute; discriminate).
  destruct (invalid_record_rejects_write (laterBy 1) seededStore mixedBatch
              badCountryRelay Ha Hin Hbad) as [(Hf & Hs & _) _].
  split; [reflexivity | split; assumption].
Defined.

(** ** C2: round trip *)

Lemma relayAt_writeRelay (r : RelayData) (s : State) :
  relayAt (writeRelay r s) (fingerprint r) = r.
Proof.
  unfold relayAt, writeRelay, set_relay. simpl.
  rewrite lookup_insert_eq. reflexivity.
Qed.

Lemma relayAt_writeRelay_ne (r : RelayData) (s : State) (fp : string) :
  fp <> fingerprint r -> relayAt (writeRelay r s) fp = relayAt s fp.
Proof.
  intros Hne. unfold writeRelay.
  destruct (blen (fingerprint (relayAt s (fingerprint r))) =? 0);
    unfold relayAt, set_relay; simpl;
    rewrite lookup_insert_ne by congruence; reflexivity.
Qed.

Lemma getRelay_stored (fp : string) (s : State) :
  relayExists fp s = true -> getRelay fp s = Ok (relayAt s fp).
Proof. unfold relayExists, getRelay. intros ->. reflexivity. Qed.

(** C2. For an authorized caller and a record [r] satisfying every
    invariant of section 3, [updateRelay] called with the fields of [r]
    succeeds, and [getRelay] of [r]'s fingerprint in the resulting storage
    succeeds and returns [r] itself, equal in all ten fields. *)
Theorem upsert_then_get_returns_record (e : Env) (s : State) (r : RelayData) :
  authorized e s ->
  store_invariants (block_timestamp e) r ->
  exists s',
    updateRelayWith e r s = Ok s' /\
    step e (CallUpdateRelay r) s = s' /\
    getRelay (fingerprint r) s' = Ok r.
Proof.
  intros Hauth Hv. exists (writeRelay r s).
  assert (Hok := updateRelay_ok e r s Hauth Hv).
  split; [exact Hok |]. split.
  - unfold step. simpl. rewrite Hok. reflexivity.
  - rewrite getRelay_stored.
    + rewrite relayAt_writeRelay. reflexivity.
    + unfold relayExists. rewrite relayAt_writeRelay.
      apply blen_pos_iff. destruct Hv as (H1 & _).
      intros Heq. rewrite Heq in H1. discriminate.
Qed.

Lemma sampleRelay_valid : store_invariants 1700000000 sampleRelay.
Proof.
  unfold store_invariants. simpl.
  repeat split; try reflexivity; try discriminate; lia.
Qed.

Lemma upsert_then_get_returns_record_witness :
  exists s',
    updateRelayWith deployer sampleRelay (constructor deployer) = Ok s' /\
    step deployer (CallUpdateRelay sampleRelay) (constructor deployer) = s' /\
    getRelay (fingerprint sampleRelay) s' = Ok sampleRelay.
Proof.
  apply (upsert_then_get_returns_record deployer (constructor deployer) sampleRelay).
  - left. reflexivity.
  - exact sampleRelay_valid.
Defined.

(** ** C3: authorization *)

Lemma onlyOwner_fail (e : Env) (s : State) :
  msg_sender e <> owner s -> onlyOwner e s = Fail notOwnerError.
Proof.
  intros H. unfold onlyOwner.
  destruct (Z.eqb_spec (msg_sender e) (owner s)); [contradiction | reflexivity].
Qed.

Lemma onlyOwner_ok (e : Env) (s : State) :
  msg_sender e = owner s -> onlyOwner e s = Ok tt.
Proof. intros H. unfold onlyOwner. rewrite H, Z.eqb_refl. reflexivity. Qed.

Lemma isUpdater_set_eq (s : State) (a : address) (b : bool) :
  isUpdater (set_updater s a b) a = b.
Proof. unfold isUpdater, set_updater. simpl. rewrite lookup_insert_eq. reflexivity. Qed.

Lemma unauthorized_write_fails (e : Env) (s : State) :
  ~ authorized e s ->
  forall (r : RelayData) (rs : list RelayData),
    updateRelayWith e r s = Fail unauthorizedError /\
    batchUpdateRelays e rs s = Fail unauthorizedError.
Proof.
  intros H r rs. apply onlyAuthorized_fail in H.
  unfold updateRelayWith, updateRelay, batchUpdateRelays.
  rewrite H. split; reflexivity.
Qed.

Lemma step_add_updater (s : State) (eo : Env) (x : address) :
  msg_sender eo = owner s -> x <> 0 ->
  step eo (CallAddAuthorizedUpdater x) s
  = (if isUpdater s x then s else set_updater s x true).
Proof.
  intros Ho Hx. unfold step, exec, addAuthorizedUpdater.
  rewrite onlyOwner_ok by assumption.
  destruct (Z.eqb_spec x 0); [contradiction |].
  destruct (isUpdater s x); reflexivity.
Qed.

Lemma step_remove_updater (s : State) (eo : Env) (x : address) :
  msg_sender eo = owner s ->
  step eo (CallRemoveAuthorizedUpdater x) s
  = (if isUpdater s x then set_updater s x false else s).
Proof.
  intros Ho. unfold step, exec, removeAuthorizedUpdater.
  rewrite onlyOwner_ok by assumption.
  destruct (isUpdater s x); reflexivity.
Qed.

(** C3. In every storage [s]:
    - a caller that is neither the owner nor an authorized updater fails
      [updateRelay] and [batchUpdateRelays] with the authorization error,
      and the storage is unchanged;
    - after the owner's call of [addAuthorizedUpdater] for an address [x]
      (not the zero address), the writes of valid records by [x] succeed;
      the call itself succeeds if [x] was not authorized before;
    - after the owner's call of [removeAuthorizedUpdater] for an updater
      [x] (an address other than the owner's), the writes by [x] fail
      with the authorization error; the call itself succeeds if [x] was
      authorized before;
    - a caller other than the owner fails [transferOwnership],
      [addAuthorizedUpdater] and [removeAuthorizedUpdater], and the
      storage is unchanged. *)
Theorem authorization_discipline (s : State) :
  (forall e r rs, ~ authorized e s ->
     updateRelayWith e r s = Fail unauthorizedError /\
     batchUpdateRelays e rs s = Fail unauthorizedError /\
     step e (CallUpdateRelay r) s = s /\
     step e (CallBatchUpdateRelays rs) s = s) /\
  (forall eo x, msg_sender eo = owner s -> x <> 0 ->
     (isUpdater s x = false ->
      addAuthorizedUpdater eo x s = Ok (step eo (CallAddAuthorizedUpdater x) s)) /\
     (forall e r, msg_sender e = x -> store_invariants (block_timestamp e) r ->
        succeeds (updateRelayWith e r (step eo (CallAddAuthorizedUpdater x) s))
        = true)) /\
  (forall eo x, msg_sender eo = owner s -> x <> owner s ->
     (isUpdater s x = true ->
      removeAuthorizedUpdater eo x s
      = Ok (step eo (CallRemoveAuthorizedUpdater x) s)) /\
     (forall e r rs, msg_sender e = x ->
        updateRelayWith e r (step eo (CallRemoveAuthorizedUpdater x) s)
        = Fail unauthorizedError /\
        batchUpdateRelays e rs (step eo (CallRemoveAuthorizedUpdater x) s)
        = Fail unauthorizedError)) /\
  (forall e a, msg_sender e <> owner s ->
     transferOwnership e a s = Fail notOwnerError /\
     addAuthorizedUpdater e a s = Fail notOwnerError /\
     removeAuthorizedUpdater e a s = Fail notOwnerError /\
     step e (CallTransferOwnership a) s = s /\
     step e (CallAddAuthorizedUpdater a) s = s /\
     step e (CallRemoveAuthorizedUpdater a) s = s).
Proof.
  split; [| split; [| split]].
  - intros e r rs H.
    destruct (unauthorized_write_fails e s H r rs) as [Hu Hb].
    unfold step. simpl. rewrite Hu, Hb. repeat split.
  - intros eo x Ho Hx. rewrite (step_add_updater s eo x Ho Hx). split.
    + intros Hn. rewrite Hn. unfold addAuthorizedUpdater.
      rewrite onlyOwner_ok by assumption. rewrite Hn.
      destruct (Z.eqb_spec x 0); [contradiction | reflexivity].
    + intros e r He Hv. rewrite updateRelay_ok; [reflexivity | | assumption].
      right. rewrite He. destruct (isUpdater s x) eqn:Hu; [exact Hu |].
      apply isUpdater_set_eq.
  - intros eo x Ho Hne. rewrite (step_remove_updater s eo x Ho). split.
    + intros Hu. rewrite Hu. unfold removeAuthorizedUpdater.
      rewrite onlyOwner_ok by assumption. rewrite Hu. reflexivity.
    + intros e r rs He. apply unauthorized_write_fails.
      destruct (isUpdater s x) eqn:Hu.
      * intros [H | H].
        -- apply Hne. rewrite <- He. exact H.
        -- rewrite He, isUpdater_set_eq in H. discriminate.
      * intros [H | H].
        -- apply Hne. rewrite <- He. exact H.
        -- rewrite He, Hu in H. discriminate.
  - intros e a H. apply onlyOwner_fail in H.
    unfold step. simpl.
    unfold transferOwnership, addAuthorizedUpdater, removeAuthorizedUpdater.
    rewrite H. repeat split.
Qed.

(** Address 1 deploys; address 7 is a stranger, is added, writes, is
    removed, and is a stranger again. *)
Lemma authorization_discipline_witness :
  updateRelayWith (laterBy 7) sampleRelay (constructor deployer)
    = Fail unauthorizedError /\
  (addAuthorizedUpdater deployer 7 (constructor deployer) = Ok sevenAdded /\
   succeeds (updateRelayWith (laterBy 7) sampleRelay sevenAdded) = true) /\
  (removeAuthorizedUpdater deployer 7 sevenAdded = Ok sevenRemoved /\
   updateRelayWith (laterBy 7) sampleRelay sevenRemoved = Fail unauthorizedError) /\
  transferOwnership (laterBy 7) 7 (constructor deployer) = Fail notOwnerError.
Proof.
  assert (Hvalid : store_invariants (block_timestamp (laterBy 7)) sampleRelay).
  { unfold store_invariants. simpl.
    repeat split; try reflexivity; try discriminate; lia. }
  assert (Hstranger : ~ authorized (laterBy 7) (constructor deployer)).
  { intros [H | H]; discriminate H. }
  split; [| split; [| split]].
  - destruct (authorization_discipline (constructor deployer)) as (H & _).
    exact (proj1 (H (laterBy 7) sampleRelay [] Hstranger)).
  - destruct (authorization_discipline (constructor deployer)) as (_ & H & _).
    destruct (H deployer 7) as (Hadd & Hw); [reflexivity | discriminate |].
    split; [apply Hadd; reflexivity |].
    apply Hw; [reflexivity | exact Hvalid].
  - destruct (authorization_discipline sevenAdded) as (_ & _ & H & _).
    destruct (H deployer 7) as (Hrem & Hw); [reflexivity | discriminate |].
    split; [apply Hrem; reflexivity |].
    exact (proj1 (Hw (laterBy 7) sampleRelay [] eq_refl)).
  - destruct (authorization_discipline (constructor deployer)) as (_ & _ & _ & H).
    apply (H (laterBy 7) 7). discriminate.
Defined.

(** ** C4: the index is append-only and duplicate-free *)

(** Whatever the three kinds of storage change preserve, every
    successful call preserves. *)
Lemma exec_preserves (P : State -> Prop) :
  (forall s a, P s -> P (set_owner s a)) ->
  (forall s a b, P s -> P (set_updater s a b)) ->
  (forall s r now, store_invariants now r -> P s -> P (writeRelay r s)) ->
  forall e c s s', exec e c s = Ok s' -> P s -> P s'.
Proof.
  intros Howner Hupd Hwrite e c s s' Hexec HP.
  destruct c as [a | a | a | r | rs]; simpl in Hexec.
  - unfold transferOwnership in Hexec.
    destruct (onlyOwner e s) as [[] |]; simpl in Hexec; [| discriminate].
    destruct (negb (a =? 0)); simpl in Hexec; [| discriminate].
    injection Hexec as <-. apply Howner, HP.
  - unfold addAuthorizedUpdater in Hexec.
    destruct (onlyOwner e s) as [[] |]; simpl in Hexec; [| discriminate].
    destruct (negb (a =? 0)); simpl in Hexec; [| discriminate].
    destruct (negb (isUpdater s a)); simpl in Hexec; [| discriminate].
    injection Hexec as <-. apply Hupd, HP.
  - unfold removeAuthorizedUpdater in Hexec.
    destruct (onlyOwner e s) as [[] |]; simpl in Hexec; [| discriminate].
    destruct (isUpdater s a); simpl in Hexec; [| discriminate].
    injection Hexec as <-. apply Hupd, HP.
  - destruct (recordChecks (block_timestamp e) r) eqn:Hr.
    + apply recordChecks_true in Hr.
      rewrite updateRelay_body in Hexec by assumption.
      destruct (onlyAuthorized e s) as [[] |]; simpl in Hexec; [| discriminate].
      injection Hexec as <-. eapply Hwrite; eassumption.
    + apply recordChecks_false in Hr.
      apply (updateRelay_invalid e r s) in Hr. rewrite Hexec in Hr. discriminate.
  - unfold batchUpdateRelays in Hexec.
    destruct (onlyAuthorized e s) as [[] |]; simpl in Hexec; [| discriminate].
    revert s Hexec HP. induction rs as [| r rest IH]; intros s Hexec HP.
    + injection Hexec as <-. exact HP.
    + destruct (recordChecks (block_timestamp e) r) eqn:Hr.
      * apply recordChecks_true in Hr.
        rewrite batchLoop_cons_ok in Hexec by assumption.
        apply (IH _ Hexec). eapply Hwrite; eassumption.
      * apply recordChecks_false in Hr.
        apply (batchLoop_cons_invalid e r rest s) in Hr.
        rewrite Hexec in Hr. discriminate.
Qed.

Lemma step_preserves (P : State -> Prop) :
  (forall s a, P s -> P (set_owner s a)) ->
  (forall s a b, P s -> P (set_updater s a b)) ->
  (forall s r now, store_invariants now r -> P s -> P (writeRelay r s)) ->
  forall e c s, P s -> P (step e c s).
Proof.
  intros H1 H2 H3 e c s HP. unfold step.
  destruct (exec e c s) as [s' |] eqn:Hexec; [| exact HP].
  eapply exec_preserves; eassumption.
Qed.

Lemma relayAt_unset (s : State) (fp : string) :
  store_consistent s ->
  blen (fingerprint (relayAt s fp)) = 0 <-> relaysByFingerprint s !! fp = None.
Proof.
  intros (_ & _ & _ & Hkey). unfold relayAt.
  destruct (relaysByFingerprint s !! fp) as [r |] eqn:Hl; simpl.
  - destruct (Hkey fp r Hl) as [-> H40]. split; [lia | discriminate].
  - split; reflexivity.
Qed.

Lemma writeRelay_consistent (s : State) (r : RelayData) (now : Z) :
  store_invariants now r -> store_consistent s -> store_consistent (writeRelay r s).
Proof.
  intros (H40 & _) Hc.
  assert (Hunset := relayAt_unset s (fingerprint r) Hc).
  destruct Hc as (Hnd & Hsize & Hmem & Hkey).
  assert (Hkey' : forall fp r0,
    <[fingerprint r := r]> (relaysByFingerprint s) !! fp = Some r0 ->
    fingerprint r0 = fp /\ blen fp = 40).
  { intros fp r0. rewrite lookup_insert. case_decide as Heq.
    - intros [= <-]. subst fp. split; [reflexivity | assumption].
    - apply Hkey. }
  unfold writeRelay.
  destruct (Z.eqb_spec (blen (fingerprint (relayAt s (fingerprint r)))) 0) as [Hz | Hnz].
  - apply Hunset in Hz.
    assert (Hnotin : fingerprint r ∉ fingerprintList s).
    { rewrite Hmem, Hz. intros [x Hx]. discriminate. }
    unfold store_consistent, set_relay, push_fingerprint. simpl.
    split; [| split; [| split]].
    + apply NoDup_app. split; [assumption |]. split.
      * intros x Hx Hx'. apply list_elem_of_singleton in Hx'. subst x. contradiction.
      * apply NoDup_singleton.
    + rewrite length_app, map_size_insert_None by assumption. simpl. lia.
    + intros fp. rewrite elem_of_app, list_elem_of_singleton, lookup_insert, Hmem.
      case_decide as Heq; split.
      * intros _. eexists. reflexivity.
      * intros _. right. congruence.
      * intros [H | H]; [exact H | congruence].
      * intros H. left. exact H.
    + exact Hkey'.
  - assert (Hsome : is_Some (relaysByFingerprint s !! fingerprint r)).
    { destruct (relaysByFingerprint s !! fingerprint r) eqn:Hl; [eexists; reflexivity |].
      exfalso. apply Hnz, Hunset. reflexivity. }
    unfold store_consistent, set_relay. simpl.
    split; [assumption |]. split; [| split].
    + rewrite map_size_insert_Some by exact Hsome. exact Hsize.
    + intros fp. rewrite lookup_insert, Hmem.
      case_decide as Heq; [| reflexivity].
      subst fp. split; intros _; [eexists; reflexivity | exact Hsome].
    + exact Hkey'.
Qed.

Lemma constructor_consistent (e : Env) : store_consistent (constructor e).
Proof.
  unfold store_consistent, constructor. simpl.
  split; [apply NoDup_nil_2 |]. split; [rewrite map_size_empty; reflexivity |].
  split.
  - intros fp. rewrite lookup_empty. split.
    + intros H. inversion H.
    + intros [x Hx]. discriminate.
  - intros fp r. rewrite lookup_empty. discriminate.
Qed.

Lemma reachable_consistent (s : State) : reachable s -> store_consistent s.
Proof.
  induction 1 as [e | e c s Hr IH].
  - apply constructor_consistent.
  - apply (step_preserves store_consistent); try assumption.
    + intros s0 a H. exact H.
    + intros s0 a b H. exact H.
    + intros s0 r now. apply writeRelay_consistent.
Qed.

Lemma relayExists_stored (s : State) (fp : string) :
  store_consistent s ->
  relayExists fp s = true <-> is_Some (relaysByFingerprint s !! fp).
Proof.
  intros Hc. assert (Hunset := relayAt_unset s fp Hc).
  unfold relayExists. rewrite Z.gtb_lt.
  assert (Hnn := blen_nonneg (fingerprint (relayAt s fp))).
  destruct (relaysByFingerprint s !! fp) eqn:Hl; split.
  - intros _. eexists. reflexivity.
  - intros _. destruct (decide (blen (fingerprint (relayAt s fp)) = 0)) as [Hz |]; [| lia].
    apply Hunset in Hz. discriminate.
  - intros H. exfalso. assert (blen (fingerprint (relayAt s fp)) = 0) by (apply Hunset; reflexivity). lia.
  - intros [x Hx]. discriminate.
Qed.

Lemma extends_refl (s : State) : extends s s.
Proof. split; [reflexivity | auto]. Qed.

Lemma writeRelay_extends (s0 s : State) (r : RelayData) (now : Z) :
  store_invariants now r -> extends s0 s -> extends s0 (writeRelay r s).
Proof.
  intros (H40 & _) [Hpre Hex]. split.
  - etransitivity; [exact Hpre |]. unfold writeRelay.
    destruct (blen (fingerprint (relayAt s (fingerprint r))) =? 0); simpl.
    + apply prefix_app_r. reflexivity.
    + reflexivity.
  - intros fp Hfp. unfold relayExists.
    destruct (decide (fp = fingerprint r)) as [-> | Hne].
    + rewrite relayAt_writeRelay. apply Z.gtb_lt. lia.
    + rewrite relayAt_writeRelay_ne by assumption. apply Hex, Hfp.
Qed.

Lemma step_extends (e : Env) (c : Call) (s : State) : extends s (step e c s).
Proof.
  apply (step_preserves (extends s)).
  - intros s1 a H. exact H.
  - intros s1 a b H. exact H.
  - intros s1 r now. apply writeRelay_extends.
  - apply extends_refl.
Qed.

Lemma consistent_index_membership (s : State) :
  store_consistent s ->
  NoDup (fingerprintList s) /\
  (forall fp, fp ∈ fingerprintList s <-> relayExists fp s = true).
Proof.
  intros Hc. assert (Hex := fun fp => relayExists_stored s fp Hc).
  destruct Hc as (Hnd & _ & Hmem & _).
  split; [exact Hnd |]. intros fp. rewrite Hex. apply Hmem.
Qed.

(** C4. In every storage reachable from deployment by any sequence of
    calls, the fingerprint index has no duplicates, its length is the
    number of keys holding a record, and a fingerprint is in the index
    exactly when [relayExists] holds for it, exactly when the mapping
    holds a record for it.  Across any further call the index only grows
    at its end, the count does not decrease, and an existing relay keeps
    existing. *)
Theorem index_append_only_no_duplicates (s : State) :
  reachable s ->
  NoDup (fingerprintList s) /\
  getRelayCount s = Z.of_nat (size (relaysByFingerprint s)) /\
  (forall fp, fp ∈ fingerprintList s <-> relayExists fp s = true) /\
  (forall fp, is_Some (relaysByFingerprint s !! fp) <-> relayExists fp s = true) /\
  (forall e c,
     fingerprintList s `prefix_of` fingerprintList (step e c s) /\
     getRelayCount s <= getRelayCount (step e c s) /\
     (forall fp, relayExists fp s = true -> relayExists fp (step e c s) = true)).
Proof.
  intros Hr. assert (Hc := reachable_consistent s Hr).
  assert (Hex := fun fp => relayExists_stored s fp Hc).
  destruct Hc as (Hnd & Hsize & Hmem & Hkey).
  split; [exact Hnd |]. split; [unfold getRelayCount; rewrite Hsize; reflexivity |].
  split; [intros fp; rewrite Hex; apply Hmem |].
  split; [intros fp; symmetry; apply Hex |].
  intros e c. destruct (step_extends e c s) as [Hpre Hkeep].
  split; [exact Hpre |]. split; [| exact Hkeep].
  unfold getRelayCount. apply prefix_length in Hpre. lia.
Qed.

(** The ten-record store receives a batch that names a new fingerprint
    twice, a stored fingerprint once and another new one: the index grows
    from 10 to 12 entries, stays duplicate-free and keeps its first ten
    entries, and the stored record still exists. *)
Lemma index_append_only_no_duplicates_witness :
  NoDup (fingerprintList grownStore) /\
  getRelayCount grownStore = Z.of_nat (size (relaysByFingerprint grownStore)) /\
  getRelayCount tenRelayStore = 10 /\
  getRelayCount grownStore = 12 /\
  fingerprintList tenRelayStore `prefix_of` fingerprintList grownStore /\
  relayExists (repeatChar "0" 40) grownStore = true.
Proof.
  assert (Hten : reachable tenRelayStore).
  { unfold tenRelayStore. apply reachable_step, reachable_deploy. }
  assert (Hgrown : reachable grownStore).
  { unfold grownStore. apply reachable_step, Hten. }
  destruct (index_append_only_no_duplicates grownStore Hgrown)
    as (Hnd & Hcount & _).
  destruct (index_append_only_no_duplicates tenRelayStore Hten)
    as (_ & _ & _ & _ & Hstep).
  destruct (Hstep (laterBy 1) (CallBatchUpdateRelays repeatedBatch))
    as (Hpre & _ & Hkeep).
  split; [exact Hnd |]. split; [exact Hcount |].
  split; [vm_compute; reflexivity |]. split; [vm_compute; reflexivity |].
  split; [exact Hpre |].
  apply Hkeep. vm_compute. reflexivity.
Defined.

(** ** C5: idempotence and full replacement *)

Lemma authorized_writeRelay (e : Env) (r : RelayData) (s : State) :
  authorized e s -> authorized e (writeRelay r s).
Proof.
  unfold authorized, writeRelay, isUpdater.
  destruct (blen (fingerprint (relayAt s (fingerprint r))) =? 0); simpl; auto.
Qed.

Lemma relayExists_writeRelay (r : RelayData) (s : State) :
  blen (fingerprint r) = 40 -> relayExists (fingerprint r) (writeRelay r s) = true.
Proof.
  intros H. unfold relayExists. rewrite relayAt_writeRelay. apply Z.gtb_lt. lia.
Qed.

(** Writing over an existing key leaves the index alone and replaces the
    value. *)
Lemma writeRelay_existing (r : RelayData) (s : State) :
  relayExists (fingerprint r) s = true ->
  writeRelay r s = set_relay s (fingerprint r) r.
Proof.
  unfold relayExists, writeRelay. intros H. apply Z.gtb_lt in H.
  destruct (Z.eqb_spec (blen (fingerprint (relayAt s (fingerprint r)))) 0); [lia |].
  reflexivity.
Qed.

(** Writing a new key appends it to the index. *)
Lemma writeRelay_fresh (r : RelayData) (s : State) :
  relayExists (fingerprint r) s = false ->
  writeRelay r s = set_relay (push_fingerprint s (fingerprint r)) (fingerprint r) r.
Proof.
  unfold relayExists, writeRelay. intros H.
  assert (Hnn := blen_nonneg (fingerprint (relayAt s (fingerprint r)))).
  destruct (Z.gtb_spec (blen (fingerprint (relayAt s (fingerprint r)))) 0);
    [discriminate |].
  destruct (Z.eqb_spec (blen (fingerprint (relayAt s (fingerprint r)))) 0); [| lia].
  reflexivity.
Qed.

Lemma writeRelay_twice (r r' : RelayData) (s : State) :
  blen (fingerprint r) = 40 -> fingerprint r' = fingerprint r ->
  writeRelay r' (writeRelay r s) = set_relay (writeRelay r s) (fingerprint r) r'.
Proof.
  intros H40 Hfp. rewrite writeRelay_existing; rewrite Hfp; [reflexivity |].
  apply relayExists_writeRelay, H40.
Qed.

Lemma set_relay_writeRelay_same (r : RelayData) (s : State) :
  set_relay (writeRelay r s) (fingerprint r) r = writeRelay r s.
Proof.
  unfold writeRelay, set_relay. simpl. rewrite insert_insert_eq. reflexivity.
Qed.

(** C5. For a valid record [r] and authorized callers, a second
    [updateRelay] of [r] returns the very storage the first one produced:
    the count is unchanged and the stored record is identical.  A later
    write of another valid record [r'] under the same fingerprint keeps
    the count and makes [getRelay] return [r'] in every field: the value
    is replaced, not merged. *)
Theorem upsert_idempotent (e1 e2 : Env) (s : State) (r r' : RelayData) :
  authorized e1 s -> authorized e2 s ->
  store_invariants (block_timestamp e1) r ->
  store_invariants (block_timestamp e2) r ->
  store_invariants (block_timestamp e2) r' ->
  fingerprint r' = fingerprint r ->
  exists s1,
    updateRelayWith e1 r s = Ok s1 /\
    updateRelayWith e2 r s1 = Ok s1 /\
    getRelayCount (step e2 (CallUpdateRelay r) s1) = getRelayCount s1 /\
    getRelay (fingerprint r) (step e2 (CallUpdateRelay r) s1) = Ok r /\
    exists s2,
      updateRelayWith e2 r' s1 = Ok s2 /\
      getRelayCount s2 = getRelayCount s1 /\
      fingerprintList s2 = fingerprintList s1 /\
      getRelay (fingerprint r) s2 = Ok r'.
Proof.
  intros Ha1 Ha2 Hv1 Hv2 Hv' Hfp.
  assert (H40 : blen (fingerprint r) = 40) by apply Hv1.
  exists (writeRelay r s).
  assert (Ha2' := authorized_writeRelay e2 r s Ha2).
  assert (Hsecond : updateRelayWith e2 r (writeRelay r s) = Ok (writeRelay r s)).
  { rewrite updateRelay_ok by assumption.
    rewrite (writeRelay_twice r r s H40 eq_refl), set_relay_writeRelay_same.
    reflexivity. }
  assert (Hget : getRelay (fingerprint r) (writeRelay r s) = Ok r).
  { rewrite getRelay_stored by (apply relayExists_writeRelay, H40).
    rewrite relayAt_writeRelay. reflexivity. }
  split; [apply updateRelay_ok; assumption |].
  split; [exact Hsecond |].
  unfold step. simpl. rewrite Hsecond.
  split; [reflexivity |]. split; [exact Hget |].
  exists (set_relay (writeRelay r s) (fingerprint r) r').
  split.
  - rewrite updateRelay_ok by assumption.
    rewrite (writeRelay_twice r r' s H40 Hfp). reflexivity.
  - split; [reflexivity |]. split; [reflexivity |].
    assert (Hat : relayAt (set_relay (writeRelay r s) (fingerprint r) r') (fingerprint r) = r').
    { unfold relayAt, set_relay. simpl. rewrite lookup_insert_eq. reflexivity. }
    rewrite getRelay_stored; [rewrite Hat; reflexivity |].
    unfold relayExists. rewrite Hat, Hfp. apply Z.gtb_lt. lia.
Qed.

Lemma laterBy_sampleRelay_valid (who : address) (fp nick : string) :
  blen fp = 40 -> nick <> "" ->
  store_invariants (block_timestamp (laterBy who))
    (withNickname nick (withFingerprint fp sampleRelay)).
Proof.
  intros Hfp Hnick. unfold store_invariants. simpl.
  repeat split; try assumption; try reflexivity; lia.
Qed.

(** The test "Should update existing relay": the same fingerprint written
    twice, then renamed. *)
Lemma upsert_idempotent_witness :
  exists s1,
    updateRelayWith deployer sampleRelay (constructor deployer) = Ok s1 /\
    updateRelayWith (laterBy 1) sampleRelay s1 = Ok s1 /\
    exists s2,
      updateRelayWith (laterBy 1) (withNickname "UpdatedRelay" sampleRelay) s1 = Ok s2 /\
      getRelayCount s2 = getRelayCount s1 /\
      getRelay (fingerprint sampleRelay) s2 = Ok (withNickname "UpdatedRelay" sampleRelay).
Proof.
  assert (Hv2 : store_invariants (block_timestamp (laterBy 1)) sampleRelay).
  { unfold store_invariants. simpl.
    repeat split; try reflexivity; try discriminate; lia. }
  assert (Hv' : store_invariants (block_timestamp (laterBy 1))
                  (withNickname "UpdatedRelay" sampleRelay)).
  { unfold store_invariants. simpl.
    repeat split; try reflexivity; try discriminate; lia. }
  destruct (upsert_idempotent deployer (laterBy 1) (constructor deployer)
              sampleRelay (withNickname "UpdatedRelay" sampleRelay))
    as (s1 & H1 & H2 & _ & _ & s2 & H3 & H4 & _ & H5);
    [left; reflexivity | left; reflexivity | exact sampleRelay_valid
    | exact Hv2 | exact Hv' | reflexivity |].
  exists s1. split; [exact H1 |]. split; [exact H2 |].
  exists s2. split; [exact H3 |]. split; [exact H4 | exact H5].
Defined.

(** ** C10: the store checks the length of a fingerprint only *)

Lemma jsLength_ascii (x : string) : isAscii x = true -> jsLength x = blen x.
Proof.
  unfold blen. induction x as [| a x IH]; [reflexivity |].
  cbn [isAscii jsLength String.length]. intros H.
  apply andb_true_iff in H as [Ha Hx]. rewrite (IH Hx).
  unfold isAsciiChar in Ha. unfold codeUnits.
  destruct (Nat.ltb_spec (nat_of_ascii a) 128) as [Hlt |]; [| discriminate].
  destruct (Nat.leb_spec 128 (nat_of_ascii a)); [lia |].
  destruct (Nat.leb_spec 240 (nat_of_ascii a)); [lia |].
  simpl. lia.
Qed.

Lemma upperCaseAscii_blen (x : string) : blen (upperCaseAscii x) = blen x.
Proof.
  unfold blen. induction x as [| a x IH]; [reflexivity |].
  simpl. simpl in IH. lia.
Qed.

Lemma toUpperCase_ascii (unicodeUpperCase : string -> string) (x : string) :
  isAscii x = true -> toUpperCase unicodeUpperCase x = upperCaseAscii x.
Proof. intros H. unfold toUpperCase. rewrite H. reflexivity. Qed.

Lemma jsLength_empty (x : string) : jsLength x = 40 -> String.eqb x "" = false.
Proof. destruct x; [discriminate | reflexivity]. Qed.

Lemma transformRelay_fingerprint (unicodeUpperCase : string -> string)
    (dateParse : string -> option Z) (nowMs : Z)
    (relay : Onionoo.Relay) (rd : RelayData) :
  transformRelay unicodeUpperCase dateParse nowMs relay = Some rd ->
  exists fp,
    feedFingerprint relay = Some fp /\
    jsLength fp = 40 /\
    fingerprint rd = toUpperCase unicodeUpperCase fp.
Proof.
  unfold transformRelay, feedFingerprint.
  destruct (orString (Onionoo.fingerprint relay) (Onionoo.f relay)) as [fp |];
    [| discriminate].
  destruct (String.eqb fp ""); simpl; [discriminate |].
  destruct (Z.eqb_spec (jsLength fp) FINGERPRINT_LENGTH) as [H40 |]; simpl;
    [| discriminate].
  intros [= <-]. exists fp. repeat split. exact H40.
Qed.

Lemma transformRelay_accepts (unicodeUpperCase : string -> string)
    (dateParse : string -> option Z) (nowMs : Z)
    (relay : Onionoo.Relay) (fp : string) :
  feedFingerprint relay = Some fp ->
  jsLength fp = 40 ->
  exists rd,
    transformRelay unicodeUpperCase dateParse nowMs relay = Some rd /\
    fingerprint rd = toUpperCase unicodeUpperCase fp.
Proof.
  unfold transformRelay, feedFingerprint. intros -> H40.
  rewrite (jsLength_empty fp H40), H40. simpl.
  eexists. split; reflexivity.
Qed.

(** C10. The store looks at the length of a fingerprint and at nothing
    else in it: [store_invariants] asks for 40 bytes, and for any two
    valid records with different fingerprints that the store does not
    hold yet (in particular two that differ only in letter case) the two
    writes succeed, append two index entries in order, and each
    fingerprint reads back its own record with the fingerprint as it was
    given.  The upper-casing is done by [transformRelay]: it turns every
    feed entry whose fingerprint has length 40 into a record, and the
    record carries [toUpperCase] of the feed's fingerprint, for an ASCII
    fingerprint the same 40 bytes with the letters a to z in upper case;
    it makes no record of any other entry. *)
Theorem store_checks_fingerprint_length_only
    (e1 e2 : Env) (s : State) (r1 r2 : RelayData) :
  authorized e1 s -> authorized e2 s ->
  store_invariants (block_timestamp e1) r1 ->
  store_invariants (block_timestamp e2) r2 ->
  fingerprint r1 <> fingerprint r2 ->
  relayExists (fingerprint r1) s = false ->
  relayExists (fingerprint r2) s = false ->
  (exists s1 s2,
     updateRelayWith e1 r1 s = Ok s1 /\
     updateRelayWith e2 r2 s1 = Ok s2 /\
     fingerprintList s2
       = (fingerprintList s ++ [fingerprint r1; fingerprint r2])%list /\
     getRelayCount s2 = getRelayCount s + 2 /\
     getRelay (fingerprint r1) s2 = Ok r1 /\
     getRelay (fingerprint r2) s2 = Ok r2) /\
  (forall unicodeUpperCase dateParse nowMs relay fp,
     feedFingerprint relay = Some fp ->
     jsLength fp = 40 ->
     exists rd,
       transformRelay unicodeUpperCase dateParse nowMs relay = Some rd /\
       fingerprint rd = toUpperCase unicodeUpperCase fp /\
       (isAscii fp = true ->
        fingerprint rd = upperCaseAscii fp /\ blen (fingerprint rd) = 40)) /\
  (forall unicodeUpperCase dateParse nowMs relay rd,
     transformRelay unicodeUpperCase dateParse nowMs relay = Some rd ->
     exists fp,
       feedFingerprint relay = Some fp /\
       jsLength fp = 40 /\
       fingerprint rd = toUpperCase unicodeUpperCase fp).
Proof.
  intros Ha1 Ha2 Hv1 Hv2 Hne Hn1 Hn2.
  split; [| split; [| intros uc dp nowMs relay rd; apply transformRelay_fingerprint]].
  2: { intros uc dp nowMs relay fp Hfp H40.
       destruct (transformRelay_accepts uc dp nowMs relay fp Hfp H40)
         as (rd & Hrd & Hup).
       exists rd. split; [exact Hrd |]. split; [exact Hup |].
       intros Hascii. rewrite Hup, (toUpperCase_ascii uc fp Hascii).
       split; [reflexivity |].
       rewrite upperCaseAscii_blen, <- (jsLength_ascii fp Hascii). exact H40. }
  assert (H1 : blen (fingerprint r1) = 40) by apply Hv1.
  assert (H2 : blen (fingerprint r2) = 40) by apply Hv2.
  assert (Hn2' : relayExists (fingerprint r2) (writeRelay r1 s) = false).
  { unfold relayExists in *. rewrite relayAt_writeRelay_ne by congruence. exact Hn2. }
  exists (writeRelay r1 s), (writeRelay r2 (writeRelay r1 s)).
  split; [apply updateRelay_ok; assumption |].
  split; [apply updateRelay_ok; [apply authorized_writeRelay |]; assumption |].
  assert (Hlist : fingerprintList (writeRelay r2 (writeRelay r1 s))
                  = (fingerprintList s ++ [fingerprint r1; fingerprint r2])%list).
  { rewrite (writeRelay_fresh r2) by assumption.
    rewrite (writeRelay_fresh r1) by assumption.
    simpl. rewrite <- app_assoc. reflexivity. }
  split; [exact Hlist |].
  split; [unfold getRelayCount; rewrite Hlist, length_app; simpl; lia |].
  split.
  - rewrite getRelay_stored.
    + rewrite relayAt_writeRelay_ne by congruence.
      rewrite relayAt_writeRelay. reflexivity.
    + unfold relayExists. rewrite relayAt_writeRelay_ne by congruence.
      apply relayExists_writeRelay, H1.
  - rewrite getRelay_stored by (apply relayExists_writeRelay, H2).
    rewrite relayAt_writeRelay. reflexivity.
Qed.

(** The feed entry with the fingerprint a1b2... is turned into a record
    with the fingerprint A1B2...; the store, given a record under each of
    the two spellings, keeps both, each under its own key. *)
Lemma store_checks_fingerprint_length_only_witness :
  (exists rd,
     transformRelay noCaseMapping noDate 1700000000000 onePercentRelay = Some rd /\
     fingerprint rd = fingerprint sampleRelay) /\
  (exists s1 s2,
     updateRelayWith deployer hexLowerRelay (constructor deployer) = Ok s1 /\
     updateRelayWith (laterBy 1) sampleRelay s1 = Ok s2 /\
     getRelayCount s2 = 2 /\
     getRelay (fingerprint hexLowerRelay) s2 = Ok hexLowerRelay /\
     getRelay (fingerprint sampleRelay) s2 = Ok sampleRelay).
Proof.
  assert (Hv1 : store_invariants (block_timestamp deployer) hexLowerRelay).
  { unfold store_invariants. simpl.
    repeat split; try reflexivity; try discriminate; lia. }
  assert (Hv2 : store_invariants (block_timestamp (laterBy 1)) sampleRelay).
  { unfold store_invariants. simpl.
    repeat split; try reflexivity; try discriminate; lia. }
  destruct (store_checks_fingerprint_length_only deployer (laterBy 1)
              (constructor deployer) hexLowerRelay sampleRelay)
    as ((s1 & s2 & H1 & H2 & _ & H3 & H4 & H5) & Htransform & _);
    [left; reflexivity | left; reflexivity | exact Hv1 | exact Hv2
    | discriminate | reflexivity | reflexivity |].
  split.
  - destruct (Htransform noCaseMapping noDate 1700000000000 onePercentRelay
                (fingerprint hexLowerRelay) eq_refl eq_refl)
      as (rd & Hrd & _ & Hascii).
    exists rd. split; [exact Hrd |].
    destruct (Hascii eq_refl) as [Hfp _]. rewrite Hfp. reflexivity.
  - exists s1, s2. repeat split; assumption.
Defined.

(** ** C6: pagination *)

Lemma index_at_lookup (l : list string) (k : nat) (x : string) :
  l !! k = Some x -> index_at l (Z.of_nat k) = Ok x.
Proof.
  intros H. unfold index_at. assert (Hlt := lookup_lt_Some _ _ _ H).
  destruct (Z.leb_spec 0 (Z.of_nat k)); [| lia].
  destruct (Z.ltb_spec (Z.of_nat k) (Z.of_nat (length l))); [| lia].
  simpl. rewrite Nat2Z.id, H. reflexivity.
Qed.

Lemma checked_add_ok (a b : Z) :
  a + b <= MAX_UINT256 -> checked_add a b = Ok (a + b).
Proof.
  intros H. unfold checked_add.
  destruct (Z.leb_spec (a + b) MAX_UINT256); [reflexivity | lia].
Qed.

Lemma checked_add_overflow (a b : Z) :
  MAX_UINT256 < a + b -> checked_add a b = Fail (Panic 17).
Proof.
  intros H. unfold checked_add.
  destruct (Z.leb_spec (a + b) MAX_UINT256); [lia | reflexivity].
Qed.

(** The loop reads the index entries [offset + i], [offset + i + 1], ... *)
Lemma pageLoop_window (s : State) (offset : Z) (k : nat) :
  0 <= offset ->
  forall i : Z,
    0 <= i ->
    offset + i + Z.of_nat k <= Z.of_nat (length (fingerprintList s)) ->
    offset + i + Z.of_nat k <= MAX_UINT256 + 1 ->
    pageLoop s offset i k
    = Ok (map (relayAt s)
            (take k (drop (Z.to_nat (offset + i)) (fingerprintList s)))).
Proof.
  intros Hoff. induction k as [| k IH]; intros i Hi Hlen Hmax.
  - simpl. reflexivity.
  - assert (Hlt : (Z.to_nat (offset + i) < length (fingerprintList s))%nat) by lia.
    destruct (lookup_lt_is_Some_2 _ _ Hlt) as [x Hx].
    cbn [pageLoop]. rewrite checked_add_ok by lia. simpl.
    replace (offset + i) with (Z.of_nat (Z.to_nat (offset + i))) at 1 by lia.
    rewrite (index_at_lookup _ _ _ Hx). simpl.
    rewrite IH by lia. simpl.
    rewrite (drop_S _ _ _ Hx). simpl.
    replace (Z.to_nat (offset + (i + 1))) with (S (Z.to_nat (offset + i))) by lia.
    reflexivity.
Qed.

Lemma getRelaysPaginated_window (s : State) (offset limit : Z) :
  0 <= offset -> 0 <= limit ->
  offset < getRelayCount s ->
  offset + limit <= MAX_UINT256 ->
  getRelaysPaginated offset limit s
  = Ok (map (relayAt s)
          (take (Z.to_nat limit) (drop (Z.to_nat offset) (fingerprintList s)))).
Proof.
  intros Hoff Hlim Hlt Hmax. unfold getRelaysPaginated.
  destruct (Z.ltb_spec offset (getRelayCount s)); [| lia]. simpl.
  rewrite checked_add_ok by assumption. simpl.
  unfold getRelayCount in *.
  set (len := length (fingerprintList s)) in *.
  destruct (Z.gtb_spec (offset + limit) (Z.of_nat len)) as [Hgt | Hle].
  - unfold checked_sub. destruct (Z.leb_spec offset (Z.of_nat len)); [| lia]. simpl.
    rewrite pageLoop_window by (unfold len in *; lia).
    rewrite Z.add_0_r.
    rewrite !take_ge; [reflexivity | |]; rewrite length_drop; fold len; lia.
  - unfold checked_sub. destruct (Z.leb_spec offset (offset + limit)); [| lia]. simpl.
    rewrite pageLoop_window by (unfold len in *; lia).
    rewrite Z.add_0_r.
    replace (Z.to_nat (offset + limit - offset)) with (Z.to_nat limit) by lia.
    reflexivity.
Qed.

Lemma getRelaysPaginated_out_of_bounds (s : State) (offset limit : Z) :
  getRelayCount s <= offset ->
  getRelaysPaginated offset limit s = Fail offsetOutOfBounds.
Proof.
  intros H. unfold getRelaysPaginated.
  destruct (Z.ltb_spec offset (getRelayCount s)); [lia | reflexivity].
Qed.

Lemma getRelaysPaginated_overflow (s : State) (offset limit : Z) :
  offset < getRelayCount s ->
  MAX_UINT256 < offset + limit ->
  getRelaysPaginated offset limit s = Fail (Panic 17).
Proof.
  intros Hlt Hov. unfold getRelaysPaginated.
  destruct (Z.ltb_spec offset (getRelayCount s)); [| lia]. simpl.
  rewrite checked_add_overflow by assumption. reflexivity.
Qed.

(** C6 as written asks every [offset < count()] to succeed.  With two
    records stored, offset 1 and the largest [uint256] as limit make the
    checked sum [offset + limit] overflow, and the call panics. *)
Lemma page_limit_overflow_panics :
  getRelayCount twoRelayStore = 2 /\
  1 < getRelayCount twoRelayStore /\
  getRelaysPaginated 1 MAX_UINT256 twoRelayStore = Fail (Panic 17).
Proof. repeat split; vm_compute; reflexivity. Qed.

Lemma relayAt_fingerprint (s : State) (fp : string) :
  store_consistent s -> fp ∈ fingerprintList s -> fingerprint (relayAt s fp) = fp.
Proof.
  intros (_ & _ & Hmem & Hkey) Hin. apply Hmem in Hin as [r Hr].
  unfold relayAt. rewrite Hr. simpl. apply (Hkey fp r Hr).
Qed.

Lemma full_page_fingerprints (s : State) :
  store_consistent s ->
  map fingerprint (map (relayAt s) (fingerprintList s)) = fingerprintList s.
Proof.
  intros Hc. rewrite map_map.
  rewrite <- (map_id (fingerprintList s)) at 2.
  apply map_ext_in. intros fp Hin.
  apply relayAt_fingerprint; [exact Hc | apply list_elem_of_In; exact Hin].
Qed.

(** C6 (amended).  For [uint256] arguments, [getRelaysPaginated] fails
    with "Offset out of bounds" exactly when [offset >= count()].  When
    [offset < count()] and [offset + limit] fits in a [uint256], it
    succeeds and returns the records of the index positions [offset] to
    [min(offset + limit, count()) - 1], in index order.  Hence, on a
    reachable non-empty store, [page(0, count())] returns the record of
    every index entry, each stored fingerprint once, and
    [page(count() - 1, 5)] returns one record. *)
Theorem pagination_returns_index_window (s : State) (offset limit : Z) :
  0 <= offset -> 0 <= limit ->
  (getRelaysPaginated offset limit s = Fail offsetOutOfBounds
     <-> getRelayCount s <= offset) /\
  (offset < getRelayCount s -> offset + limit <= MAX_UINT256 ->
     exists rs,
       getRelaysPaginated offset limit s = Ok rs /\
       rs = map (relayAt s)
              (take (Z.to_nat limit) (drop (Z.to_nat offset) (fingerprintList s))) /\
       Z.of_nat (length rs) = Z.min (offset + limit) (getRelayCount s) - offset) /\
  (reachable s -> 0 < getRelayCount s <= MAX_UINT256 ->
     exists rs,
       getRelaysPaginated 0 (getRelayCount s) s = Ok rs /\
       rs = map (relayAt s) (fingerprintList s) /\
       map fingerprint rs = fingerprintList s /\
       NoDup (map fingerprint rs) /\
       (forall fp, relayExists fp s = true <-> fp ∈ map fingerprint rs)) /\
  (0 < getRelayCount s -> getRelayCount s + 4 <= MAX_UINT256 ->
     exists r, getRelaysPaginated (getRelayCount s - 1) 5 s = Ok [r]).
Proof.
  intros Hoff Hlim. split; [| split; [| split]].
  - split.
    + intros Hfail.
      destruct (Z.le_gt_cases (getRelayCount s) offset) as [Hle | Hlt]; [exact Hle |].
      exfalso.
      destruct (Z.le_gt_cases (offset + limit) MAX_UINT256) as [Hfit | Hov].
      * rewrite getRelaysPaginated_window in Hfail by assumption. discriminate.
      * rewrite getRelaysPaginated_overflow in Hfail by assumption. discriminate.
    + apply getRelaysPaginated_out_of_bounds.
  - intros Hlt Hfit. eexists. split; [apply getRelaysPaginated_window; assumption |].
    split; [reflexivity |].
    rewrite length_map, length_take, length_drop. unfold getRelayCount in *. lia.
  - intros Hr [Hpos Hmax].
    assert (Hc := reachable_consistent s Hr).
    exists (map (relayAt s) (fingerprintList s)).
    assert (Hfp := full_page_fingerprints s Hc).
    split.
    + rewrite getRelaysPaginated_window by lia.
      unfold getRelayCount. rewrite Nat2Z.id.
      change (Z.to_nat 0) with 0%nat. rewrite drop_0.
      rewrite take_ge by reflexivity. reflexivity.
    + split; [reflexivity |]. split; [exact Hfp |]. rewrite Hfp.
      destruct (consistent_index_membership s Hc) as [Hnd Hmem].
      split; [exact Hnd |]. intros fp. symmetry. apply Hmem.
  - intros Hpos Hmax. unfold getRelayCount in *.
    set (l := fingerprintList s) in *.
    assert (Hlt : (length l - 1 < length l)%nat) by lia.
    destruct (lookup_lt_is_Some_2 _ _ Hlt) as [x Hx].
    exists (relayAt s x).
    rewrite getRelaysPaginated_window by (unfold getRelayCount; fold l; lia).
    fold l. replace (Z.to_nat (Z.of_nat (length l) - 1)) with (length l - 1)%nat by lia.
    rewrite (drop_S _ _ _ Hx).
    replace (S (length l - 1)) with (length l) by lia.
    rewrite drop_all. reflexivity.
Qed.

Lemma pagination_returns_index_window_witness :
  (getRelaysPaginated 2 1 twoRelayStore = Fail offsetOutOfBounds) /\
  (exists rs, getRelaysPaginated 1 5 twoRelayStore = Ok rs /\
              Z.of_nat (length rs) = 1) /\
  (exists rs, getRelaysPaginated 0 2 twoRelayStore = Ok rs /\
              map fingerprint rs = fingerprintList twoRelayStore).
Proof.
  assert (Hr : reachable twoRelayStore).
  { unfold twoRelayStore. apply reachable_step, reachable_deploy. }
  split; [| split].
  - destruct (pagination_returns_index_window twoRelayStore 2 1) as (H & _);
      [lia | lia |].
    apply H. vm_compute. discriminate.
  - destruct (pagination_returns_index_window twoRelayStore 1 5) as (_ & H & _);
      [lia | lia |].
    destruct H as (rs & Hok & _ & Hlen);
      [vm_compute; reflexivity | vm_compute; discriminate |].
    exists rs. split; [exact Hok | exact Hlen].
  - destruct (pagination_returns_index_window twoRelayStore 0 2) as (_ & _ & H & _);
      [lia | lia |].
    destruct H as (rs & Hok & _ & Hfp & _);
      [exact Hr | split; vm_compute; [reflexivity | discriminate] |].
    exists rs. split; [exact Hok | exact Hfp].
Defined.

(** ** C7: retries *)

(** C7 as written has the pipeline retry a throttled chunk.  Here the
    channel throttles the first two submissions and would execute the
    third; [updateContract] submits the chunk once, records it as failed
    and stops: one submission, no wait, nothing written. *)
Lemma throttled_chunk_is_not_resubmitted :
  updateContract throttledTwice 1 false 3000 [sampleRelay] 10 (constructor deployer)
  = inr (mkRun (constructor deployer) 1 []
           [mkUpdateResult false 0 (Some "rate limit exceeded")]).
Proof. vm_compute. reflexivity. Qed.

(** Three runs of one chunk.  A record with a negative uptime cannot be
    encoded: the chunk is recorded as failed and no submission is made.  A
    record whose lastSeen is beyond the range of Date is refused by the
    contract, and the [catch] block throws while printing it:
    [updateContract] ends with the RangeError.  A chunk that is executed
    while its confirmation is lost is recorded as failed and is in the
    store all the same. *)
Example one_chunk_runs :
  updateContract alwaysMined 1 false 3000 [negativeUptimeRecord] 10
    (constructor deployer)
  = inr (mkRun (constructor deployer) 0 []
           [mkUpdateResult false 0 (Some encodingError)]) /\
  updateContract alwaysMined 1 false 3000 [farFutureRelay] 10 (constructor deployer)
  = inl invalidTimeValue /\
  updateContract lostConfirmation 1 false 3000 [sampleRelay] 10 (constructor deployer)
  = inr (mkRun (writeRelay sampleRelay (constructor deployer)) 1 []
           [mkUpdateResult false 0 (Some "timeout exceeded")]).
Proof. repeat split; vm_compute; reflexivity. Qed.

Section PipelineFacts.

Variable channel : nat -> Attempt.
Variable signer : address.
Variable batchDelay : Z.

(** A submission leaves the waits and the results alone and consults the
    channel at most once. *)
Lemma submitBatch_frame (batch : list RelayData) (run : Run) :
  slept (submitBatch channel signer batch run).1 = slept run /\
  results (submitBatch channel signer batch run).1 = results run /\
  (submissions run <= submissions (submitBatch channel signer batch run).1
   <= S (submissions run))%nat /\
  (forallb abiEncodable batch = true ->
   submissions (submitBatch channel signer batch run).1 = S (submissions run)).
Proof.
  unfold submitBatch. destruct (forallb abiEncodable batch); simpl.
  - destruct (channel (submissions run)) as [message | ts | ts message];
      [| destruct (batchUpdateRelays (mkEnv signer ts) batch (store run))
       | destruct (batchUpdateRelays (mkEnv signer ts) batch (store run))];
      simpl; repeat split; lia.
  - repeat split; try lia; discriminate.
Qed.

(** What a submission throws, by what the channel does with it. *)
Lemma submitBatch_outcome (batch : list RelayData) (run : Run) :
  (forallb abiEncodable batch = false ->
   submitBatch channel signer batch run = (run, Some encodingError)) /\
  (forallb abiEncodable batch = true ->
   match channel (submissions run) with
   | ChannelError message =>
       (submitBatch channel signer batch run).2 = Some message /\
       store (submitBatch channel signer batch run).1 = store run
   | Mined ts =>
       match batchUpdateRelays (mkEnv signer ts) batch (store run) with
       | Ok st' =>
           (submitBatch channel signer batch run).2 = None /\
           store (submitBatch channel signer batch run).1 = st'
       | Fail fl =>
           (submitBatch channel signer batch run).2 = Some (failureMessage fl) /\
           store (submitBatch channel signer batch run).1 = store run
       end
   | MinedUnconfirmed ts message =>
       match batchUpdateRelays (mkEnv signer ts) batch (store run) with
       | Ok st' =>
           (submitBatch channel signer batch run).2 = Some message /\
           store (submitBatch channel signer batch run).1 = st'
       | Fail fl =>
           (submitBatch channel signer batch run).2 = Some (failureMessage fl) /\
           store (submitBatch channel signer batch run).1 = store run
       end
   end).
Proof.
  unfold submitBatch. split; intros ->; simpl; [reflexivity |].
  destruct (channel (submissions run)) as [message | ts | ts message];
    [| destruct (batchUpdateRelays (mkEnv signer ts) batch (store run))
     | destruct (batchUpdateRelays (mkEnv signer ts) batch (store run))];
    split; reflexivity.
Qed.

(** One iteration of the loop that does not leave it: the chunk is
    submitted once, its result is recorded, and the wait that follows is
    the one of [chunkWait]. *)
Lemma updateLoop_step (i total : Z) (batch : list RelayData)
    (rest : list (list RelayData)) (run : Run) :
  (submitBatch channel signer batch run).2 = None \/ printsFirstRelay batch = true ->
  updateLoop channel signer false batchDelay i total (batch :: rest) run
  = updateLoop channel signer false batchDelay (i + 1) total rest
      (mkRun (store (submitBatch channel signer batch run).1)
             (submissions (submitBatch channel signer batch run).1)
             (slept run
              ++ chunkWait batchDelay i total (submitBatch channel signer batch run).2)
             (results run
              ++ [chunkResult batch (submitBatch channel signer batch run).2])).
Proof.
  intros Hgo. cbn [updateLoop].
  destruct (submitBatch_frame batch run) as (Hsl & Hres & _).
  destruct (submitBatch channel signer batch run) as [run1 [message |]]; simpl in *.
  - destruct Hgo as [Hgo | Hgo]; [discriminate |]. rewrite Hgo. simpl.
    unfold mentionsNonce.
    destruct (includes "nonce" message || includes "replacement" message);
      unfold pushResult, sleep; simpl; rewrite Hsl, Hres, ?app_nil_r; reflexivity.
  - destruct (i <? total - 1);
      unfold pushResult, sleep; simpl; rewrite Hsl, Hres, ?app_nil_r; reflexivity.
Qed.

(** The iteration that leaves the loop: the submission has thrown and the
    first record of the chunk cannot be printed. *)
Lemma updateLoop_leaves (i total : Z) (batch : list RelayData)
    (rest : list (list RelayData)) (run : Run) (message : string) :
  (submitBatch channel signer batch run).2 = Some message ->
  printsFirstRelay batch = false ->
  updateLoop channel signer false batchDelay i total (batch :: rest) run
  = ((submitBatch channel signer batch run).1, Some invalidTimeValue).
Proof.
  intros Hthrown Hprint. cbn [updateLoop].
  destruct (submitBatch channel signer batch run) as [run1 thrown]. simpl in *.
  subst thrown. rewrite Hprint. reflexivity.
Qed.

(** The whole loop, when the first record of every chunk can be printed. *)
Lemma updateLoop_trace (batches : list (list RelayData)) :
  forall (i total : Z) (run : Run),
    Forall (fun batch => printsFirstRelay batch = true) batches ->
    exists final thrown,
      updateLoop channel signer false batchDelay i total batches run = (final, None) /\
      length thrown = length batches /\
      (forall j batch, batches !! j = Some batch ->
         thrown !! j
         = Some (submitBatch channel signer batch
                   (updateLoop channel signer false batchDelay i total
                      (take j batches) run).1).2) /\
      results final = (results run ++ zip_with chunkResult batches thrown)%list /\
      slept final = (slept run ++ chunkWaits batchDelay i total thrown)%list /\
      (submissions run <= submissions final <= submissions run + length batches)%nat /\
      (Forall (fun batch => forallb abiEncodable batch = true) batches ->
       submissions final = (submissions run + length batches)%nat).
Proof.
  induction batches as [| batch rest IH]; intros i total run Hprint.
  - exists run, []. simpl. rewrite !app_nil_r.
    repeat split; try lia. intros j b Hj. discriminate Hj.
  - apply Forall_cons in Hprint as [Hp Hprint].
    assert (Hstep := fun tl => updateLoop_step i total batch tl run (or_intror Hp)).
    destruct (submitBatch_frame batch run) as (_ & _ & Hsub & Hsubeq).
    set (thrown0 := (submitBatch channel signer batch run).2) in *.
    set (run1 := mkRun (store (submitBatch channel signer batch run).1)
                   (submissions (submitBatch channel signer batch run).1)
                   (slept run ++ chunkWait batchDelay i total thrown0)
                   (results run ++ [chunkResult batch thrown0])) in *.
    destruct (IH (i + 1) total run1 Hprint)
      as (final & thrown & Heq & Hlen & Hthrown & Hres & Hsl & Hcount & Hcounteq).
    exists final, (thrown0 :: thrown).
    split; [rewrite Hstep; exact Heq |].
    split; [simpl; rewrite Hlen; reflexivity |].
    split; [| split; [| split; [| split]]].
    + intros j b Hj. destruct j as [| j].
      * simpl in Hj. injection Hj as <-. reflexivity.
      * simpl in Hj. cbn [take lookup]. rewrite Hstep.
        apply (Hthrown j b Hj).
    + rewrite Hres. subst run1. simpl. rewrite <- app_assoc. reflexivity.
    + rewrite Hsl. subst run1. simpl. rewrite <- app_assoc. reflexivity.
    + subst run1. simpl in *. lia.
    + intros Henc. apply Forall_cons in Henc as [He Henc].
      rewrite (Hcounteq Henc). subst run1. simpl. rewrite (Hsubeq He). lia.
Qed.

End PipelineFacts.

Section ReaderFacts.

Variable rpc : nat -> ReadAttempt.
Variable st : State.

Lemma retryLoop_rate_limited (fuel : nat) (offset limit retries : Z)
    (rd : Reader) (message : string) :
  retries < 5 ->
  rpc (reads rd) = ReadError message ->
  isRateLimit message = true ->
  retryLoop rpc st (S fuel) offset limit retries rd
  = retryLoop rpc st fuel offset limit (retries + 1)
      (mkReader (S (reads rd)) (waited rd ++ [2 ^ (retries + 1) * 1000])
                (allRelays rd)).
Proof.
  intros Hlt Hrpc Hrate. cbn [retryLoop]. unfold readContract.
  destruct (Z.ltb_spec retries 5); [| lia].
  rewrite Hrpc. unfold isRateLimit in Hrate. rewrite Hrate. reflexivity.
Qed.

Lemma retryLoop_served (fuel : nat) (offset limit retries : Z)
    (rd : Reader) (batchData : list RelayData) :
  retries < 5 ->
  rpc (reads rd) = ReadServed ->
  getRelaysPaginated offset limit st = Ok batchData ->
  retryLoop rpc st (S fuel) offset limit retries rd
  = (mkReader (S (reads rd)) (waited rd) (allRelays rd), retries, Fetched batchData).
Proof.
  intros Hlt Hrpc Hpage. cbn [retryLoop]. unfold readContract.
  destruct (Z.ltb_spec retries 5); [| lia].
  rewrite Hrpc, Hpage. reflexivity.
Qed.

Lemma retryLoop_reads_bounded (fuel : nat) (offset limit : Z) :
  forall (retries : Z) (rd : Reader),
    0 <= retries ->
    (reads (retryLoop rpc st fuel offset limit retries rd).1.1
     <= reads rd + Z.to_nat (5 - retries))%nat.
Proof.
  induction fuel as [| fuel IH]; intros retries rd Hnn; cbn [retryLoop].
  - destruct (retries <? 5); simpl; lia.
  - destruct (Z.ltb_spec retries 5) as [Hlt | Hge]; [| simpl; lia].
    assert (Hfailed : forall message,
      Nat.le
        (reads
           (if includes "rate limit" message || includes "429" message
            then retryLoop rpc st fuel offset limit (retries + 1)
                   (mkReader (S (reads rd)) (waited rd ++ [2 ^ (retries + 1) * 1000])
                             (allRelays rd))
            else (mkReader (S (reads rd)) (waited rd) (allRelays rd),
                  retries + 1, Thrown message)).1.1)
        (reads rd + Z.to_nat (5 - retries))%nat).
    { intros message.
      destruct (includes "rate limit" message || includes "429" message).
      - etransitivity; [apply IH; lia |]. simpl. lia.
      - simpl. lia. }
    destruct (readContract rpc st offset limit (reads rd)) as [[data | fl] | message].
    + simpl. lia.
    + apply Hfailed.
    + apply Hfailed.
Qed.

End ReaderFacts.

(** C7 (amended).  The pipeline does not retry.  When the first record
    of every chunk can be printed by the [catch] block, the loop of
    [updateContract] runs to its end, makes one submission per chunk (none
    for a chunk that ethers cannot encode) and records one result per
    chunk: successful if the submission was confirmed, failed with no
    relay updated and the error's message if it threw, whatever made it
    throw (the encoding, the channel, a revert, a lost confirmation).  The
    waits of the run are, in order, the inter-chunk delay after every
    successful chunk but the last and 3000 ms after every failed chunk
    whose message mentions a nonce or a replacement.  A failed chunk whose
    first record cannot be printed ends [updateContract] with a
    RangeError.  The exponential backoff is in the reader: a rate-limited
    read of a page is followed by a wait of [2 ^ retries * 1000] ms and
    another read, at most five reads per page; a page that is
    rate-limited twice and served on the third read is fetched with three
    reads, after waits of 2000 and 4000 ms. *)
Theorem pipeline_submits_once_reader_backs_off
    (channel : nat -> Attempt) (signer : address) (batchDelay : Z)
    (batches : list (list RelayData)) (i total : Z) (run : Run)
    (rpc : nat -> ReadAttempt) (st : State) (offset limit : Z) (rd : Reader)
    (m1 m2 : string) (batchData : list RelayData) :
  Forall (fun batch => printsFirstRelay batch = true) batches ->
  rpc (reads rd) = ReadError m1 ->
  rpc (S (reads rd)) = ReadError m2 ->
  rpc (S (S (reads rd))) = ReadServed ->
  isRateLimit m1 = true ->
  isRateLimit m2 = true ->
  getRelaysPaginated offset limit st = Ok batchData ->
  (exists final thrown,
     updateLoop channel signer false batchDelay i total batches run = (final, None) /\
     length thrown = length batches /\
     (forall j batch, batches !! j = Some batch ->
        thrown !! j
        = Some (submitBatch channel signer batch
                  (updateLoop channel signer false batchDelay i total
                     (take j batches) run).1).2) /\
     results final = (results run ++ zip_with chunkResult batches thrown)%list /\
     slept final = (slept run ++ chunkWaits batchDelay i total thrown)%list /\
     (submissions run <= submissions final <= submissions run + length batches)%nat /\
     (Forall (fun batch => forallb abiEncodable batch = true) batches ->
      submissions final = (submissions run + length batches)%nat)) /\
  (forall batch run0,
     (submissions run0 <= submissions (submitBatch channel signer batch run0).1
      <= S (submissions run0))%nat /\
     (forallb abiEncodable batch = false ->
      submitBatch channel signer batch run0 = (run0, Some encodingError)) /\
     (forallb abiEncodable batch = true ->
      match channel (submissions run0) with
      | ChannelError message =>
          (submitBatch channel signer batch run0).2 = Some message /\
          store (submitBatch channel signer batch run0).1 = store run0
      | Mined ts =>
          match batchUpdateRelays (mkEnv signer ts) batch (store run0) with
          | Ok st' =>
              (submitBatch channel signer batch run0).2 = None /\
              store (submitBatch channel signer batch run0).1 = st'
          | Fail fl =>
              (submitBatch channel signer batch run0).2 = Some (failureMessage fl) /\
              store (submitBatch channel signer batch run0).1 = store run0
          end
      | MinedUnconfirmed ts message =>
          match batchUpdateRelays (mkEnv signer ts) batch (store run0) with
          | Ok st' =>
              (submitBatch channel signer batch run0).2 = Some message /\
              store (submitBatch channel signer batch run0).1 = st'
          | Fail fl =>
              (submitBatch channel signer batch run0).2 = Some (failureMessage fl) /\
              store (submitBatch channel signer batch run0).1 = store run0
          end
      end)) /\
  (forall batch rest run0 message,
     (submitBatch channel signer batch run0).2 = Some message ->
     printsFirstRelay batch = false ->
     updateLoop channel signer false batchDelay i total (batch :: rest) run0
     = ((submitBatch channel signer batch run0).1, Some invalidTimeValue)) /\
  (retryLoop rpc st 5 offset limit 0 rd
   = (mkReader (S (S (S (reads rd)))) (waited rd ++ [2000; 4000]) (allRelays rd),
      2, Fetched batchData)) /\
  (forall fuel retries rd' message,
     0 <= retries < 5 ->
     rpc (reads rd') = ReadError message ->
     isRateLimit message = true ->
     retryLoop rpc st (S fuel) offset limit retries rd'
     = retryLoop rpc st fuel offset limit (retries + 1)
         (mkReader (S (reads rd')) (waited rd' ++ [2 ^ (retries + 1) * 1000])
                   (allRelays rd'))) /\
  (forall rd', (reads (retryLoop rpc st 5 offset limit 0 rd').1.1 <= reads rd' + 5)%nat).
Proof.
  intros Hprint H1 H2 H3 Hm1 Hm2 Hpage.
  split; [| split; [| split; [| split; [| split]]]].
  - apply updateLoop_trace, Hprint.
  - intros batch run0.
    destruct (submitBatch_frame channel signer batch run0) as (_ & _ & Hsub & _).
    destruct (submitBatch_outcome channel signer batch run0) as (Hno & Hyes).
    split; [exact Hsub |]. split; [exact Hno | exact Hyes].
  - intros batch rest run0 message. apply updateLoop_leaves.
  - rewrite (retryLoop_rate_limited rpc st 4 offset limit 0 rd m1) by (lia || assumption).
    rewrite (retryLoop_rate_limited rpc st 3 offset limit (0 + 1) _ m2)
      by (lia || assumption).
    rewrite (retryLoop_served rpc st 2 offset limit (0 + 1 + 1) _ batchData)
      by (lia || assumption).
    simpl. rewrite <- app_assoc. reflexivity.
  - intros fuel retries rd' message [_ Hlt] Hrpc Hrate.
    apply (retryLoop_rate_limited rpc st fuel offset limit retries rd' message);
      assumption.
  - intros rd'. apply (retryLoop_reads_bounded rpc st 5 offset limit 0 rd'). lia.
Qed.

(** Ten relays in chunks of four through a channel that answers the first
    submission with a nonce conflict: the first chunk is recorded as
    failed and followed by the 3000 ms wait, the second is written and
    followed by the inter-chunk delay, the third is written; three
    submissions, six records in the store. *)
Lemma pipeline_submits_once_reader_backs_off_witness :
  (exists final,
     updateLoop nonceConflictOnce 1 false 2500 0 3 (batchRelays tenRelays 4)
       (mkRun (constructor deployer) 0 [] []) = (final, None) /\
     results final
     = [mkUpdateResult false 0 (Some "nonce too low");
        mkUpdateResult true 4 None; mkUpdateResult true 2 None] /\
     slept final = [3000; 2500] /\
     submissions final = 3%nat /\
     getRelayCount (store final) = 6) /\
  retryLoop rateLimitedTwice twoRelayStore 5 0 2 0 (mkReader 0 [] [])
  = (mkReader 3 [2000; 4000] [], 2,
     Fetched (map (relayAt twoRelayStore) (fingerprintList twoRelayStore))).
Proof.
  assert (Hprint : Forall (fun batch => printsFirstRelay batch = true)
                     (batchRelays tenRelays 4)).
  { let chunks := eval vm_compute in (batchRelays tenRelays 4) in
    change (batchRelays tenRelays 4) with chunks.
    repeat (constructor; [reflexivity |]). constructor. }
  destruct (pipeline_submits_once_reader_backs_off nonceConflictOnce 1 2500
              (batchRelays tenRelays 4) 0 3 (mkRun (constructor deployer) 0 [] [])
              rateLimitedTwice twoRelayStore 0 2 (mkReader 0 [] [])
              "HTTP 429" "HTTP 429"
              (map (relayAt twoRelayStore) (fingerprintList twoRelayStore)) Hprint)
    as ((final & thrown & Heq & _) & _ & _ & Hretry & _);
    try reflexivity.
  split; [| exact Hretry].
  exists final. split; [exact Heq |].
  assert (Hrun := Heq). vm_compute in Hrun. injection Hrun as <-.
  repeat split; vm_compute; reflexivity.
Defined.

(** ** C8: the transformer's filter *)


(** The filter has no test of the country code: a transformed record with
    three letters passes it and is refused by the store. *)
Remark filter_passes_long_country :
  transformRelay noCaseMapping noDate 1700000000000 longCountryEntry
  = Some longCountryRecord /\
  validateRelayData longCountryRecord = true /\
  updateRelayWith (laterBy 1) longCountryRecord (constructor deployer)
  = Fail (Error "Invalid country code").
Proof. repeat split; vm_compute; reflexivity. Qed.



Lemma abiEncodable_bounds (r : RelayData) :
  abiEncodable r = true ->
  0 <= uptime r /\ 0 <= bandwidth r /\ 0 <= consensusWeight r /\ 0 <= lastSeen r.
Proof.
  unfold abiEncodable, encodesAsUint. intros H.
  repeat (apply andb_true_iff in H as [H ?]). lia.
Qed.



(** ** C9: the derived uptime *)

(** The product is the rounded one: 0.00014 * 50000 is 6.999999999999999
    in binary64 and floors to 6, 0.00062 * 50000 is 31 exactly. *)
Example uptime_of_rounded_products :
  deriveUptime true (Some fourteenHundredThousandths) = 6 /\
  deriveUptime true (Some sixtyTwoHundredThousandths) = 31 /\
  deriveUptime false (Some onePercent) = 500.
Proof. repeat split; vm_compute; reflexivity. Qed.

(** C9, the code at the failing input.  The claim, like the comments of
    [transformRelay] ("0-1000", "Scale to 0-1000 range"), has the uptime
    in [0, 1000].  The clamp is [Math.min] only: a running feed entry that
    reports the fraction -1 is given the uptime -50000.  The record passes
    [validateRelayData], and ethers cannot encode it. *)
Lemma negative_fraction_gives_negative_uptime :
  transformRelay noCaseMapping noDate 1700000000000 negativeFractionRelay
  = Some negativeUptimeRecord /\
  uptime negativeUptimeRecord = -50000 /\
  validateRelayData negativeUptimeRecord = true /\
  abiEncodable negativeUptimeRecord = false.
Proof. repeat split; vm_compute; reflexivity. Qed.

Lemma transformRelay_uptime (unicodeUpperCase : string -> string)
    (dateParse : string -> option Z) (nowMs : Z)
    (relay : Onionoo.Relay) (rd : RelayData) :
  transformRelay unicodeUpperCase dateParse nowMs relay = Some rd ->
  uptime rd = deriveUptime (feedRunning relay) (Onionoo.consensus_weight_fraction relay).
Proof.
  unfold transformRelay.
  destruct (orString (Onionoo.fingerprint relay) (Onionoo.f relay)) as [fp |];
    [| discriminate].
  destruct (String.eqb fp "" || negb (jsLength fp =? FINGERPRINT_LENGTH));
    [discriminate |].
  intros [= <-]. reflexivity.
Qed.

Lemma floorDouble_nonneg (m : positive) (e : Z) :
  0 <= floorDouble (S754_finite false m e).
Proof.
  unfold floorDouble. destruct (Z.leb_spec 0 e).
  - apply Z.mul_nonneg_nonneg; [lia | apply Z.pow_nonneg; lia].
  - apply Z.div_pos; [lia | apply Z.pow_pos_nonneg; lia].
Qed.

(** The product of a number that is not negative with the multiplier is
    not negative. *)
Lemma scaleFraction_nonneg (x : spec_float) :
  isNegativeDouble x = false -> 0 <= floorDouble (scaleFraction x).
Proof.
  assert (Hm : doubleOfInteger CONSENSUS_WEIGHT_MULTIPLIER
               = S754_finite false 6871947673600000 (-37))
    by (vm_compute; reflexivity).
  unfold scaleFraction, mulDouble. rewrite Hm.
  destruct x as [s | s | | s m e]; cbn [SFmul isNegativeDouble floorDouble];
    try lia.
  intros ->. cbn [xorb]. unfold binary_round_aux.
  destruct (shr_fexp 53 1024 (Z.pos (m * 6871947673600000)) (e + -37) loc_Exact)
    as [mrs' e'].
  destruct (shr_fexp 53 1024
              (round_nearest_even (shr_m mrs') (loc_of_shr_record mrs')) e' loc_Exact)
    as [mrs'' e''].
  destruct (shr_m mrs'') as [| p | p]; cbn [floorDouble]; try lia.
  destruct (e'' <=? 1024 - 53)%Z; [apply floorDouble_nonneg | simpl; lia].
Qed.

Lemma deriveUptime_bounds (running : bool) (fraction : option Fraction) :
  deriveUptime running fraction <= 1000 /\
  (match fraction with
   | Some q => isNegativeDouble (fractionValue q) = false
   | None => True
   end -> 0 <= deriveUptime running fraction).
Proof.
  unfold deriveUptime, MAX_UPTIME, FALLBACK_RUNNING_UPTIME.
  destruct fraction as [q |].
  - split; [lia |]. intros Hq. apply scaleFraction_nonneg in Hq. lia.
  - destruct running; split; intros; lia.
Qed.

(** The rest of C9 on the code: a reported fraction gives the floor of
    its product with 50000, capped at 1000, which is not negative unless
    the fraction is; without a fraction the uptime is 900 for a running
    entry and 0 otherwise. *)
Lemma transformRelay_uptime_cases
    (unicodeUpperCase : string -> string)
    (dateParse : string -> option Z) (nowMs : Z)
    (relay : Onionoo.Relay) (rd : RelayData) :
  transformRelay unicodeUpperCase dateParse nowMs relay = Some rd ->
  match Onionoo.consensus_weight_fraction relay with
  | Some q =>
      uptime rd = Z.min 1000 (floorDouble (scaleFraction (fractionValue q))) /\
      uptime rd <= 1000 /\
      (isNegativeDouble (fractionValue q) = false -> 0 <= uptime rd <= 1000)
  | None =>
      uptime rd = if feedRunning relay then 900 else 0
  end.
Proof.
  intros H. apply transformRelay_uptime in H. rewrite H.
  destruct (deriveUptime_bounds (feedRunning relay)
              (Onionoo.consensus_weight_fraction relay)) as [Hle Hnn].
  destruct (Onionoo.consensus_weight_fraction relay) as [q |].
  - split; [reflexivity |]. split; [exact Hle |].
    intros Hq. split; [apply Hnn, Hq | exact Hle].
  - unfold deriveUptime, FALLBACK_RUNNING_UPTIME.
    destruct (feedRunning relay); reflexivity.
Qed.

(** * Further properties of the store *)

(** ** A batch is a sequence of single upserts *)

Lemma updateRelay_requires (e : Env) (r : RelayData) (s : State) :
  updateRelayWith e r s
  = (onlyAuthorized e s ;;;
     recordRequires (block_timestamp e) r ;;;
     Ok (writeRelay r s)).
Proof.
  unfold updateRelayWith, updateRelay, recordRequires, writeRelay.
  destruct (onlyAuthorized e s) as [[] | fl]; simpl; [| reflexivity].
  destruct (blen (fingerprint r) =? FINGERPRINT_LENGTH); simpl; [| reflexivity].
  destruct (uptime r <=? MAX_UPTIME); simpl; [| reflexivity].
  destruct (blen (country r) =? COUNTRY_CODE_LENGTH); simpl; [| reflexivity].
  destruct (lastSeen r <=? block_timestamp e); simpl; [| reflexivity].
  destruct (blen (nickname r) >? 0); simpl; [| reflexivity].
  destruct r; reflexivity.
Qed.

Lemma batchLoop_requires (e : Env) (r : RelayData) (rest : list RelayData)
    (s : State) :
  batchLoop e (r :: rest) s
  = (recordRequires (block_timestamp e) r ;;;
     batchLoop e rest (writeRelay r s)).
Proof.
  cbn [batchLoop]. unfold recordRequires, writeRelay.
  destruct (blen (fingerprint r) =? FINGERPRINT_LENGTH); simpl; [| reflexivity].
  destruct (uptime r <=? MAX_UPTIME); simpl; [| reflexivity].
  destruct (blen (country r) =? COUNTRY_CODE_LENGTH); simpl; [| reflexivity].
  destruct (lastSeen r <=? block_timestamp e); simpl; [| reflexivity].
  destruct (blen (nickname r) >? 0); simpl; reflexivity.
Qed.

Lemma recordRequires_ok (now : Z) (r : RelayData) :
  recordRequires now r = Ok tt <-> store_invariants now r.
Proof.
  rewrite <- recordChecks_true. unfold recordRequires, recordChecks.
  destruct (blen (fingerprint r) =? FINGERPRINT_LENGTH); simpl; [| split; discriminate].
  destruct (uptime r <=? MAX_UPTIME); simpl; [| split; discriminate].
  destruct (blen (country r) =? COUNTRY_CODE_LENGTH); simpl; [| split; discriminate].
  destruct (lastSeen r <=? now); simpl; [| split; discriminate].
  destruct (blen (nickname r) >? 0); simpl; split; congruence.
Qed.

(** X1. For an authorized caller, [batchUpdateRelays] gives exactly the
    result of calling [updateRelay] on the records one after the other in
    the same block: the same storage on success, the same error on
    failure. *)
Theorem batch_equals_sequential_updates
    (e : Env) (relays : list RelayData) (s : State) :
  authorized e s ->
  batchUpdateRelays e relays s = sequentialUpdates e relays s.
Proof.
  intros Ha. unfold batchUpdateRelays. rewrite onlyAuthorized_ok by assumption.
  simpl. revert s Ha. induction relays as [| r rest IH]; intros s Ha.
  - reflexivity.
  - rewrite batchLoop_requires. cbn [sequentialUpdates].
    rewrite updateRelay_requires, onlyAuthorized_ok by assumption. simpl.
    destruct (recordRequires (block_timestamp e) r) as [[] | fl]; simpl;
      [| reflexivity].
    apply IH, authorized_writeRelay, Ha.
Qed.

Lemma batch_equals_sequential_updates_witness :
  batchUpdateRelays (laterBy 1) mixedBatch seededStore
  = sequentialUpdates (laterBy 1) mixedBatch seededStore.
Proof.
  apply batch_equals_sequential_updates. left. reflexivity.
Defined.

Lemma batchLoop_ok_iff (e : Env) (relays : list RelayData) :
  forall s,
    batchLoop e relays s = Ok (writeAll relays s)
    <-> Forall (store_invariants (block_timestamp e)) relays.
Proof.
  induction relays as [| r rest IH]; intros s.
  - split; [intros _; constructor | reflexivity].
  - rewrite batchLoop_requires, Forall_cons.
    destruct (recordRequires (block_timestamp e) r) as [[] | fl] eqn:Hreq; simpl.
    + apply recordRequires_ok in Hreq. rewrite (IH (writeRelay r s)). tauto.
    + split; [discriminate |]. intros [Hv _].
      apply recordRequires_ok in Hv. congruence.
Qed.

Lemma batchLoop_result (e : Env) (relays : list RelayData) (s s' : State) :
  batchLoop e relays s = Ok s' -> s' = writeAll relays s.
Proof.
  revert s. induction relays as [| r rest IH]; intros s.
  - intros [= <-]. reflexivity.
  - rewrite batchLoop_requires.
    destruct (recordRequires (block_timestamp e) r) as [[] | fl]; simpl;
      [| discriminate].
    apply IH.
Qed.

Lemma batch_success_characterised
    (e : Env) (relays : list RelayData) (s : State) :
  succeeds (batchUpdateRelays e relays s) = true
  <-> authorized e s /\ Forall (store_invariants (block_timestamp e)) relays.
Proof.
  unfold batchUpdateRelays. split.
  - intros Hok. destruct (onlyAuthorized e s) as [[] | fl] eqn:Hauth;
      simpl in Hok; [| discriminate].
    assert (Ha : authorized e s).
    { unfold onlyAuthorized, require, authorized in *.
      destruct (Z.eqb_spec (msg_sender e) (owner s)); [left; assumption |].
      destruct (isUpdater s (msg_sender e)); [right; reflexivity | discriminate]. }
    split; [exact Ha |].
    destruct (batchLoop e relays s) as [s' |] eqn:Hloop; [| discriminate].
    apply batchLoop_ok_iff with (s := s).
    rewrite Hloop. f_equal. eapply batchLoop_result, Hloop.
  - intros [Ha Hall]. rewrite onlyAuthorized_ok by assumption. simpl.
    rewrite (proj2 (batchLoop_ok_iff e relays s) Hall). reflexivity.
Qed.

(** X2. [batchUpdateRelays] succeeds exactly when the caller is the owner
    or an authorized updater and every record of the batch satisfies the
    five checks at the block's time; the empty batch of an authorized
    caller succeeds and changes nothing. *)
Theorem batch_succeeds_iff_authorized_and_all_valid
    (e : Env) (relays : list RelayData) (s : State) :
  (succeeds (batchUpdateRelays e relays s) = true
   <-> authorized e s /\ Forall (store_invariants (block_timestamp e)) relays) /\
  (authorized e s -> batchUpdateRelays e [] s = Ok s).
Proof.
  split; [apply batch_success_characterised |].
  intros Ha. unfold batchUpdateRelays.
  rewrite onlyAuthorized_ok by assumption. reflexivity.
Qed.

Lemma batch_succeeds_iff_authorized_and_all_valid_witness :
  batchUpdateRelays (laterBy 1) [] seededStore = Ok seededStore.
Proof.
  apply (batch_succeeds_iff_authorized_and_all_valid (laterBy 1) [] seededStore).
  left. reflexivity.
Defined.

(** ** What a batch leaves in the storage *)

Lemma relayExists_negb (fp : string) (s : State) :
  (blen (fingerprint (relayAt s fp)) =? 0) = negb (relayExists fp s).
Proof.
  unfold relayExists. assert (H := blen_nonneg (fingerprint (relayAt s fp))).
  destruct (Z.eqb_spec (blen (fingerprint (relayAt s fp))) 0);
    destruct (Z.gtb_spec (blen (fingerprint (relayAt s fp))) 0); simpl; lia || reflexivity.
Qed.

Lemma writeRelay_fields (r : RelayData) (s : State) :
  owner (writeRelay r s) = owner s /\
  authorizedUpdaters (writeRelay r s) = authorizedUpdaters s /\
  relaysByFingerprint (writeRelay r s)
    = <[fingerprint r := r]> (relaysByFingerprint s) /\
  fingerprintList (writeRelay r s)
    = if relayExists (fingerprint r) s then fingerprintList s
      else (fingerprintList s ++ [fingerprint r])%list.
Proof.
  unfold writeRelay. rewrite relayExists_negb.
  destruct (relayExists (fingerprint r) s); simpl; repeat split.
Qed.

Lemma state_eq (s1 s2 : State) :
  owner s1 = owner s2 ->
  authorizedUpdaters s1 = authorizedUpdaters s2 ->
  relaysByFingerprint s1 = relaysByFingerprint s2 ->
  fingerprintList s1 = fingerprintList s2 ->
  s1 = s2.
Proof. destruct s1, s2. simpl. intros -> -> -> ->. reflexivity. Qed.

Lemma writeAll_snoc (relays : list RelayData) (r : RelayData) (s : State) :
  writeAll (relays ++ [r]) s = writeRelay r (writeAll relays s).
Proof. unfold writeAll. rewrite foldl_app. reflexivity. Qed.

Lemma lastWrite_snoc (fp : string) (relays : list RelayData) (r : RelayData) :
  lastWrite fp (relays ++ [r])
  = if String.eqb (fingerprint r) fp then Some r else lastWrite fp relays.
Proof. unfold lastWrite. rewrite foldl_app. reflexivity. Qed.

Lemma lastWrite_elem (fp : string) (relays : list RelayData) (r : RelayData) :
  lastWrite fp relays = Some r -> r ∈ relays /\ fingerprint r = fp.
Proof.
  induction relays as [| x rest IH] using rev_ind.
  - discriminate.
  - rewrite lastWrite_snoc.
    destruct (String.eqb_spec (fingerprint x) fp) as [Heq | Hne].
    + intros [= <-]. split; [apply elem_of_app; right; left | exact Heq].
    + intros H. destruct (IH H) as [Hin Hfp].
      split; [apply elem_of_app; left; exact Hin | exact Hfp].
Qed.

Lemma lastWrite_some (relays : list RelayData) (r : RelayData) :
  r ∈ relays -> is_Some (lastWrite (fingerprint r) relays).
Proof.
  induction relays as [| x rest IH] using rev_ind.
  - intros H. inversion H.
  - intros H. rewrite lastWrite_snoc.
    destruct (String.eqb_spec (fingerprint x) (fingerprint r)); [eexists; reflexivity |].
    apply elem_of_app in H as [H | H]; [apply IH, H |].
    apply list_elem_of_singleton in H. subst x. contradiction.
Qed.

Lemma writeAll_owner (relays : list RelayData) (s : State) :
  owner (writeAll relays s) = owner s /\
  authorizedUpdaters (writeAll relays s) = authorizedUpdaters s.
Proof.
  induction relays as [| x rest IH] using rev_ind; [split; reflexivity |].
  rewrite writeAll_snoc.
  destruct (writeRelay_fields x (writeAll rest s)) as (-> & -> & _). exact IH.
Qed.

Lemma writeAll_lookup (relays : list RelayData) (s : State) (fp : string) :
  relaysByFingerprint (writeAll relays s) !! fp
  = match lastWrite fp relays with
    | Some r => Some r
    | None => relaysByFingerprint s !! fp
    end.
Proof.
  induction relays as [| x rest IH] using rev_ind; [reflexivity |].
  rewrite writeAll_snoc, lastWrite_snoc.
  destruct (writeRelay_fields x (writeAll rest s)) as (_ & _ & -> & _).
  rewrite lookup_insert.
  destruct (String.eqb_spec (fingerprint x) fp) as [Heq | Hne].
  - rewrite decide_True by assumption. reflexivity.
  - rewrite decide_False by assumption. exact IH.
Qed.

Lemma relayAt_writeAll (relays : list RelayData) (s : State) (fp : string) :
  relayAt (writeAll relays s) fp = default (relayAt s fp) (lastWrite fp relays).
Proof.
  unfold relayAt. rewrite writeAll_lookup.
  destruct (lastWrite fp relays); reflexivity.
Qed.

Lemma batch_result (e : Env) (relays : list RelayData) (s s' : State) :
  batchUpdateRelays e relays s = Ok s' ->
  s' = writeAll relays s /\
  authorized e s /\
  Forall (store_invariants (block_timestamp e)) relays.
Proof.
  intros Hok.
  assert (Hs : succeeds (batchUpdateRelays e relays s) = true) by (rewrite Hok; reflexivity).
  apply (proj1 (batch_success_characterised e relays s)) in Hs
    as [Ha Hall].
  split; [| split; assumption].
  unfold batchUpdateRelays in Hok. rewrite onlyAuthorized_ok in Hok by assumption.
  simpl in Hok. eapply batchLoop_result, Hok.
Qed.

(** X3. Within one successful batch the last record wins: for every
    fingerprint the batch mentions, [getRelay] afterwards returns the last
    record of the batch carrying it, whole; a fingerprint the batch does
    not mention reads what it read before. *)
Theorem batch_last_write_wins
    (e : Env) (relays : list RelayData) (s s' : State) :
  batchUpdateRelays e relays s = Ok s' ->
  forall fp,
    match lastWrite fp relays with
    | Some r => getRelay fp s' = Ok r
    | None => relayAt s' fp = relayAt s fp /\ relayExists fp s' = relayExists fp s
    end.
Proof.
  intros Hok fp. destruct (batch_result e relays s s' Hok) as (-> & _ & Hall).
  assert (Hat := relayAt_writeAll relays s fp).
  destruct (lastWrite fp relays) as [r |] eqn:Hlast; simpl in Hat.
  - destruct (lastWrite_elem fp relays r Hlast) as [Hin Hfp].
    rewrite Forall_forall in Hall. destruct (Hall r Hin) as (H40 & _).
    rewrite getRelay_stored; [rewrite Hat; reflexivity |].
    unfold relayExists. rewrite Hat. apply Z.gtb_lt. lia.
  - split; [exact Hat |]. unfold relayExists. rewrite Hat. reflexivity.
Qed.

Lemma batch_last_write_wins_witness :
  getRelay (fingerprint sampleRelay)
    (step (laterBy 1)
       (CallBatchUpdateRelays [withNickname "First" sampleRelay;
                               withNickname "Second" sampleRelay])
       (constructor deployer))
  = Ok (withNickname "Second" sampleRelay).
Proof.
  exact (batch_last_write_wins (laterBy 1)
           [withNickname "First" sampleRelay; withNickname "Second" sampleRelay]
           (constructor deployer) _ eq_refl (fingerprint sampleRelay)).
Defined.

Lemma relayExists_writeRelay_mono (r : RelayData) (s : State) (fp : string) :
  blen (fingerprint r) = 40 ->
  relayExists fp s = true -> relayExists fp (writeRelay r s) = true.
Proof.
  intros H40 Hex. destruct (decide (fp = fingerprint r)) as [-> | Hne].
  - apply relayExists_writeRelay, H40.
  - unfold relayExists in *. rewrite relayAt_writeRelay_ne by assumption. exact Hex.
Qed.

(** Writing records whose fingerprints are all stored already leaves the
    index as it is. *)
Lemma writeAll_index_unchanged (relays : list RelayData) :
  forall s,
    Forall (fun r => blen (fingerprint r) = 40) relays ->
    Forall (fun r => relayExists (fingerprint r) s = true) relays ->
    fingerprintList (writeAll relays s) = fingerprintList s.
Proof.
  induction relays as [| r rest IH]; intros s Hlen Hex; [reflexivity |].
  apply Forall_cons in Hlen as [H40 Hlen]. apply Forall_cons in Hex as [Hr Hex].
  change (writeAll (r :: rest) s) with (writeAll rest (writeRelay r s)).
  rewrite IH.
  - destruct (writeRelay_fields r s) as (_ & _ & _ & ->). rewrite Hr. reflexivity.
  - exact Hlen.
  - eapply Forall_impl; [exact Hex |]. intros x Hx.
    apply relayExists_writeRelay_mono; assumption.
Qed.

Lemma writeAll_all_exist (relays : list RelayData) (s : State) :
  Forall (fun r => blen (fingerprint r) = 40) relays ->
  Forall (fun r => relayExists (fingerprint r) (writeAll relays s) = true) relays.
Proof.
  intros Hlen. rewrite Forall_forall in *. intros r Hin.
  destruct (lastWrite_some relays r Hin) as [r' Hr'].
  destruct (lastWrite_elem _ _ _ Hr') as [Hin' Hfp].
  unfold relayExists. rewrite relayAt_writeAll, Hr'. simpl.
  rewrite Hfp. apply Z.gtb_lt. rewrite (Hlen r Hin). lia.
Qed.

Lemma writeAll_replay (relays : list RelayData) (s : State) :
  Forall (fun r => blen (fingerprint r) = 40) relays ->
  writeAll relays (writeAll relays s) = writeAll relays s.
Proof.
  intros Hlen. apply state_eq.
  - apply writeAll_owner.
  - apply writeAll_owner.
  - apply map_eq. intros fp. rewrite writeAll_lookup.
    destruct (lastWrite fp relays) as [r |] eqn:Hlast; [| reflexivity].
    rewrite writeAll_lookup, Hlast. reflexivity.
  - apply writeAll_index_unchanged; [exact Hlen |].
    apply writeAll_all_exist, Hlen.
Qed.

(** X4. Replaying a batch is harmless: if [batchUpdateRelays] succeeded
    with a batch, sending the same batch again (by any authorized caller,
    at any time at which its records are still valid) succeeds and
    returns the storage unchanged, whatever duplicates the batch holds. *)
Theorem batch_replay_changes_nothing
    (e1 e2 : Env) (relays : list RelayData) (s s1 : State) :
  batchUpdateRelays e1 relays s = Ok s1 ->
  authorized e2 s ->
  Forall (store_invariants (block_timestamp e2)) relays ->
  batchUpdateRelays e2 relays s1 = Ok s1.
Proof.
  intros Hok Ha2 Hv2. destruct (batch_result e1 relays s s1 Hok) as (-> & _ & Hv1).
  assert (Ha2' : authorized e2 (writeAll relays s)).
  { unfold authorized, isUpdater in *.
    destruct (writeAll_owner relays s) as [-> ->]. exact Ha2. }
  unfold batchUpdateRelays. rewrite onlyAuthorized_ok by assumption. simpl.
  rewrite (proj2 (batchLoop_ok_iff e2 relays (writeAll relays s)) Hv2).
  rewrite writeAll_replay; [reflexivity |].
  eapply Forall_impl; [exact Hv1 |]. intros r Hr. apply Hr.
Qed.

Lemma batch_replay_changes_nothing_witness :
  batchUpdateRelays (laterBy 1) tenRelays tenRelayStore = Ok tenRelayStore.
Proof.
  apply (batch_replay_changes_nothing deployer (laterBy 1) tenRelays
           (constructor deployer) tenRelayStore).
  - vm_compute. reflexivity.
  - left. reflexivity.
  - unfold tenRelays. repeat constructor; simpl; try lia; discriminate.
Defined.

Lemma writeAll_index_length (relays : list RelayData) :
  forall s,
    (length (fingerprintList s) <= length (fingerprintList (writeAll relays s))
     <= length (fingerprintList s) + length relays)%nat.
Proof.
  induction relays as [| r rest IH]; intros s; [simpl; lia |].
  change (writeAll (r :: rest) s) with (writeAll rest (writeRelay r s)).
  specialize (IH (writeRelay r s)).
  destruct (writeRelay_fields r s) as (_ & _ & _ & Hl). rewrite Hl in IH.
  destruct (relayExists (fingerprint r) s); [simpl; lia |].
  rewrite length_app in IH. simpl in *. lia.
Qed.

Lemma writeAll_fresh_index (relays : list RelayData) :
  forall s,
    Forall (fun r => blen (fingerprint r) = 40) relays ->
    NoDup (map fingerprint relays) ->
    Forall (fun r => relayExists (fingerprint r) s = false) relays ->
    fingerprintList (writeAll relays s)
    = (fingerprintList s ++ map fingerprint relays)%list.
Proof.
  induction relays as [| r rest IH]; intros s Hlen Hnd Hfresh.
  - simpl. rewrite app_nil_r. reflexivity.
  - apply Forall_cons in Hlen as [H40 Hlen].
    apply Forall_cons in Hfresh as [Hr Hfresh].
    simpl in Hnd. apply NoDup_cons in Hnd as [Hnotin Hnd].
    change (writeAll (r :: rest) s) with (writeAll rest (writeRelay r s)).
    rewrite IH; [| exact Hlen | exact Hnd |].
    + destruct (writeRelay_fields r s) as (_ & _ & _ & ->). rewrite Hr.
      simpl. rewrite <- app_assoc. reflexivity.
    + rewrite Forall_forall in *. intros x Hx.
      unfold relayExists. rewrite relayAt_writeRelay_ne; [apply (Hfresh x Hx) |].
      intros Heq. apply Hnotin. rewrite <- Heq.
      apply list_elem_of_fmap. exists x. split; [reflexivity | exact Hx].
Qed.

(** X5. A successful batch of n records grows the count by at most n, and
    never shrinks it; when the fingerprints of the batch are pairwise
    different and none is stored yet, the index gains exactly the batch's
    fingerprints, in the order of the batch. *)
Theorem batch_count_growth
    (e : Env) (relays : list RelayData) (s s' : State) :
  batchUpdateRelays e relays s = Ok s' ->
  (getRelayCount s <= getRelayCount s' <= getRelayCount s + Z.of_nat (length relays)) /\
  (NoDup (map fingerprint relays) ->
   Forall (fun r => relayExists (fingerprint r) s = false) relays ->
   fingerprintList s' = (fingerprintList s ++ map fingerprint relays)%list /\
   getRelayCount s' = getRelayCount s + Z.of_nat (length relays)).
Proof.
  intros Hok. destruct (batch_result e relays s s' Hok) as (-> & _ & Hv).
  assert (Hlen : Forall (fun r => blen (fingerprint r) = 40) relays).
  { eapply Forall_impl; [exact Hv |]. intros r Hr. apply Hr. }
  split.
  - unfold getRelayCount. assert (H := writeAll_index_length relays s). lia.
  - intros Hnd Hfresh.
    assert (Hl := writeAll_fresh_index relays s Hlen Hnd Hfresh).
    split; [exact Hl |]. unfold getRelayCount.
    rewrite Hl, length_app, length_map. lia.
Qed.

Lemma batch_count_growth_witness :
  fingerprintList tenRelayStore = map fingerprint tenRelays /\
  getRelayCount tenRelayStore = 10.
Proof.
  assert (Hbatch : batchUpdateRelays deployer tenRelays (constructor deployer)
                   = Ok tenRelayStore) by (vm_compute; reflexivity).
  destruct (batch_count_growth deployer tenRelays (constructor deployer)
              tenRelayStore Hbatch) as [_ H].
  destruct H as [Hl Hc].
  - vm_compute. repeat constructor; rewrite ?list_elem_of_In; simpl; intuition discriminate.
  - unfold tenRelays. repeat constructor.
  - split; [exact Hl | exact Hc].
Defined.

(** ** Administration and records do not interfere *)

Lemma admin_ok_fields (e : Env) (c : Call) (s s' : State) :
  exec e c s = Ok s' ->
  match c with
  | CallUpdateRelay r => s' = writeRelay r s
  | CallBatchUpdateRelays rs => s' = writeAll rs s
  | CallTransferOwnership a =>
      msg_sender e = owner s /\ a <> 0 /\ s' = set_owner s a
  | CallAddAuthorizedUpdater a =>
      msg_sender e = owner s /\ a <> 0 /\ isUpdater s a = false /\
      s' = set_updater s a true
  | CallRemoveAuthorizedUpdater a =>
      msg_sender e = owner s /\ isUpdater s a = true /\ s' = set_updater s a false
  end.
Proof.
  destruct c as [a | a | a | r | rs]; simpl.
  - unfold transferOwnership, onlyOwner.
    destruct (Z.eqb_spec (msg_sender e) (owner s)); simpl; [| discriminate].
    destruct (Z.eqb_spec a 0); simpl; [discriminate |].
    intros [= <-]. repeat split; assumption.
  - unfold addAuthorizedUpdater, onlyOwner.
    destruct (Z.eqb_spec (msg_sender e) (owner s)); simpl; [| discriminate].
    destruct (Z.eqb_spec a 0); simpl; [discriminate |].
    destruct (isUpdater s a) eqn:Hu; simpl; [discriminate |].
    intros [= <-]. repeat split; assumption.
  - unfold removeAuthorizedUpdater, onlyOwner.
    destruct (Z.eqb_spec (msg_sender e) (owner s)); simpl; [| discriminate].
    destruct (isUpdater s a) eqn:Hu; simpl; [| discriminate].
    intros [= <-]. repeat split; assumption.
  - rewrite updateRelay_requires.
    destruct (onlyAuthorized e s) as [[] |]; simpl; [| discriminate].
    destruct (recordRequires (block_timestamp e) r) as [[] |]; simpl; [| discriminate].
    intros [= <-]. reflexivity.
  - intros H. apply (batch_result e rs s s' H).
Qed.

(** X6. Record writes and administration do not interfere: whatever
    [updateRelay] or [batchUpdateRelays] does, the owner and the updater
    set stay as they were; whatever [transferOwnership],
    [addAuthorizedUpdater] or [removeAuthorizedUpdater] does, the records
    and the index stay as they were. *)
Theorem writes_and_administration_are_separate (e : Env) (c : Call) (s : State) :
  match c with
  | CallUpdateRelay _ | CallBatchUpdateRelays _ =>
      owner (step e c s) = owner s /\
      authorizedUpdaters (step e c s) = authorizedUpdaters s
  | _ =>
      relaysByFingerprint (step e c s) = relaysByFingerprint s /\
      fingerprintList (step e c s) = fingerprintList s
  end.
Proof.
  unfold step. destruct (exec e c s) as [s' | fl] eqn:Hexec.
  - apply admin_ok_fields in Hexec.
    destruct c as [a | a | a | r | rs].
    + destruct Hexec as (_ & _ & ->). split; reflexivity.
    + destruct Hexec as (_ & _ & _ & ->). split; reflexivity.
    + destruct Hexec as (_ & _ & ->). split; reflexivity.
    + subst s'. destruct (writeRelay_fields r s) as (-> & -> & _). split; reflexivity.
    + subst s'. apply writeAll_owner.
  - destruct c; split; reflexivity.
Qed.

Lemma writes_and_administration_are_separate_witness :
  owner (step (laterBy 1) (CallBatchUpdateRelays tenRelays) seededStore) = 1 /\
  fingerprintList (step deployer (CallTransferOwnership 7) seededStore)
  = fingerprintList seededStore.
Proof.
  split.
  - exact (proj1 (writes_and_administration_are_separate (laterBy 1)
                    (CallBatchUpdateRelays tenRelays) seededStore)).
  - exact (proj2 (writes_and_administration_are_separate deployer
                    (CallTransferOwnership 7) seededStore)).
Defined.

(** ** Ownership and the updater set *)

(** X7. A successful [transferOwnership] was called by the owner with a
    non-zero address; afterwards that address is the owner and passes
    both modifiers, the updater set is unchanged, and the previous owner,
    if a different address, fails [onlyOwner] and, unless it is an
    authorized updater, fails to write. *)
Theorem ownership_transfer_hands_over
    (e : Env) (newOwner : address) (s s' : State) :
  transferOwnership e newOwner s = Ok s' ->
  msg_sender e = owner s /\ newOwner <> 0 /\ owner s' = newOwner /\
  (forall a, isUpdater s' a = isUpdater s a) /\
  (forall e', msg_sender e' = newOwner ->
     onlyOwner e' s' = Ok tt /\ onlyAuthorized e' s' = Ok tt) /\
  (forall e', msg_sender e' = owner s -> owner s <> newOwner ->
     onlyOwner e' s' = Fail notOwnerError /\
     (isUpdater s (owner s) = false ->
      forall r, updateRelayWith e' r s' = Fail unauthorizedError)).
Proof.
  intros Hok.
  destruct (admin_ok_fields e (CallTransferOwnership newOwner) s s' Hok)
    as (Hsender & Hnz & ->).
  split; [exact Hsender |]. split; [exact Hnz |]. split; [reflexivity |].
  split; [intros a; reflexivity |]. split.
  - intros e' He'. split.
    + apply onlyOwner_ok. exact He'.
    + apply onlyAuthorized_ok. left. exact He'.
  - intros e' He' Hne. split.
    + apply onlyOwner_fail. simpl. congruence.
    + intros Hnu r.
      assert (Hna : ~ authorized e' (set_owner s newOwner)).
      { intros [H | H]; simpl in H; [congruence |].
        rewrite He' in H. unfold isUpdater in *. simpl in H. congruence. }
      exact (proj1 (unauthorized_write_fails e' _ Hna r [])).
Qed.

Lemma ownership_transfer_hands_over_witness :
  owner (set_owner seededStore 7) = 7 /\
  onlyOwner (laterBy 1) (set_owner seededStore 7) = Fail notOwnerError.
Proof.
  destruct (ownership_transfer_hands_over deployer 7 seededStore
              (set_owner seededStore 7) eq_refl)
    as (_ & _ & Ho & _ & _ & Hold).
  split; [exact Ho |].
  apply (Hold (laterBy 1)); [reflexivity | discriminate].
Defined.

Lemma zero_not_updater_step (e : Env) (c : Call) (s : State) :
  isUpdater s 0 = false -> isUpdater (step e c s) 0 = false.
Proof.
  intros H. unfold step. destruct (exec e c s) as [s' |] eqn:Hexec; [| exact H].
  apply admin_ok_fields in Hexec. destruct c as [a | a | a | r | rs].
  - destruct Hexec as (_ & _ & ->). exact H.
  - destruct Hexec as (_ & Hnz & _ & ->).
    unfold isUpdater, set_updater in *. simpl.
    rewrite lookup_insert_ne by assumption. exact H.
  - destruct Hexec as (_ & Hu & ->).
    unfold isUpdater, set_updater in *. simpl.
    destruct (decide (a = 0)) as [-> | Hne].
    + rewrite lookup_insert_eq. reflexivity.
    + rewrite lookup_insert_ne by assumption. exact H.
  - subst s'. unfold isUpdater in *.
    destruct (writeRelay_fields r s) as (_ & -> & _). exact H.
  - subst s'. unfold isUpdater in *.
    destruct (writeAll_owner rs s) as (_ & ->). exact H.
Qed.

Lemma owner_nonzero_step (e : Env) (c : Call) (s : State) :
  owner s <> 0 -> owner (step e c s) <> 0.
Proof.
  intros H. unfold step. destruct (exec e c s) as [s' |] eqn:Hexec; [| exact H].
  apply admin_ok_fields in Hexec. destruct c as [a | a | a | r | rs].
  - destruct Hexec as (_ & Hnz & ->). exact Hnz.
  - destruct Hexec as (_ & _ & _ & ->). exact H.
  - destruct Hexec as (_ & _ & ->). exact H.
  - subst s'. destruct (writeRelay_fields r s) as (-> & _). exact H.
  - subst s'. destruct (writeAll_owner rs s) as (-> & _). exact H.
Qed.

(** X8. The zero address is never privileged: in every storage reachable
    from deployment it is not an authorized updater, and no call makes it
    the owner of a store whose owner is not zero. *)
Theorem zero_address_never_privileged :
  (forall s, reachable s -> isUpdater s 0 = false) /\
  (forall e c s, owner s <> 0 -> owner (step e c s) <> 0).
Proof.
  split.
  - induction 1 as [e | e c s Hr IH]; [reflexivity |].
    apply zero_not_updater_step, IH.
  - intros e c s. apply owner_nonzero_step.
Qed.

Lemma zero_address_never_privileged_witness :
  isUpdater ownerRemoved 0 = false /\
  owner (step deployer (CallTransferOwnership 0) seededStore) <> 0.
Proof.
  destruct zero_address_never_privileged as [Hu Ho]. split.
  - apply Hu. unfold ownerRemoved, ownerAsUpdater.
    apply reachable_step, reachable_step, reachable_deploy.
  - apply Ho. discriminate.
Defined.

(** X9. Adding an updater and removing it again restores the
    authorization of every address and touches nothing else; in between,
    adding it a second time fails with "Address already authorized", and
    after the removal, removing it again fails with "Address not
    authorized". *)
Theorem add_then_remove_restores_authorization
    (eo : Env) (x : address) (s : State) :
  msg_sender eo = owner s -> x <> 0 -> isUpdater s x = false ->
  exists s1 s2,
    addAuthorizedUpdater eo x s = Ok s1 /\
    isUpdater s1 x = true /\
    addAuthorizedUpdater eo x s1 = Fail (Error "Address already authorized") /\
    removeAuthorizedUpdater eo x s1 = Ok s2 /\
    removeAuthorizedUpdater eo x s2 = Fail (Error "Address not authorized") /\
    (forall a, isUpdater s2 a = isUpdater s a) /\
    owner s2 = owner s /\
    relaysByFingerprint s2 = relaysByFingerprint s /\
    fingerprintList s2 = fingerprintList s.
Proof.
  intros Ho Hnz Hnu.
  exists (set_updater s x true), (set_updater (set_updater s x true) x false).
  assert (Ho1 : msg_sender eo = owner (set_updater s x true)) by exact Ho.
  assert (Ho2 : msg_sender eo = owner (set_updater (set_updater s x true) x false))
    by exact Ho.
  assert (Hnzb : negb (x =? 0) = true)
    by (destruct (Z.eqb_spec x 0); [contradiction | reflexivity]).
  split.
  { unfold addAuthorizedUpdater. rewrite onlyOwner_ok by assumption.
    rewrite Hnu, Hnzb. reflexivity. }
  split; [apply isUpdater_set_eq |]. split.
  { unfold addAuthorizedUpdater. rewrite onlyOwner_ok by assumption.
    rewrite isUpdater_set_eq, Hnzb. reflexivity. }
  split.
  { unfold removeAuthorizedUpdater. rewrite onlyOwner_ok by assumption.
    rewrite isUpdater_set_eq. reflexivity. }
  split.
  { unfold removeAuthorizedUpdater. rewrite onlyOwner_ok by assumption.
    rewrite isUpdater_set_eq. reflexivity. }
  split; [| repeat split].
  intros a. unfold isUpdater, set_updater. simpl.
  destruct (decide (x = a)) as [-> | Hne].
  - rewrite lookup_insert_eq. simpl. symmetry. exact Hnu.
  - rewrite !lookup_insert_ne by assumption. reflexivity.
Qed.

Lemma add_then_remove_restores_authorization_witness :
  exists s1 s2,
    addAuthorizedUpdater deployer 7 seededStore = Ok s1 /\
    removeAuthorizedUpdater deployer 7 s1 = Ok s2 /\
    (forall a, isUpdater s2 a = isUpdater seededStore a).
Proof.
  destruct (add_then_remove_restores_authorization deployer 7 seededStore)
    as (s1 & s2 & H1 & _ & _ & H2 & _ & H3 & _);
    [reflexivity | discriminate | reflexivity |].
  exists s1, s2. split; [exact H1 |]. split; [exact H2 | exact H3].
Defined.

(** ** Lookups *)

Lemma stored_records_checked_step (s : State) (r0 : RelayData) (now : Z) :
  store_invariants now r0 ->
  (forall fp r, relaysByFingerprint s !! fp = Some r ->
     uptime r <= 1000 /\ blen (country r) = 2 /\ nickname r <> "") ->
  forall fp r, relaysByFingerprint (writeRelay r0 s) !! fp = Some r ->
     uptime r <= 1000 /\ blen (country r) = 2 /\ nickname r <> "".
Proof.
  intros (_ & Hu & Hc & Hn & _) IH fp r.
  destruct (writeRelay_fields r0 s) as (_ & _ & -> & _).
  rewrite lookup_insert. case_decide; [| apply IH].
  intros [= <-]. repeat split; assumption.
Qed.

Lemma reachable_records_checked (s : State) :
  reachable s ->
  forall fp r, relaysByFingerprint s !! fp = Some r ->
    uptime r <= 1000 /\ blen (country r) = 2 /\ nickname r <> "".
Proof.
  induction 1 as [e | e c s Hr IH].
  - intros fp r. simpl. rewrite lookup_empty. discriminate.
  - revert IH.
    apply (step_preserves (fun st => forall fp r,
             relaysByFingerprint st !! fp = Some r ->
             uptime r <= 1000 /\ blen (country r) = 2 /\ nickname r <> "")).
    + intros s0 a H. exact H.
    + intros s0 a b H. exact H.
    + intros s0 r0 now Hv H. eapply stored_records_checked_step; eassumption.
Qed.

(** X10. In every reachable storage, [getRelay] of a fingerprint fails
    with "Relay not found" exactly when [relayExists] is false; when it
    succeeds, the record returned carries the fingerprint asked for, that
    fingerprint has 40 bytes, and the record's uptime is at most 1000, its
    country has 2 bytes and its nickname is not empty.  So a string that
    is not 40 bytes long is never found. *)
Theorem getRelay_returns_checked_record (s : State) (fp : string) :
  reachable s ->
  (getRelay fp s = Fail (Error "Relay not found") <-> relayExists fp s = false) /\
  (forall r, getRelay fp s = Ok r ->
     relayExists fp s = true /\ fingerprint r = fp /\ blen fp = 40 /\
     uptime r <= 1000 /\ blen (country r) = 2 /\ nickname r <> "") /\
  (blen fp <> 40 -> getRelay fp s = Fail (Error "Relay not found")).
Proof.
  intros Hr. assert (Hc := reachable_consistent s Hr).
  assert (Hchecked := reachable_records_checked s Hr fp).
  assert (Hex := relayExists_stored s fp Hc).
  destruct Hc as (_ & _ & _ & Hkey). specialize (Hkey fp).
  unfold getRelay. fold (relayExists fp s).
  destruct (relayExists fp s) eqn:Hexists; simpl.
  - destruct (proj1 Hex eq_refl) as [r0 Hr0].
    destruct (Hkey r0 Hr0) as [Hfp H40]. destruct (Hchecked r0 Hr0) as (Hu & Hcn & Hn).
    assert (Hat : relayAt s fp = r0) by (unfold relayAt; rewrite Hr0; reflexivity).
    split; [split; discriminate |]. split.
    + intros r [= <-]. rewrite Hat. repeat split; assumption.
    + intros Hne. contradiction.
  - split; [split; reflexivity |]. split; [discriminate | reflexivity].
Qed.

Lemma getRelay_returns_checked_record_witness :
  getRelay "SHORT" tenRelayStore = Fail (Error "Relay not found").
Proof.
  assert (Hr : reachable tenRelayStore).
  { unfold tenRelayStore. apply reachable_step, reachable_deploy. }
  destruct (getRelay_returns_checked_record tenRelayStore "SHORT" Hr) as (_ & _ & H).
  apply H. vm_compute. discriminate.
Defined.

Lemma getFingerprintByIndex_lookup (s : State) (k : nat) (fp : string) :
  fingerprintList s !! k = Some fp ->
  getFingerprintByIndex (Z.of_nat k) s = Ok fp.
Proof.
  intros H. unfold getFingerprintByIndex, getRelayCount.
  assert (Hlt := lookup_lt_Some _ _ _ H).
  destruct (Z.ltb_spec (Z.of_nat k) (Z.of_nat (length (fingerprintList s)))); [| lia].
  simpl. apply index_at_lookup, H.
Qed.

(** X11. In every reachable storage and for every index [i >= 0]:
    [getFingerprintByIndex] fails with "Index out of bounds" exactly when
    [i >= count()]; below the count it returns the i-th fingerprint of the
    index, [getRelay] of that fingerprint succeeds with a record carrying
    it, and different indices give different fingerprints. *)
Theorem index_entries_have_records (s : State) (i : Z) :
  reachable s -> 0 <= i ->
  (getFingerprintByIndex i s = Fail (Error "Index out of bounds")
     <-> getRelayCount s <= i) /\
  (i < getRelayCount s ->
     exists fp r,
       getFingerprintByIndex i s = Ok fp /\
       fingerprintList s !! Z.to_nat i = Some fp /\
       getRelay fp s = Ok r /\ fingerprint r = fp) /\
  (forall j fp, 0 <= j ->
     getFingerprintByIndex i s = Ok fp -> getFingerprintByIndex j s = Ok fp ->
     i = j).
Proof.
  intros Hr Hi. assert (Hc := reachable_consistent s Hr).
  destruct (consistent_index_membership s Hc) as [Hnd Hmem].
  assert (Hin_range : forall k, 0 <= k -> k < getRelayCount s ->
            exists fp, fingerprintList s !! Z.to_nat k = Some fp /\
                       getFingerprintByIndex k s = Ok fp).
  { intros k Hk Hlt. unfold getRelayCount in Hlt.
    assert (Hlt' : (Z.to_nat k < length (fingerprintList s))%nat) by lia.
    destruct (lookup_lt_is_Some_2 _ _ Hlt') as [fp Hfp].
    exists fp. split; [exact Hfp |].
    rewrite <- (Z2Nat.id k) at 1 by assumption.
    apply getFingerprintByIndex_lookup, Hfp. }
  assert (Hout : forall k, getRelayCount s <= k ->
            getFingerprintByIndex k s = Fail (Error "Index out of bounds")).
  { intros k Hk. unfold getFingerprintByIndex.
    destruct (Z.ltb_spec k (getRelayCount s)); [lia | reflexivity]. }
  split; [| split].
  - split; [| apply Hout]. intros Hfail.
    destruct (Z.le_gt_cases (getRelayCount s) i) as [Hle | Hlt]; [exact Hle |].
    destruct (Hin_range i Hi Hlt) as (fp & _ & Hok). congruence.
  - intros Hlt. destruct (Hin_range i Hi Hlt) as (fp & Hfp & Hok).
    exists fp, (relayAt s fp).
    assert (Hin : fp ∈ fingerprintList s) by (eapply list_elem_of_lookup_2, Hfp).
    split; [exact Hok |]. split; [exact Hfp |]. split.
    + apply getRelay_stored, Hmem, Hin.
    + apply relayAt_fingerprint; assumption.
  - intros j fp Hj Hok_i Hok_j.
    destruct (Z.le_gt_cases (getRelayCount s) i) as [Hle | Hlt_i];
      [rewrite (Hout i Hle) in Hok_i; discriminate |].
    destruct (Z.le_gt_cases (getRelayCount s) j) as [Hle | Hlt_j];
      [rewrite (Hout j Hle) in Hok_j; discriminate |].
    destruct (Hin_range i Hi Hlt_i) as (fi & Hfi & Hoki).
    destruct (Hin_range j Hj Hlt_j) as (fj & Hfj & Hokj).
    assert (fi = fp) by congruence. assert (fj = fp) by congruence. subst fi fj.
    assert (Heq := NoDup_lookup _ _ _ _ Hnd Hfi Hfj). lia.
Qed.

Lemma index_entries_have_records_witness :
  exists fp r,
    getFingerprintByIndex 9 tenRelayStore = Ok fp /\
    getRelay fp tenRelayStore = Ok r /\ fingerprint r = fp.
Proof.
  assert (Hr : reachable tenRelayStore).
  { unfold tenRelayStore. apply reachable_step, reachable_deploy. }
  destruct (index_entries_have_records tenRelayStore 9 Hr) as (_ & H & _); [lia |].
  destruct H as (fp & r & H1 & _ & H2 & H3); [vm_compute; reflexivity |].
  exists fp, r. repeat split; assumption.
Defined.

(** X12. Consecutive pages concatenate: when [offset + a] is still below
    the count and [offset + a + b] fits in a [uint256], the page of [a]
    records at [offset] followed by the page of [b] records at
    [offset + a] is the page of [a + b] records at [offset]. *)
Theorem consecutive_pages_concatenate (s : State) (offset a b : Z) :
  0 <= offset -> 0 <= a -> 0 <= b ->
  offset + a < getRelayCount s ->
  offset + a + b <= MAX_UINT256 ->
  exists p1 p2,
    getRelaysPaginated offset a s = Ok p1 /\
    getRelaysPaginated (offset + a) b s = Ok p2 /\
    getRelaysPaginated offset (a + b) s = Ok (p1 ++ p2)%list.
Proof.
  intros Ho Ha Hb Hlt Hmax.
  rewrite !getRelaysPaginated_window by lia.
  eexists _, _. split; [reflexivity |]. split; [reflexivity |].
  rewrite <- map_app. do 2 f_equal.
  replace (Z.to_nat (offset + a)) with (Z.to_nat offset + Z.to_nat a)%nat by lia.
  replace (Z.to_nat (a + b)) with (Z.to_nat a + Z.to_nat b)%nat by lia.
  rewrite <- drop_drop. symmetry. apply take_take_drop.
Qed.

Lemma consecutive_pages_concatenate_witness :
  exists p1 p2,
    getRelaysPaginated 0 4 tenRelayStore = Ok p1 /\
    getRelaysPaginated 4 50 tenRelayStore = Ok p2 /\
    getRelaysPaginated 0 54 tenRelayStore = Ok (p1 ++ p2)%list.
Proof.
  apply (consecutive_pages_concatenate tenRelayStore 0 4 50); try lia.
  - vm_compute. reflexivity.
  - vm_compute. discriminate.
Defined.

(** * Further properties of the transformer *)

Lemma upperAscii_idempotent (a : ascii) : upperAscii (upperAscii a) = upperAscii a.
Proof. destruct a as [[] [] [] [] [] [] [] []]; reflexivity. Qed.

Lemma upperCaseAscii_idempotent (x : string) :
  upperCaseAscii (upperCaseAscii x) = upperCaseAscii x.
Proof.
  induction x as [| a tl IH]; simpl; [reflexivity |].
  rewrite upperAscii_idempotent, IH. reflexivity.
Qed.

Lemma orString_nonempty (a b : option string) (x : string) :
  (forall y, b = Some y -> y <> "") -> orString a b = Some x -> x <> "".
Proof.
  intros Hb. unfold orString. destruct a as [y |]; [| apply Hb].
  destruct (String.eqb_spec y ""); [apply Hb |]. intros [= <-]. assumption.
Qed.

Lemma default_orString_nonempty (a : option string) (d : string) :
  d <> "" -> default d (orString a (Some d)) <> "".
Proof.
  intros Hd. destruct (orString a (Some d)) as [x |] eqn:Hx; simpl; [| exact Hd].
  eapply orString_nonempty; [| exact Hx]. intros y [= <-]. exact Hd.
Qed.

Lemma deriveLastSeen_le (dateParse : string -> option Z) (now : Z)
    (str : option string) :
  deriveLastSeen dateParse now str <= now.
Proof.
  unfold deriveLastSeen. destruct str as [x |]; [| lia].
  destruct (String.eqb x ""); [lia |].
  destruct (dateParse _); lia.
Qed.

(** The record [transformRelay] builds from a usable fingerprint. *)
Lemma transformRelay_some (unicodeUpperCase : string -> string)
    (dateParse : string -> option Z) (nowMs : Z)
    (relay : Onionoo.Relay) (rd : RelayData) :
  transformRelay unicodeUpperCase dateParse nowMs relay = Some rd ->
  exists fp,
    feedFingerprint relay = Some fp /\ jsLength fp = 40 /\
    fingerprint rd = toUpperCase unicodeUpperCase fp /\
    nickname rd <> "" /\
    uptime rd <= 1000 /\
    lastSeen rd <= nowMs / 1000 /\
    country rd <> "" /\
    country rd = default "??" (orString (Onionoo.country relay) (Some "??")) /\
    startsWith "AS" (asNumber rd) = true.
Proof.
  unfold transformRelay, feedFingerprint.
  destruct (orString (Onionoo.fingerprint relay) (Onionoo.f relay)) as [fp |];
    [| discriminate].
  destruct (String.eqb fp ""); simpl; [discriminate |].
  destruct (Z.eqb_spec (jsLength fp) FINGERPRINT_LENGTH) as [H40 |]; simpl;
    [| discriminate].
  intros [= <-]. exists fp. simpl.
  split; [reflexivity |]. split; [exact H40 |]. split; [reflexivity |].
  split; [apply default_orString_nonempty; discriminate |].
  split; [apply deriveUptime_bounds |].
  split; [apply deriveLastSeen_le |].
  split; [apply default_orString_nonempty; discriminate |].
  split; [reflexivity |].
  destruct (startsWith "AS" (default DEFAULT_AS_NUMBER
             (orString (Onionoo.as_number relay) (Some DEFAULT_AS_NUMBER)))) eqn:Has;
    simpl; [exact Has |].
  unfold startsWith. simpl.
  destruct (default DEFAULT_AS_NUMBER
              (orString (Onionoo.as_number relay) (Some DEFAULT_AS_NUMBER)));
    reflexivity.
Qed.

(** The fingerprint of a record made from an ASCII fingerprint. *)
Lemma transformRelay_ascii_fingerprint (unicodeUpperCase : string -> string)
    (dateParse : string -> option Z) (nowMs : Z)
    (relay : Onionoo.Relay) (rd : RelayData) :
  transformRelay unicodeUpperCase dateParse nowMs relay = Some rd ->
  asciiFingerprint relay = true ->
  blen (fingerprint rd) = 40 /\
  upperCaseAscii (fingerprint rd) = fingerprint rd.
Proof.
  intros Hrd Hascii.
  destruct (transformRelay_some _ _ _ _ _ Hrd) as (fp & Hfp & H40 & Hup & _).
  unfold asciiFingerprint in Hascii. rewrite Hfp in Hascii.
  rewrite Hup, (toUpperCase_ascii _ fp Hascii).
  rewrite upperCaseAscii_blen, upperCaseAscii_idempotent,
    <- (jsLength_ascii fp Hascii).
  split; [exact H40 | reflexivity].
Qed.

(** X13. [transformRelay] returns a record exactly when the entry's
    fingerprint (the long field, else the short one) is a string of
    length 40, and never fails otherwise.  The record it returns carries
    [toUpperCase] of that fingerprint, which for an ASCII fingerprint is
    40 bytes already in upper case, a non-empty nickname, an uptime of at
    most 1000, a lastSeen not after the clock it read, a non-empty country
    and an AS number starting with "AS". *)
Theorem transformRelay_returns_wellformed_record
    (unicodeUpperCase : string -> string)
    (dateParse : string -> option Z) (nowMs : Z) (relay : Onionoo.Relay) :
  (is_Some (transformRelay unicodeUpperCase dateParse nowMs relay)
     <-> exists fp, feedFingerprint relay = Some fp /\ jsLength fp = 40) /\
  (forall rd, transformRelay unicodeUpperCase dateParse nowMs relay = Some rd ->
     (exists fp,
        feedFingerprint relay = Some fp /\
        fingerprint rd = toUpperCase unicodeUpperCase fp) /\
     (asciiFingerprint relay = true ->
      blen (fingerprint rd) = 40 /\
      upperCaseAscii (fingerprint rd) = fingerprint rd) /\
     nickname rd <> "" /\
     uptime rd <= 1000 /\
     lastSeen rd <= nowMs / 1000 /\
     country rd <> "" /\
     startsWith "AS" (asNumber rd) = true).
Proof.
  split.
  - split.
    + intros [rd Hrd].
      destruct (transformRelay_some _ _ _ _ _ Hrd) as (fp & Hfp & H40 & _).
      exists fp. split; assumption.
    + intros (fp & Hfp & H40).
      destruct (transformRelay_accepts unicodeUpperCase dateParse nowMs relay fp
                  Hfp H40) as (rd & Hrd & _).
      exists rd. exact Hrd.
  - intros rd Hrd.
    destruct (transformRelay_some _ _ _ _ _ Hrd)
      as (fp & Hfp & H40 & Hup & Hn & Hu & Hl & Hc & _ & Has).
    split; [exists fp; split; assumption |].
    split; [apply (transformRelay_ascii_fingerprint _ _ _ _ _ Hrd) |].
    repeat split; assumption.
Qed.

Lemma transformRelay_returns_wellformed_record_witness :
  exists rd,
    transformRelay noCaseMapping noDate 1700000000000 longCountryEntry = Some rd /\
    blen (fingerprint rd) = 40 /\ lastSeen rd <= 1700000000.
Proof.
  eexists. split; [reflexivity |].
  destruct (transformRelay_returns_wellformed_record noCaseMapping noDate
              1700000000000 longCountryEntry) as [_ H].
  destruct (H _ eq_refl) as (_ & Hascii & _ & _ & Hl & _).
  split; [exact (proj1 (Hascii eq_refl)) | exact Hl].
Defined.

(** Beyond ASCII the two lengths part: the fingerprint that begins with
    U+00DF has length 40 for [transformRelay] and [validateRelayData] and
    41 bytes for the store, and the record made of it carries a
    fingerprint of 41 letters. *)
Example transformRelay_beyond_ascii :
  jsLength sharpSFingerprint = 40 /\
  blen sharpSFingerprint = 41 /\
  fingerprint <$> transformRelay sharpSToSS noDate 1700000000000 sharpSEntry
  = Some (String.append "SS" (repeatChar "A" 39)) /\
  validateRelayData (withFingerprint sharpSFingerprint sampleRelay) = true /\
  updateRelayWith deployer (withFingerprint sharpSFingerprint sampleRelay)
    (constructor deployer)
  = Fail (Error "Invalid fingerprint length").
Proof. repeat split; vm_compute; reflexivity. Qed.

(** [trim] takes off the white space of Unicode: here U+202F and a tab in
    front, U+00A0 and a space behind. *)
Example trim_unicode_white_space :
  trim (String.append (bytes [226; 128; 175; 9]%nat)
          (String.append "relay one" (bytes [194; 160; 32]%nat)))
  = "relay one" /\
  trim (bytes [227; 128; 128; 239; 187; 191; 10]%nat) = "".
Proof. split; vm_compute; reflexivity. Qed.

(** X14. A transformed record with an ASCII fingerprint is refused on its
    way into the store for two reasons only: a number ethers cannot
    encode, or a country code that does not have 2 bytes.  For an
    authorized signer whose submission is executed in a block not before
    the clock [transformRelay] read, the submission of the record is
    confirmed exactly when its numbers can be encoded and its country has
    2 bytes; [updateRelay] itself accepts a record with encodable numbers
    exactly when its country has 2 bytes; an entry without a country gets
    "??", which has 2 bytes. *)
Theorem transformed_record_rejected_only_for_country
    (unicodeUpperCase : string -> string)
    (dateParse : string -> option Z) (nowMs : Z) (relay : Onionoo.Relay)
    (rd : RelayData) :
  transformRelay unicodeUpperCase dateParse nowMs relay = Some rd ->
  asciiFingerprint relay = true ->
  (forall channel signer run ts,
     channel (submissions run) = Mined ts ->
     authorized (mkEnv signer ts) (store run) ->
     nowMs / 1000 <= ts ->
     ((submitBatch channel signer [rd] run).2 = None
      <-> abiEncodable rd = true /\ blen (country rd) = 2)) /\
  (forall e s,
     authorized e s ->
     nowMs / 1000 <= block_timestamp e ->
     abiEncodable rd = true ->
     (succeeds (updateRelayWith e rd s) = true <-> blen (country rd) = 2)) /\
  (Onionoo.country relay = None -> blen (country rd) = 2).
Proof.
  intros Hrd Hascii.
  destruct (transformRelay_some _ _ _ _ _ Hrd)
    as (fp & _ & _ & _ & Hn & Hu & Hl & _ & Hc & _).
  destruct (transformRelay_ascii_fingerprint _ _ _ _ _ Hrd Hascii) as [H40 _].
  assert (Hvalid : forall now, nowMs / 1000 <= now ->
            (store_invariants now rd <-> blen (country rd) = 2)).
  { intros now Hnow. unfold store_invariants. split; [intros H; apply H |].
    intros Hc2. repeat split; try assumption. lia. }
  split; [| split].
  - intros channel signer run ts Hch Ha Hclock.
    unfold submitBatch. cbn [forallb]. rewrite andb_true_r.
    destruct (abiEncodable rd); simpl.
    + rewrite Hch.
      destruct (batchUpdateRelays (mkEnv signer ts) [rd] (store run)) as [st' | fl]
        eqn:Hbatch; simpl.
      * split; [| reflexivity]. intros _. split; [reflexivity |].
        apply batch_result in Hbatch as (_ & _ & Hall).
        apply Forall_cons in Hall as [Hv _].
        apply (Hvalid ts Hclock), Hv.
      * split; [discriminate |]. intros [_ Hc2]. exfalso.
        assert (Hs : succeeds (batchUpdateRelays (mkEnv signer ts) [rd] (store run))
                     = true).
        { apply batch_success_characterised. split; [exact Ha |].
          apply Forall_cons. split; [| constructor].
          apply (Hvalid ts Hclock), Hc2. }
        rewrite Hbatch in Hs. discriminate.
    + split; [discriminate |]. intros [H _]. discriminate.
  - intros e s Ha Hclock _. split.
    + intros Hok.
      destruct (decide (blen (country rd) = 2)) as [Hc2 | Hc2]; [exact Hc2 |].
      assert (Hbad : violates (block_timestamp e) rd) by (right; right; left; exact Hc2).
      rewrite (updateRelay_invalid e rd s Hbad) in Hok. discriminate.
    + intros Hc2. rewrite updateRelay_ok; [reflexivity | exact Ha |].
      apply (Hvalid _ Hclock), Hc2.
  - intros Hnone. rewrite Hc, Hnone. reflexivity.
Qed.

(** The entry with the country "USA" is not confirmed; the entry whose
    fraction is -1 is not confirmed either, for its uptime; the entry
    with the country "us" and the fraction 0.01 is. *)
Lemma transformed_record_rejected_only_for_country_witness :
  (submitBatch alwaysMined 1 [longCountryRecord]
     (mkRun (constructor deployer) 0 [] [])).2 <> None /\
  (submitBatch alwaysMined 1 [negativeUptimeRecord]
     (mkRun (constructor deployer) 0 [] [])).2 <> None /\
  (submitBatch alwaysMined 1 [onePercentRecord]
     (mkRun (constructor deployer) 0 [] [])).2 = None.
Proof.
  assert (Hrun : forall relay rd,
            transformRelay noCaseMapping noDate 1700000000000 relay = Some rd ->
            asciiFingerprint relay = true ->
            (submitBatch alwaysMined 1 [rd] (mkRun (constructor deployer) 0 [] [])).2
            = None
            <-> abiEncodable rd = true /\ blen (country rd) = 2).
  { intros relay rd Hrd Hascii.
    destruct (transformed_record_rejected_only_for_country noCaseMapping noDate
                1700000000000 relay rd Hrd Hascii) as (H & _).
    apply (H alwaysMined 1 (mkRun (constructor deployer) 0 [] []) 1700000100).
    - reflexivity.
    - left. reflexivity.
    - vm_compute. discriminate. }
  split; [| split].
  - intros H. apply (Hrun longCountryEntry longCountryRecord) in H as [_ H];
      [vm_compute in H; discriminate H | vm_compute; reflexivity | reflexivity].
  - intros H. apply (Hrun negativeFractionRelay negativeUptimeRecord) in H as [H _];
      [vm_compute in H; discriminate H | vm_compute; reflexivity | reflexivity].
  - apply (Hrun onePercentRelay onePercentRecord);
      [vm_compute; reflexivity | reflexivity |].
    split; reflexivity.
Defined.

(** ** Sorting *)

Section StableSort.

Context {A : Type}.
Variable cmp : A -> A -> Z.

Lemma insertSorted_perm (x : A) (l : list A) : insertSorted cmp x l ≡ₚ x :: l.
Proof.
  induction l as [| y l IH]; simpl; [reflexivity |].
  destruct (cmp x y <=? 0); [reflexivity |].
  rewrite IH. apply Permutation_swap.
Qed.

Lemma stableSort_perm (l : list A) : stableSort cmp l ≡ₚ l.
Proof.
  induction l as [| x l IH]; simpl; [reflexivity |].
  rewrite insertSorted_perm, IH. reflexivity.
Qed.

Variable g : A -> Z.
Hypothesis cmp_orders : ordersBy cmp g.

Lemma insertSorted_sorted (x : A) (l : list A) :
  StronglySorted (fun a b => g a <= g b) l ->
  StronglySorted (fun a b => g a <= g b) (insertSorted cmp x l).
Proof.
  induction 1 as [| y l Hs IH Hall]; simpl.
  - repeat constructor.
  - destruct (Z.leb_spec (cmp x y) 0) as [Hle | Hgt].
    + apply cmp_orders in Hle. constructor; [constructor; assumption |].
      constructor; [exact Hle |].
      eapply Forall_impl; [exact Hall |]. intros z Hz. simpl in Hz. lia.
    + assert (Hyx : g y <= g x).
      { destruct (Z.le_gt_cases (g x) (g y)) as [H |]; [| lia].
        apply cmp_orders in H. lia. }
      constructor; [exact IH |].
      rewrite insertSorted_perm. constructor; assumption.
Qed.

Lemma stableSort_sorted (l : list A) :
  StronglySorted (fun a b => g a <= g b) (stableSort cmp l).
Proof.
  induction l as [| x l IH]; simpl; [constructor |].
  apply insertSorted_sorted, IH.
Qed.

Lemma insertSorted_filter (v : Z) (x : A) (l : list A) :
  List.filter (fun a => g a =? v) (insertSorted cmp x l)
  = List.filter (fun a => g a =? v) (x :: l).
Proof.
  induction l as [| y l IH]; [reflexivity |].
  cbn [insertSorted]. destruct (Z.leb_spec (cmp x y) 0) as [Hle | Hgt]; [reflexivity |].
  assert (Hne : g x <> g y).
  { intros Heq. assert (H : g x <= g y) by lia. apply cmp_orders in H. lia. }
  cbn [List.filter] in *. rewrite IH.
  destruct (Z.eqb_spec (g x) v), (Z.eqb_spec (g y) v); try reflexivity. lia.
Qed.

Lemma stableSort_filter (v : Z) (l : list A) :
  List.filter (fun a => g a =? v) (stableSort cmp l)
  = List.filter (fun a => g a =? v) l.
Proof.
  induction l as [| x l IH]; [reflexivity |].
  cbn [stableSort foldr]. fold (stableSort cmp l).
  rewrite insertSorted_filter. cbn [List.filter]. rewrite IH. reflexivity.
Qed.

End StableSort.

Lemma stableSort_constant {A} (l : list A) : stableSort (fun _ _ => 0) l = l.
Proof.
  induction l as [| x l IH]; [reflexivity |].
  cbn [stableSort foldr]. fold (stableSort (fun _ _ : A => 0) l). rewrite IH.
  destruct l; reflexivity.
Qed.

Lemma StronglySorted_weaken {A} (R R' : A -> A -> Prop) (l : list A) :
  (forall a b, R a b -> R' a b) -> StronglySorted R l -> StronglySorted R' l.
Proof.
  intros Himp. induction 1 as [| x l Hs IH Hall]; constructor; [exact IH |].
  eapply Forall_impl; [exact Hall |]. intros y. apply Himp.
Qed.

Lemma compareRelays_orders (localeCompare : string -> string -> Z)
    (key : RelayKey) (descending : bool) (field : RelayData -> Z) :
  numberField key = Some field ->
  ordersBy (compareRelays localeCompare key descending)
           (fun r => if descending then - field r else field r).
Proof.
  intros Hkey a b. unfold compareRelays.
  destruct key; try discriminate; injection Hkey as <-; simpl;
    destruct descending; lia.
Qed.

(** X15. [sortRelays] on a numeric field (uptime, bandwidth,
    consensusWeight, lastSeen) returns a permutation of its argument,
    ordered by that field, descending or ascending as asked, and it is
    stable: records with equal values keep their relative order.  On
    [flags] or [running] the comparator is constantly 0 and the list comes
    back unchanged. *)
Theorem sortRelays_is_stable_sort
    (localeCompare : string -> string -> Z) (relays : list RelayData)
    (key : RelayKey) (descending : bool) :
  sortRelays localeCompare relays key descending ≡ₚ relays /\
  (forall field, numberField key = Some field ->
     StronglySorted
       (fun a b => if descending then field b <= field a else field a <= field b)
       (sortRelays localeCompare relays key descending) /\
     forall v,
       List.filter (fun r => field r =? v)
         (sortRelays localeCompare relays key descending)
       = List.filter (fun r => field r =? v) relays) /\
  (key = KeyFlags \/ key = KeyRunning ->
     sortRelays localeCompare relays key descending = relays).
Proof.
  split; [apply stableSort_perm |]. split.
  - intros field Hkey.
    assert (Hord := compareRelays_orders localeCompare key descending field Hkey).
    split.
    + assert (Hs := stableSort_sorted _ _ Hord relays).
      unfold sortRelays.
      eapply StronglySorted_weaken; [| exact Hs].
      intros a b Hab. simpl in Hab. destruct descending; lia.
    + intros v. unfold sortRelays.
      assert (Hf := stableSort_filter _ _ Hord).
      destruct descending.
      * specialize (Hf (- v) relays).
        assert (Hext : forall l,
                  List.filter (fun r => field r =? v) l
                  = List.filter (fun r => - field r =? - v) l).
        { intros l. apply filter_ext. intros r.
          destruct (Z.eqb_spec (field r) v), (Z.eqb_spec (- field r) (- v));
            reflexivity || lia. }
        rewrite !Hext. exact Hf.
      * exact (Hf v relays).
  - intros Hkey. unfold sortRelays.
    replace (compareRelays localeCompare key descending)
      with (fun _ _ : RelayData => 0).
    + apply stableSort_constant.
    + destruct Hkey as [-> | ->]; reflexivity.
Qed.

Lemma sortRelays_is_stable_sort_witness :
  sortRelays compareLength
    [weighted 5 "a"; weighted 9 "b"; weighted 5 "c"; weighted 9 "d"]
    KeyConsensusWeight true
  = [weighted 9 "b"; weighted 9 "d"; weighted 5 "a"; weighted 5 "c"] /\
  List.filter (fun r => consensusWeight r =? 5)
    (sortRelays compareLength
       [weighted 5 "a"; weighted 9 "b"; weighted 5 "c"; weighted 9 "d"]
       KeyConsensusWeight true)
  = [weighted 5 "a"; weighted 5 "c"].
Proof.
  split; [reflexivity |].
  destruct (sortRelays_is_stable_sort compareLength
              [weighted 5 "a"; weighted 9 "b"; weighted 5 "c"; weighted 9 "d"]
              KeyConsensusWeight true) as (_ & H & _).
  destruct (H consensusWeight eq_refl) as [_ Hst].
  exact (Hst 5).
Defined.

(** ** [transformRelays], batching and the filters *)

Section TransformRelaysFacts.

Variable localeCompare : string -> string -> Z.
Variable unicodeUpperCase : string -> string.
Variable dateParse : string -> option Z.
Variable nowAt : nat -> Z.

Lemma transformLoop_elem (relays : list Onionoo.Relay) :
  forall (k : nat) (rd : RelayData),
    rd ∈ transformLoop unicodeUpperCase dateParse nowAt k relays
    <-> exists j relay,
          relays !! j = Some relay /\
          transformRelay unicodeUpperCase dateParse (nowAt (k + j)%nat) relay = Some rd.
Proof.
  induction relays as [| relay rest IH]; intros k rd.
  - simpl. split; [intros H; inversion H | intros (j & x & H & _); discriminate].
  - cbn [transformLoop].
    assert (Hrest :
      rd ∈ transformLoop unicodeUpperCase dateParse nowAt (S k) rest
      <-> exists j x, (relay :: rest) !! S j = Some x /\
                      transformRelay unicodeUpperCase dateParse (nowAt (k + S j)%nat) x = Some rd).
    { rewrite IH. split; intros (j & x & Hj & Ht); exists j, x;
        (split; [exact Hj |]); [rewrite Nat.add_succ_r | rewrite Nat.add_succ_r in Ht];
        exact Ht. }
    destruct (transformRelay unicodeUpperCase dateParse (nowAt k) relay) as [rd0 |] eqn:Hhead.
    + rewrite elem_of_cons, Hrest. split.
      * intros [-> | (j & x & Hj & Ht)].
        -- exists 0%nat, relay. rewrite Nat.add_0_r. split; [reflexivity | exact Hhead].
        -- exists (S j), x. split; assumption.
      * intros ([| j] & x & Hj & Ht).
        -- left. simpl in Hj. injection Hj as <-. rewrite Nat.add_0_r in Ht. congruence.
        -- right. exists j, x. split; assumption.
    + rewrite Hrest. split.
      * intros (j & x & Hj & Ht). exists (S j), x. split; assumption.
      * intros ([| j] & x & Hj & Ht).
        -- simpl in Hj. injection Hj as <-. rewrite Nat.add_0_r in Ht. congruence.
        -- exists j, x. split; assumption.
Qed.

Lemma transformLoop_length (relays : list Onionoo.Relay) :
  forall k, (length (transformLoop unicodeUpperCase dateParse nowAt k relays) <= length relays)%nat.
Proof.
  induction relays as [| relay rest IH]; intros k; simpl; [lia |].
  destruct (transformRelay unicodeUpperCase dateParse (nowAt k) relay); simpl;
    specialize (IH (S k)); lia.
Qed.

Lemma filter_length_le {A} (f : A -> bool) (l : list A) :
  (length (List.filter f l) <= length l)%nat.
Proof. induction l as [| x l IH]; simpl; [lia |]. destruct (f x); simpl; lia. Qed.

(** X16. [transformRelays] never returns more records than it was given
    entries; every record it returns is the transform of one of the
    entries; unless [filterInvalid] is [false], every record it returns
    passes [validateRelayData], and every entry whose transform passes it
    is returned: one unusable entry does not stop the others.  With
    [sortBy: "consensusWeight"] the result is in descending order of
    consensus weight. *)
Theorem transformRelays_sound_and_complete
    (relays : list Onionoo.Relay) (options : TransformOptions) :
  let out := transformRelays localeCompare unicodeUpperCase dateParse nowAt relays options in
  (length out <= length relays)%nat /\
  (forall rd, rd ∈ out ->
     exists k relay,
       relays !! k = Some relay /\
       transformRelay unicodeUpperCase dateParse (nowAt k) relay = Some rd) /\
  (filterInvalid options <> Some false ->
     forall rd, rd ∈ out <->
       validateRelayData rd = true /\
       exists k relay,
         relays !! k = Some relay /\
         transformRelay unicodeUpperCase dateParse (nowAt k) relay = Some rd) /\
  (sortBy options = Some KeyConsensusWeight ->
     StronglySorted (fun a b => consensusWeight b <= consensusWeight a) out).
Proof.
  intros out. subst out. unfold transformRelays.
  set (loop := transformLoop unicodeUpperCase dateParse nowAt 0 relays).
  set (kept := match filterInvalid options with
               | Some false => loop
               | _ => List.filter validateRelayData loop
               end).
  assert (Hloop : forall rd, rd ∈ loop <->
            exists k relay, relays !! k = Some relay /\
              transformRelay unicodeUpperCase dateParse (nowAt k) relay = Some rd).
  { intros rd. unfold loop. rewrite transformLoop_elem. reflexivity. }
  assert (Hkept_len : (length kept <= length relays)%nat).
  { assert (H := transformLoop_length relays 0). fold loop in H.
    assert (H' := filter_length_le validateRelayData loop).
    unfold kept. destruct (filterInvalid options) as [[] |]; lia. }
  assert (Hkept_in : forall rd, rd ∈ kept -> rd ∈ loop).
  { intros rd. unfold kept.
    destruct (filterInvalid options) as [[] |]; try (intros H; exact H);
      rewrite !list_elem_of_In, filter_In; tauto. }
  assert (Hkept_valid : filterInvalid options <> Some false ->
            forall rd, rd ∈ kept <-> validateRelayData rd = true /\ rd ∈ loop).
  { intros Hf rd. unfold kept.
    destruct (filterInvalid options) as [[] |]; try congruence;
      rewrite !list_elem_of_In, filter_In; tauto. }
  assert (Hout : forall rd,
            rd ∈ match sortBy options with
                 | Some key => sortRelays localeCompare kept key true
                 | None => kept
                 end <-> rd ∈ kept).
  { intros rd. destruct (sortBy options) as [key |]; [| reflexivity].
    unfold sortRelays. rewrite stableSort_perm. reflexivity. }
  split; [| split; [| split]].
  - destruct (sortBy options) as [key |]; [| exact Hkept_len].
    unfold sortRelays. rewrite stableSort_perm. exact Hkept_len.
  - intros rd Hrd. apply Hloop, Hkept_in, Hout, Hrd.
  - intros Hf rd. rewrite Hout, (Hkept_valid Hf), Hloop. reflexivity.
  - intros ->. unfold sortRelays.
    assert (Hord := compareRelays_orders localeCompare KeyConsensusWeight true
                      consensusWeight eq_refl).
    assert (Hs := stableSort_sorted _ _ Hord kept).
    eapply StronglySorted_weaken; [| exact Hs].
    intros a b Hab. simpl in Hab. lia.
Qed.

End TransformRelaysFacts.

Lemma transformRelays_sound_and_complete_witness :
  StronglySorted (fun a b => consensusWeight b <= consensusWeight a)
    (transformRelays compareLength noCaseMapping noDate fixedClock
       [blankNicknameEntry; onePercentRelay; longCountryEntry] pipelineOptions).
Proof.
  apply (transformRelays_sound_and_complete compareLength noCaseMapping noDate
           fixedClock
           [blankNicknameEntry; onePercentRelay; longCountryEntry] pipelineOptions).
  reflexivity.
Defined.

Lemma batchRelaysFrom_chunks (batchSize : nat) :
  (0 < batchSize)%nat ->
  forall (fuel : nat) (relays : list RelayData),
    (length relays <= fuel)%nat ->
    let batches := batchRelaysFrom fuel relays batchSize in
    concat batches = relays /\
    Forall (fun b => (0 < length b <= batchSize)%nat) batches /\
    (length relays <= length batches * batchSize < length relays + batchSize)%nat /\
    (forall j b, batches !! j = Some b -> (S j < length batches)%nat ->
       length b = batchSize).
Proof.
  intros Hpos. induction fuel as [| fuel IH]; intros relays Hfuel batches.
  - destruct relays; [| simpl in Hfuel; lia]. subst batches. simpl.
    repeat split; try constructor; try lia; try (intros j b Hj; discriminate).
  - destruct relays as [| r rest].
    { subst batches. simpl.
      repeat split; try constructor; try lia; try (intros j b Hj; discriminate). }
    subst batches. cbn [batchRelaysFrom].
    set (l := r :: rest) in *.
    assert (Hdrop : (length (drop batchSize l) <= fuel)%nat).
    { rewrite length_drop. unfold l in *. simpl in *. lia. }
    destruct (IH (drop batchSize l) Hdrop) as (Hcat & Hall & Hcount & Hfull).
    rewrite length_drop in Hcount.
    split; [| split; [| split]].
    + simpl. rewrite Hcat. apply take_drop.
    + constructor; [| exact Hall]. rewrite length_take. unfold l. simpl. lia.
    + assert (Hl1 : (1 <= length l)%nat) by (unfold l; simpl; lia).
      cbn [length]. rewrite Nat.mul_succ_l.
      destruct (length (batchRelaysFrom fuel (drop batchSize l) batchSize)) as [| k];
        [simpl in *; lia |].
      rewrite Nat.mul_succ_l in *. lia.
    + intros j b Hj Hlast. destruct j as [| j].
      * simpl in Hj. injection Hj as <-. rewrite length_take.
        cbn [length] in Hlast.
        destruct (length (batchRelaysFrom fuel (drop batchSize l) batchSize)) as [| k];
          [lia |].
        rewrite Nat.mul_succ_l in Hcount. lia.
      * simpl in Hj, Hlast. apply (Hfull j b Hj). lia.
Qed.

(** X17. For a positive batch size, [batchRelays] cuts the list into
    consecutive chunks: concatenated they give the list back, no chunk is
    empty or longer than the batch size, every chunk but the last has
    exactly the batch size, and there are ceil(length / batchSize) of
    them.  The empty list gives no chunk. *)
Theorem batchRelays_partitions (relays : list RelayData) (batchSize : nat) :
  (0 < batchSize)%nat ->
  let batches := batchRelays relays batchSize in
  concat batches = relays /\
  Forall (fun b => (0 < length b <= batchSize)%nat) batches /\
  (length relays <= length batches * batchSize < length relays + batchSize)%nat /\
  (forall j b, batches !! j = Some b -> (S j < length batches)%nat ->
     length b = batchSize) /\
  (relays = [] -> batches = []).
Proof.
  intros Hpos batches.
  destruct (batchRelaysFrom_chunks batchSize Hpos (length relays) relays (le_n _))
    as (H1 & H2 & H3 & H4).
  subst batches. unfold batchRelays.
  repeat split; try assumption; try apply H3.
  intros ->. reflexivity.
Qed.

Lemma batchRelays_partitions_witness :
  concat (batchRelays tenRelays 4) = tenRelays /\
  length (batchRelays tenRelays 4) = 3%nat.
Proof.
  destruct (batchRelays_partitions tenRelays 4) as (Hcat & _); [lia |].
  split; [exact Hcat | reflexivity].
Defined.

(** X18. [filterByFlags] keeps, in their order, exactly the relays that
    carry every required flag; requiring no flag keeps everything, and
    requiring two lists of flags is filtering by one and then by the
    other.  [filterByMinWeight] keeps exactly the relays whose consensus
    weight is at least the minimum, and two minimum filters in a row are
    one filter at the larger minimum. *)
Theorem relay_filters_characterised
    (relays : list RelayData) (flags1 flags2 : list string) (w1 w2 : Z) :
  (forall r, r ∈ filterByFlags relays flags1
     <-> r ∈ relays /\ forall flag, flag ∈ flags1 -> flag ∈ flags r) /\
  filterByFlags relays [] = relays /\
  filterByFlags relays (flags1 ++ flags2)
    = filterByFlags (filterByFlags relays flags1) flags2 /\
  (forall r, r ∈ filterByMinWeight relays w1
     <-> r ∈ relays /\ w1 <= consensusWeight r) /\
  filterByMinWeight (filterByMinWeight relays w1) w2
    = filterByMinWeight relays (Z.max w1 w2).
Proof.
  assert (Hhas : forall (flag : string) (l : list string),
            existsb (String.eqb flag) l = true <-> flag ∈ l).
  { intros flag l. rewrite existsb_exists, list_elem_of_In. split.
    - intros (x & Hx & Heq). apply String.eqb_eq in Heq. subst x. exact Hx.
    - intros Hin. exists flag. split; [exact Hin | apply String.eqb_refl]. }
  split; [| split; [| split; [| split]]].
  - intros r. unfold filterByFlags.
    rewrite !list_elem_of_In, filter_In, forallb_forall.
    split; intros [Hin Hall]; (split; [exact Hin |]).
    + intros flag Hf. apply Hhas, Hall, list_elem_of_In, Hf.
    + intros flag Hf. apply Hhas, Hall, list_elem_of_In, Hf.
  - unfold filterByFlags. simpl. induction relays as [| r l IH]; simpl; congruence.
  - unfold filterByFlags. induction relays as [| r l IH]; [reflexivity |].
    cbn [List.filter]. rewrite forallb_app.
    destruct (forallb _ flags1) eqn:H1; simpl.
    + destruct (forallb _ flags2); rewrite IH; reflexivity.
    + exact IH.
  - intros r. unfold filterByMinWeight.
    rewrite !list_elem_of_In, filter_In, Z.geb_le. reflexivity.
  - unfold filterByMinWeight. induction relays as [| r l IH]; [reflexivity |].
    cbn [List.filter].
    destruct (Z.geb_spec (consensusWeight r) w1), (Z.geb_spec (consensusWeight r) w2),
      (Z.geb_spec (consensusWeight r) (Z.max w1 w2));
      cbn [List.filter]; try lia;
      repeat match goal with
             | |- context [?a >=? ?b] => destruct (Z.geb_spec a b); try lia
             end;
      rewrite ?IH; reflexivity.
Qed.

Lemma relay_filters_characterised_witness :
  filterByFlags [sampleRelay; weighted 5 "a"] ["Guard"; "Fast"] = [sampleRelay] /\
  filterByMinWeight (filterByMinWeight [sampleRelay; weighted 5 "a"] 3) 100
  = filterByMinWeight [sampleRelay; weighted 5 "a"] 100.
Proof.
  destruct (relay_filters_characterised [sampleRelay; weighted 5 "a"]
              ["Guard"] ["Fast"] 3 100) as (_ & _ & Hflags & _ & Hweight).
  split; [| exact Hweight].
  change ["Guard"; "Fast"] with (["Guard"] ++ ["Fast"])%list.
  rewrite Hflags. reflexivity.
Defined.

(** * Further properties of the pipeline *)

Section PipelineRuns.

Variable channel : nat -> Attempt.
Variable signer : address.
Variable batchDelay : Z.

Lemma updateLoop_dry (batches : list (list RelayData)) :
  forall (i total : Z) (run : Run),
    updateLoop channel signer true batchDelay i total batches run
    = (mkRun (store run) (submissions run) (slept run)
         (results run
          ++ map (fun b => mkUpdateResult true (Z.of_nat (length b)) None) batches),
       None).
Proof.
  induction batches as [| batch rest IH]; intros i total run.
  - simpl. rewrite app_nil_r. destruct run; reflexivity.
  - cbn [updateLoop]. rewrite IH. unfold pushResult. simpl.
    rewrite <- app_assoc. reflexivity.
Qed.

Lemma runSummary_total_app (res1 res2 : list UpdateResult) (a : Z) :
  foldl (fun sum r => sum + relaysUpdated r) a (res1 ++ res2)
  = foldl (fun sum r => sum + relaysUpdated r)
      (foldl (fun sum r => sum + relaysUpdated r) a res1) res2.
Proof. apply foldl_app. Qed.

Lemma runSummary_total_shift (res : list UpdateResult) (a : Z) :
  foldl (fun sum r => sum + relaysUpdated r) a res
  = a + foldl (fun sum r => sum + relaysUpdated r) 0 res.
Proof.
  revert a. induction res as [| r res IH]; intros a; simpl; [lia |].
  rewrite (IH (a + relaysUpdated r)), (IH (0 + relaysUpdated r)). lia.
Qed.

Lemma dry_results_summary (batches : list (list RelayData)) :
  runSummary (map (fun b => mkUpdateResult true (Z.of_nat (length b)) None) batches)
  = (Z.of_nat (length batches), 0, Z.of_nat (length (concat batches))).
Proof.
  unfold runSummary. induction batches as [| b rest IH]; [reflexivity |].
  injection IH as H1 H2 H3. cbn [map List.filter success negb length concat foldl].
  rewrite runSummary_total_shift, H3, length_app.
  f_equal; [f_equal |]; simpl; lia.
Qed.

(** X19. [updateContract] checks the signer first: a signer that is
    neither the owner nor an authorized updater gets the error, dry run or
    not, before anything is submitted.  For an authorized signer a dry run
    submits nothing, waits for nothing, leaves the storage as it is, and
    reports every chunk as successful, so its summary counts every relay
    as updated. *)
Theorem dry_run_touches_nothing
    (relayData : list RelayData) (batchSize : nat) (st : State) :
  (isUpdater st signer = false -> signer <> owner st ->
   forall dryRun,
     exists message,
       updateContract channel signer dryRun batchDelay relayData batchSize st
       = inl message) /\
  (isUpdater st signer = true \/ signer = owner st ->
   (0 < batchSize)%nat ->
   exists run,
     updateContract channel signer true batchDelay relayData batchSize st = inr run /\
     store run = st /\ submissions run = 0%nat /\ slept run = [] /\
     Forall (fun r => success r = true) (results run) /\
     runSummary (results run)
     = (Z.of_nat (length (batchRelays relayData batchSize)), 0,
        Z.of_nat (length relayData))).
Proof.
  split.
  - intros Hnu Hno dryRun. unfold updateContract. rewrite Hnu.
    destruct (Z.eqb_spec signer (owner st)); [contradiction |].
    simpl. eexists. reflexivity.
  - intros Hauth Hpos. unfold updateContract.
    assert (Hcond : negb (isUpdater st signer) && negb (signer =? owner st) = false).
    { destruct Hauth as [-> | ->]; [reflexivity |].
      rewrite Z.eqb_refl, andb_false_r. reflexivity. }
    rewrite Hcond, updateLoop_dry. eexists. split; [reflexivity |]. simpl.
    repeat split.
    + apply Forall_forall. intros r Hr. apply list_elem_of_fmap in Hr as (b & -> & _).
      reflexivity.
    + rewrite dry_results_summary.
      destruct (batchRelaysFrom_chunks batchSize Hpos (length relayData) relayData
                  (le_n _)) as (Hcat & _).
      unfold batchRelays. rewrite Hcat. reflexivity.
Qed.

End PipelineRuns.

Lemma dry_run_touches_nothing_witness :
  (exists message,
     updateContract throttledTwice 7 true 3000 tenRelays 4 seededStore = inl message) /\
  (exists run,
     updateContract throttledTwice 1 true 3000 tenRelays 4 seededStore = inr run /\
     store run = seededStore /\
     runSummary (results run) = (3, 0, 10)).
Proof.
  destruct (dry_run_touches_nothing throttledTwice 7 3000 tenRelays 4 seededStore)
    as [Hno _].
  destruct (dry_run_touches_nothing throttledTwice 1 3000 tenRelays 4 seededStore)
    as [_ Hyes].
  split.
  - apply Hno; [reflexivity | discriminate].
  - destruct Hyes as (run & H1 & H2 & _ & _ & _ & H3); [right; reflexivity | lia |].
    exists run. split; [exact H1 |]. split; [exact H2 | exact H3].
Defined.

Lemma Forall_concat_chunks {A} (P : A -> Prop) (chunks : list (list A)) :
  Forall P (concat chunks) -> Forall (Forall P) chunks.
Proof.
  induction chunks as [| c rest IH]; simpl; [constructor |].
  intros H. apply Forall_app in H as [Hc Hrest]. constructor; [exact Hc | apply IH, Hrest].
Qed.

(** The chunks [batchRelays] cuts from relays that a Date can print are
    chunks whose first record the [catch] block can print. *)
Lemma batchRelays_prints (relayData : list RelayData) (batchSize : nat) :
  (0 < batchSize)%nat ->
  Forall (fun r => Z.abs (lastSeen r * 1000) <= MAX_DATE_MS) relayData ->
  Forall (fun batch => printsFirstRelay batch = true) (batchRelays relayData batchSize).
Proof.
  intros Hpos Hrange.
  destruct (batchRelaysFrom_chunks batchSize Hpos (length relayData) relayData (le_n _))
    as (Hcat & Hlen & _).
  fold (batchRelays relayData batchSize) in Hcat, Hlen.
  rewrite <- Hcat in Hrange. apply Forall_concat_chunks in Hrange.
  revert Hrange Hlen. generalize (batchRelays relayData batchSize). clear.
  induction l as [| b rest IH]; intros Hrange Hlen; [constructor |].
  apply Forall_cons in Hrange as [Hb Hrange]. apply Forall_cons in Hlen as [Hl Hlen].
  constructor; [| apply IH; assumption].
  destruct b as [| r b]; [simpl in Hl; lia |].
  apply Forall_cons in Hb as [Hr _]. simpl. apply Z.leb_le, Hr.
Qed.

Lemma appliedRelays_written (batches : list (list RelayData)) :
  forall res, appliedRelays batches res = writtenRelays batches (map success res).
Proof.
  induction batches as [| b rest IH]; intros res; [reflexivity |].
  destruct res as [| r res]; [reflexivity |].
  cbn [appliedRelays writtenRelays map]. rewrite IH. reflexivity.
Qed.

Lemma appliedRelays_length (batches : list (list RelayData)) :
  forall res,
    (length (appliedRelays batches res) <= length (concat batches))%nat.
Proof.
  induction batches as [| b rest IH]; intros res; [simpl; lia |].
  destruct res as [| r res]; [simpl; lia |].
  cbn [appliedRelays concat]. rewrite !length_app. specialize (IH res).
  destruct (success r); simpl; lia.
Qed.

(** The summary of results that count the records of their chunk. *)
Lemma runSummary_applied (batches : list (list RelayData)) :
  forall res,
    Forall2 (fun b r => relaysUpdated r = if success r then Z.of_nat (length b) else 0)
            batches res ->
    runSummary res
    = (Z.of_nat (length (List.filter (fun r => success r) res)),
       Z.of_nat (length (List.filter (fun r => negb (success r)) res)),
       Z.of_nat (length (appliedRelays batches res))).
Proof.
  unfold runSummary. intros res Hall. f_equal.
  induction Hall as [| b r batches res Hr Hall IH]; [reflexivity |].
  cbn [foldl appliedRelays]. rewrite runSummary_total_shift, IH, Hr, length_app.
  destruct (success r); simpl; lia.
Qed.

Section PipelineProgress.

Variable channel : nat -> Attempt.
Variable signer : address.
Variable batchDelay : Z.

(** What a submission leaves in the storage: the records of the chunk,
    written in order, or nothing.  A confirmed chunk has been written; a
    chunk that has been written is confirmed unless the channel lost the
    confirmation. *)
Lemma submitBatch_store (batch : list RelayData) (run : Run) :
  exists done : bool,
    store (submitBatch channel signer batch run).1
    = writeAll (if done then batch else []) (store run) /\
    ((submitBatch channel signer batch run).2 = None -> done = true) /\
    ((forall ts message, channel (submissions run) <> MinedUnconfirmed ts message) ->
     done = true -> (submitBatch channel signer batch run).2 = None).
Proof.
  unfold submitBatch. destruct (forallb abiEncodable batch); simpl.
  - destruct (channel (submissions run)) as [message | ts | ts message] eqn:Hch.
    + exists false. repeat split; discriminate.
    + destruct (batchUpdateRelays (mkEnv signer ts) batch (store run)) as [st' | fl]
        eqn:Hbatch; simpl.
      * destruct (batch_result _ _ _ _ Hbatch) as (-> & _).
        exists true. repeat split.
      * exists false. repeat split; discriminate.
    + destruct (batchUpdateRelays (mkEnv signer ts) batch (store run)) as [st' | fl]
        eqn:Hbatch; simpl.
      * destruct (batch_result _ _ _ _ Hbatch) as (-> & _).
        exists true. repeat split.
        intros Hno _. exfalso. apply (Hno ts message). reflexivity.
      * exists false. repeat split; discriminate.
  - exists false. repeat split; discriminate.
Qed.

Lemma updateLoop_written (batches : list (list RelayData)) :
  forall (i total : Z) (run : Run),
    Forall (fun batch => printsFirstRelay batch = true) batches ->
    exists final res written,
      updateLoop channel signer false batchDelay i total batches run = (final, None) /\
      results final = (results run ++ res)%list /\
      length res = length batches /\
      length written = length batches /\
      store final = writeAll (writtenRelays batches written) (store run) /\
      Forall2 (fun r w => success r = true -> w = true) res written /\
      ((forall k ts message, channel k <> MinedUnconfirmed ts message) ->
       written = map success res) /\
      Forall2 (fun b r => relaysUpdated r = if success r then Z.of_nat (length b) else 0)
              batches res.
Proof.
  induction batches as [| batch rest IH]; intros i total run Hprint.
  - exists run, [], []. simpl. rewrite app_nil_r.
    repeat split; constructor.
  - apply Forall_cons in Hprint as [Hp Hprint].
    rewrite (updateLoop_step channel signer batchDelay i total batch rest run
               (or_intror Hp)).
    destruct (submitBatch_store batch run) as (done & Hstore & Hdone & Hconf).
    destruct (IH (i + 1) total
                (mkRun (store (submitBatch channel signer batch run).1)
                   (submissions (submitBatch channel signer batch run).1)
                   (slept run
                    ++ chunkWait batchDelay i total
                         (submitBatch channel signer batch run).2)
                   (results run
                    ++ [chunkResult batch (submitBatch channel signer batch run).2]))
                Hprint)
      as (final & res & written & Heq & Hres & Hlen & Hwlen & Hfinal & Himp & Hexact
          & Hupd).
    cbn [store results] in *.
    exists final,
      (chunkResult batch (submitBatch channel signer batch run).2 :: res),
      (done :: written).
    split; [exact Heq |].
    split; [rewrite Hres, <- app_assoc; reflexivity |].
    split; [simpl; rewrite Hlen; reflexivity |].
    split; [simpl; rewrite Hwlen; reflexivity |].
    split; [| split; [| split]].
    + rewrite Hfinal, Hstore. cbn [writtenRelays]. unfold writeAll.
      rewrite foldl_app. reflexivity.
    + constructor; [| exact Himp].
      destruct ((submitBatch channel signer batch run).2) as [message |] eqn:Hthrown;
        simpl; [discriminate |].
      intros _. apply Hdone. reflexivity.
    + intros Hno. cbn [map]. rewrite <- (Hexact Hno). f_equal.
      destruct ((submitBatch channel signer batch run).2) as [message |] eqn:Hthrown;
        simpl.
      * destruct done; [| reflexivity].
        assert (H : Some message = None) by (apply Hconf; [apply Hno | reflexivity]).
        discriminate H.
      * apply Hdone. reflexivity.
    + constructor; [| exact Hupd].
      destruct ((submitBatch channel signer batch run).2); reflexivity.
Qed.

(** X20. Whatever the channel does, a run of [updateContract] by an
    authorized signer, over relays whose lastSeen a Date can print,
    records one result per chunk, and the storage it leaves is the one
    obtained by writing, in order, the records of the chunks that were
    executed, among them every chunk reported successful; if the channel
    confirms every call it executes, the storage is exactly the one
    obtained by writing the chunks reported successful: a failed chunk
    leaves no trace and does not keep later chunks from being written.  In
    the summary, successful plus failed is the number of chunks, and
    [totalRelaysUpdated] is the number of records of the successful
    chunks, at most the number of relays handed in. *)
Theorem run_applies_exactly_the_successful_chunks
    (relayData : list RelayData) (batchSize : nat) (st : State) :
  isUpdater st signer = true \/ signer = owner st ->
  (0 < batchSize)%nat ->
  Forall (fun r => Z.abs (lastSeen r * 1000) <= MAX_DATE_MS) relayData ->
  exists run successful failed written,
    updateContract channel signer false batchDelay relayData batchSize st = inr run /\
    length (results run) = length (batchRelays relayData batchSize) /\
    length written = length (batchRelays relayData batchSize) /\
    store run = writeAll (writtenRelays (batchRelays relayData batchSize) written) st /\
    (forall j r, results run !! j = Some r -> success r = true ->
       written !! j = Some true) /\
    ((forall k ts message, channel k <> MinedUnconfirmed ts message) ->
     store run
     = writeAll (appliedRelays (batchRelays relayData batchSize) (results run)) st) /\
    runSummary (results run)
    = (successful, failed,
       Z.of_nat (length (appliedRelays (batchRelays relayData batchSize)
                           (results run)))) /\
    successful + failed = Z.of_nat (length (batchRelays relayData batchSize)) /\
    (length (appliedRelays (batchRelays relayData batchSize) (results run))
     <= length relayData)%nat.
Proof.
  intros Hauth Hpos Hrange. unfold updateContract.
  assert (Hcond : negb (isUpdater st signer) && negb (signer =? owner st) = false).
  { destruct Hauth as [-> | ->]; [reflexivity |].
    rewrite Z.eqb_refl, andb_false_r. reflexivity. }
  rewrite Hcond.
  assert (Hprint := batchRelays_prints relayData batchSize Hpos Hrange).
  set (batches := batchRelays relayData batchSize) in *.
  destruct (updateLoop_written batches 0 (Z.of_nat (length batches))
              (mkRun st 0 [] []) Hprint)
    as (final & res & written & Heq & Hres & Hlen & Hwlen & Hfinal & Himp & Hexact
        & Hupd).
  simpl in Hres, Hfinal. rewrite Heq.
  eexists final, _, _, written. split; [reflexivity |]. rewrite Hres.
  split; [exact Hlen |]. split; [exact Hwlen |]. split; [exact Hfinal |].
  split; [| split; [| split; [| split]]].
  - intros j r Hj Hs.
    destruct (Forall2_lookup_l _ _ _ _ _ Himp Hj) as (w & Hw & Hrw).
    rewrite Hw, (Hrw Hs). reflexivity.
  - intros Hno. rewrite Hfinal, (Hexact Hno), appliedRelays_written. reflexivity.
  - apply runSummary_applied, Hupd.
  - rewrite <- Hlen. clear. induction res as [| r res IH]; [reflexivity |].
    cbn [List.filter]. destruct (success r); simpl in *; lia.
  - assert (H := appliedRelays_length batches res).
    destruct (batchRelaysFrom_chunks batchSize Hpos (length relayData) relayData
                (le_n _)) as (Hcat & _).
    unfold batches, batchRelays in *. rewrite Hcat in H. exact H.
Qed.

End PipelineProgress.

(** Ten relays in chunks of four through a channel that throttles the
    first two submissions: three results, and the two relays of the third
    chunk in the store. *)
Lemma run_applies_exactly_the_successful_chunks_witness :
  exists run,
    updateContract throttledTwice 1 false 3000 tenRelays 4 (constructor deployer)
    = inr run /\
    length (results run) = 3%nat /\
    getRelayCount (store run) = 2.
Proof.
  assert (Hrange : Forall (fun r => Z.abs (lastSeen r * 1000) <= MAX_DATE_MS)
                     tenRelays).
  { unfold tenRelays. simpl. repeat (constructor; [vm_compute; discriminate |]).
    constructor. }
  destruct (run_applies_exactly_the_successful_chunks throttledTwice 1 3000
              tenRelays 4 (constructor deployer))
    as (run & sc & fl & written & Hrun & Hlen & _);
    [right; reflexivity | lia | exact Hrange |].
  exists run. split; [exact Hrun |]. split; [exact Hlen |].
  assert (Hrun' := Hrun). vm_compute in Hrun'. injection Hrun' as <-.
  vm_compute. reflexivity.
Defined.

Section PipelineAllMined.

Variable channel : nat -> Attempt.
Variable signer : address.
Variable batchDelay : Z.

Lemma authorized_writeAll (e : Env) (relays : list RelayData) (s : State) :
  authorized e s -> authorized e (writeAll relays s).
Proof.
  unfold authorized, isUpdater. destruct (writeAll_owner relays s) as [-> ->]. auto.
Qed.

(** A chunk of encodable, valid records that the channel executes and
    confirms is written. *)
Lemma submitBatch_mined (batch : list RelayData) (run : Run) (ts : Z) :
  forallb abiEncodable batch = true ->
  channel (submissions run) = Mined ts ->
  authorized (mkEnv signer ts) (store run) ->
  Forall (store_invariants ts) batch ->
  submitBatch channel signer batch run
  = (mkRun (writeAll batch (store run)) (S (submissions run)) (slept run)
       (results run), None).
Proof.
  intros Henc Hch Ha Hv. unfold submitBatch. rewrite Henc, Hch. simpl.
  unfold batchUpdateRelays. rewrite onlyAuthorized_ok by exact Ha. simpl.
  rewrite (proj2 (batchLoop_ok_iff (mkEnv signer ts) batch (store run)) Hv).
  reflexivity.
Qed.

Lemma updateLoop_all_mined (batches : list (list RelayData)) :
  Forall (fun batch => forallb abiEncodable batch = true) batches ->
  (forall k, exists ts,
     channel k = Mined ts /\ Forall (Forall (store_invariants ts)) batches) ->
  forall (i total : Z) (run : Run),
    (isUpdater (store run) signer = true \/ signer = owner (store run)) ->
    updateLoop channel signer false batchDelay i total batches run
    = (mkRun (writeAll (concat batches) (store run))
         (submissions run + length batches)
         (slept run
          ++ replicate
               (Z.to_nat (Z.max 0 (Z.min (Z.of_nat (length batches)) (total - 1 - i))))
               batchDelay)
         (results run
          ++ map (fun b => mkUpdateResult true (Z.of_nat (length b)) None) batches),
       None).
Proof.
  induction batches as [| batch rest IH]; intros Henc Hch i total run Hauth.
  - cbn [updateLoop concat map length].
    replace (Z.to_nat (Z.max 0 (Z.min (Z.of_nat 0) (total - 1 - i)))) with 0%nat by lia.
    simpl. rewrite !app_nil_r, Nat.add_0_r. destruct run; reflexivity.
  - apply Forall_cons in Henc as [He Henc].
    destruct (Hch (submissions run)) as (ts & Hts & Hvalid).
    apply Forall_cons in Hvalid as [Hvb _].
    assert (Ha : authorized (mkEnv signer ts) (store run)).
    { destruct Hauth as [H | H]; [right; exact H | left; exact H]. }
    assert (Hsub := submitBatch_mined batch run ts He Hts Ha Hvb).
    rewrite (updateLoop_step channel signer batchDelay i total batch rest run)
      by (left; rewrite Hsub; reflexivity).
    rewrite Hsub. cbn [fst snd store submissions chunkWait chunkResult].
    rewrite IH.
    + cbn [store submissions slept results concat map length].
      f_equal. f_equal.
      * unfold writeAll. rewrite foldl_app. reflexivity.
      * lia.
      * rewrite <- app_assoc. f_equal.
        destruct (Z.ltb_spec i (total - 1)).
        -- replace (Z.to_nat (Z.max 0 (Z.min (Z.of_nat (S (length rest))) (total - 1 - i))))
             with (S (Z.to_nat (Z.max 0 (Z.min (Z.of_nat (length rest))
                                           (total - 1 - (i + 1)))))) by lia.
           reflexivity.
        -- replace (Z.to_nat (Z.max 0 (Z.min (Z.of_nat (S (length rest))) (total - 1 - i))))
             with 0%nat by lia.
           replace (Z.to_nat (Z.max 0 (Z.min (Z.of_nat (length rest))
                                         (total - 1 - (i + 1)))))
             with 0%nat by lia.
           reflexivity.
      * rewrite <- app_assoc. reflexivity.
    + exact Henc.
    + intros k. destruct (Hch k) as (ts' & Hts' & Hv').
      exists ts'. split; [exact Hts' |]. apply Forall_cons in Hv' as [_ Hv']. exact Hv'.
    + cbn [store].
      assert (Ha' := authorized_writeAll (mkEnv signer ts) batch (store run) Ha).
      destruct Ha' as [H | H]; [right; exact H | left; exact H].
Qed.

(** X21. When the channel executes and confirms every submission, the
    signer is authorized, ethers can encode the records and they are
    valid at the blocks' times, the run leaves the storage that writing
    all the records in order gives, the one a single batch of everything
    would leave: every relay handed in exists afterwards.  Every chunk is
    reported successful, the summary counts every relay as updated, one
    submission is made per chunk, and the waits are the inter-chunk delay,
    once between two chunks. *)
Theorem run_with_all_chunks_mined
    (relayData : list RelayData) (batchSize : nat) (st : State) :
  isUpdater st signer = true \/ signer = owner st ->
  (0 < batchSize)%nat ->
  Forall (fun r => abiEncodable r = true) relayData ->
  (forall k, exists ts, channel k = Mined ts /\ Forall (store_invariants ts) relayData) ->
  exists run,
    updateContract channel signer false batchDelay relayData batchSize st = inr run /\
    store run = writeAll relayData st /\
    (forall ts, channel 0%nat = Mined ts ->
       batchUpdateRelays (mkEnv signer ts) relayData st = Ok (store run)) /\
    (forall r, r ∈ relayData -> relayExists (fingerprint r) (store run) = true) /\
    Forall (fun r => success r = true) (results run) /\
    runSummary (results run)
    = (Z.of_nat (length (batchRelays relayData batchSize)), 0,
       Z.of_nat (length relayData)) /\
    submissions run = length (batchRelays relayData batchSize) /\
    slept run = replicate (length (batchRelays relayData batchSize) - 1) batchDelay.
Proof.
  intros Hauth Hpos Henc Hch. unfold updateContract.
  assert (Hcond : negb (isUpdater st signer) && negb (signer =? owner st) = false).
  { destruct Hauth as [-> | ->]; [reflexivity |].
    rewrite Z.eqb_refl, andb_false_r. reflexivity. }
  rewrite Hcond.
  destruct (batchRelaysFrom_chunks batchSize Hpos (length relayData) relayData (le_n _))
    as (Hcat & _).
  fold (batchRelays relayData batchSize) in Hcat.
  set (batches := batchRelays relayData batchSize) in *.
  rewrite updateLoop_all_mined.
  - eexists. split; [reflexivity |]. cbn [store submissions slept results].
    rewrite Hcat.
    assert (Hlen40 : Forall (fun r => blen (fingerprint r) = 40) relayData).
    { destruct (Hch 0%nat) as (ts & _ & Hv).
      eapply Forall_impl; [exact Hv |]. intros r Hr. apply Hr. }
    split; [reflexivity |]. split; [| split; [| split; [| split; [| split]]]].
    + intros ts Hts. destruct (Hch 0%nat) as (ts' & Hts' & Hv).
      assert (ts' = ts) by congruence. subst ts'.
      unfold batchUpdateRelays. rewrite onlyAuthorized_ok.
      * simpl. apply batchLoop_ok_iff, Hv.
      * destruct Hauth as [H | H]; [right; exact H | left; exact H].
    + intros r Hr. assert (H := writeAll_all_exist relayData st Hlen40).
      rewrite Forall_forall in H. apply H, Hr.
    + apply Forall_forall. intros r Hr. simpl in Hr.
      apply list_elem_of_fmap in Hr as (b & -> & _). reflexivity.
    + simpl. rewrite dry_results_summary, Hcat. reflexivity.
    + reflexivity.
    + simpl. f_equal. lia.
  - rewrite <- Hcat in Henc. apply Forall_concat_chunks in Henc.
    eapply Forall_impl; [exact Henc |]. intros b Hb.
    apply forallb_forall. intros r Hr. rewrite Forall_forall in Hb.
    apply Hb, list_elem_of_In, Hr.
  - intros k. destruct (Hch k) as (ts & Hts & Hv). exists ts. split; [exact Hts |].
    apply Forall_concat_chunks. rewrite Hcat. exact Hv.
  - exact Hauth.
Qed.

End PipelineAllMined.

Lemma run_with_all_chunks_mined_witness :
  exists run,
    updateContract alwaysMined 1 false 3000 abcRelays 2 (constructor deployer)
    = inr run /\
    store run = writeAll abcRelays (constructor deployer) /\
    runSummary (results run) = (2, 0, 3) /\
    slept run = [3000].
Proof.
  destruct (run_with_all_chunks_mined alwaysMined 1 3000 abcRelays 2
              (constructor deployer))
    as (run & H1 & H2 & _ & _ & _ & H3 & _ & H4).
  - right. reflexivity.
  - lia.
  - unfold abcRelays. repeat (constructor; [reflexivity |]). constructor.
  - intros k. exists 1700000100. split; [reflexivity |].
    unfold abcRelays. repeat constructor; simpl; try lia; discriminate.
  - exists run. repeat split; assumption.
Defined.

(** ** Verification after the update *)

Lemma sampleLoop_window (st : State) :
  store_consistent st ->
  forall (todo : nat) (i : nat),
    (i + todo <= length (fingerprintList st))%nat ->
    sampleLoop st (Z.of_nat i) todo
    = Ok (map (fun fp => (fp, relayAt st fp))
            (take todo (drop i (fingerprintList st)))).
Proof.
  intros Hc. destruct (consistent_index_membership st Hc) as [_ Hmem].
  induction todo as [| todo IH]; intros i Hle.
  - rewrite take_0. reflexivity.
  - assert (Hlt : (i < length (fingerprintList st))%nat) by lia.
    destruct (lookup_lt_is_Some_2 _ _ Hlt) as [fp Hfp].
    cbn [sampleLoop]. rewrite (getFingerprintByIndex_lookup st i fp Hfp). simpl.
    rewrite getRelay_stored by (apply Hmem; eapply list_elem_of_lookup_2, Hfp).
    simpl. replace (Z.of_nat i + 1) with (Z.of_nat (S i)) by lia.
    rewrite IH by lia. simpl.
    rewrite (drop_S _ _ _ Hfp). reflexivity.
Qed.

(** X22. On every reachable storage [verifyUpdate] succeeds: none of its
    [getFingerprintByIndex] and [getRelay] calls reverts.  It reports the
    count and samples min(3, count) relays, the first index entries in
    order, each with the record stored under it, whose fingerprint is the
    entry; on an empty store it samples nothing. *)
Theorem verifyUpdate_never_reverts (st : State) :
  reachable st ->
  exists samples,
    verifyUpdate st = Ok (getRelayCount st, samples) /\
    Z.of_nat (length samples) = Z.min 3 (getRelayCount st) /\
    map fst samples = take 3 (fingerprintList st) /\
    Forall (fun sample => fingerprint (snd sample) = fst sample /\
                          getRelay (fst sample) st = Ok (snd sample)) samples.
Proof.
  intros Hr. assert (Hc := reachable_consistent st Hr).
  destruct (consistent_index_membership st Hc) as [_ Hmem].
  unfold verifyUpdate, getRelayCount.
  set (l := fingerprintList st).
  exists (map (fun fp => (fp, relayAt st fp)) (take 3 l)).
  assert (Hfacts :
    Z.of_nat (length (map (fun fp => (fp, relayAt st fp)) (take 3 l)))
      = Z.min 3 (Z.of_nat (length l)) /\
    map fst (map (fun fp => (fp, relayAt st fp)) (take 3 l)) = take 3 l /\
    Forall (fun sample => fingerprint (snd sample) = fst sample /\
                          getRelay (fst sample) st = Ok (snd sample))
      (map (fun fp => (fp, relayAt st fp)) (take 3 l))).
  { split; [rewrite length_map, length_take; lia |]. split.
    - rewrite map_map. simpl. apply map_id.
    - apply Forall_forall. intros sample Hs.
      apply list_elem_of_fmap in Hs as (fp & -> & Hfp). simpl.
      assert (Hin : fp ∈ fingerprintList st).
      { apply elem_of_take in Hfp as (j & Hj & _).
        eapply list_elem_of_lookup_2, Hj. }
      split; [apply relayAt_fingerprint; assumption |].
      apply getRelay_stored, Hmem, Hin. }
  split; [| exact Hfacts].
  destruct (Z.gtb_spec (Z.of_nat (length l)) 0) as [Hpos | Hzero].
  - change 0 with (Z.of_nat 0) at 1.
    rewrite (sampleLoop_window st Hc) by (fold l; lia).
    simpl. rewrite drop_0. fold l. do 3 f_equal.
    destruct (Z.le_gt_cases 3 (Z.of_nat (length l))).
    + replace (Z.to_nat (Z.min 3 (Z.of_nat (length l)))) with 3%nat by lia.
      reflexivity.
    + replace (Z.to_nat (Z.min 3 (Z.of_nat (length l)))) with (length l) by lia.
      rewrite (take_ge l 3) by lia. apply take_ge. lia.
  - destruct l; [reflexivity | simpl in Hzero; lia].
Qed.

Lemma verifyUpdate_never_reverts_witness :
  exists samples,
    verifyUpdate tenRelayStore = Ok (10, samples) /\
    map fst samples = take 3 (fingerprintList tenRelayStore).
Proof.
  assert (Hr : reachable tenRelayStore).
  { unfold tenRelayStore. apply reachable_step, reachable_deploy. }
  destruct (verifyUpdate_never_reverts tenRelayStore Hr) as (samples & H1 & _ & H2 & _).
  exists samples. split; [exact H1 | exact H2].
Defined.

(** * Further properties of the reader *)

Section ReaderSweep.

Variable rpc : nat -> ReadAttempt.
Variable st : State.

Lemma sweepLoop_served (total : Z) :
  (forall k, rpc k = ReadServed) ->
  total <= getRelayCount st -> getRelayCount st <= MAX_UINT256 ->
  forall (todo : nat) (i : Z) (rd : Reader),
    0 <= i ->
    ((1 <= todo)%nat -> (i + Z.of_nat todo - 1) * 50 < total) ->
    sweepLoop rpc st todo i total rd
    = mkReader (reads rd + todo) (waited rd ++ replicate todo 500)
        (allRelays rd
         ++ map (relayAt st)
              (take (Z.to_nat (Z.min (Z.of_nat todo * 50) (total - i * 50)))
                    (drop (Z.to_nat (i * 50)) (fingerprintList st)))).
Proof.
  intros Hserved Htotal Hmax.
  induction todo as [| todo IH]; intros i rd Hi Hrange.
  - cbn [sweepLoop].
    replace (Z.to_nat (Z.min (Z.of_nat 0 * 50) (total - i * 50))) with 0%nat by lia.
    rewrite take_0. simpl. rewrite !app_nil_r, Nat.add_0_r. destruct rd; reflexivity.
  - assert (Hoff : i * 50 < total) by lia.
    cbn [sweepLoop].
    rewrite (retryLoop_served rpc st 4 (i * 50) (Z.min 50 (total - i * 50)) 0 rd
               (map (relayAt st)
                  (take (Z.to_nat (Z.min 50 (total - i * 50)))
                        (drop (Z.to_nat (i * 50)) (fingerprintList st)))));
      [| lia | apply Hserved | apply getRelaysPaginated_window; lia].
    rewrite IH by lia. cbn [reads waited allRelays].
    f_equal.
    + lia.
    + rewrite <- app_assoc. reflexivity.
    + rewrite <- app_assoc. f_equal. rewrite <- map_app. f_equal.
      destruct todo as [| todo'].
      * replace (Z.to_nat (Z.min (Z.of_nat 0 * 50) (total - (i + 1) * 50)))
          with 0%nat by lia.
        rewrite take_0, app_nil_r. f_equal; lia.
      * assert (Hfar : (i + Z.of_nat (S todo')) * 50 < total) by lia.
        replace (Z.to_nat (Z.min 50 (total - i * 50))) with 50%nat by lia.
        replace (Z.to_nat ((i + 1) * 50)) with (Z.to_nat (i * 50) + 50)%nat by lia.
        rewrite <- drop_drop, take_take_drop. f_equal; lia.
Qed.

(** X23. When the endpoint serves every read, the sweep of
    [fetchAllRelaysProgressively] over a count [total] that the store
    holds collects the records of the first [total] index entries, in
    index order and each once, with ceil(total / 50) reads and a wait of
    500 ms after each; with [total] the count of the store it collects
    every record.  A count of zero reads nothing. *)
Theorem sweep_collects_every_record (total : Z) :
  (forall k, rpc k = ReadServed) ->
  0 < total <= getRelayCount st ->
  getRelayCount st <= MAX_UINT256 ->
  fetchAllRelaysProgressively rpc st total
  = mkReader (Z.to_nat ((total + 49) / 50))
      (replicate (Z.to_nat ((total + 49) / 50)) 500)
      (map (relayAt st) (take (Z.to_nat total) (fingerprintList st))) /\
  (total = getRelayCount st ->
   allRelays (fetchAllRelaysProgressively rpc st total)
   = map (relayAt st) (fingerprintList st)) /\
  fetchAllRelaysProgressively rpc st 0 = mkReader 0 [] [].
Proof.
  intros Hserved [Hpos Hle] Hmax.
  assert (Hdiv := Z_div_mod_eq_full (total + 49) 50).
  assert (Hmod := Z.mod_pos_bound (total + 49) 50 ltac:(lia)).
  assert (Hsweep :
    fetchAllRelaysProgressively rpc st total
    = mkReader (Z.to_nat ((total + 49) / 50))
        (replicate (Z.to_nat ((total + 49) / 50)) 500)
        (map (relayAt st) (take (Z.to_nat total) (fingerprintList st)))).
  { unfold fetchAllRelaysProgressively.
    destruct (Z.eqb_spec total 0); [lia |].
    rewrite (sweepLoop_served total Hserved Hle Hmax) by lia.
    simpl. rewrite drop_0. f_equal. f_equal. f_equal. lia. }
  split; [exact Hsweep |]. split; [| reflexivity].
  intros ->. rewrite Hsweep. simpl. unfold getRelayCount.
  rewrite Nat2Z.id, take_ge by lia. reflexivity.
Qed.

Lemma retryLoop_thrown (fuel : nat) (offset limit retries : Z)
    (rd : Reader) (message : string) :
  retries < 5 ->
  rpc (reads rd) = ReadError message ->
  isRateLimit message = false ->
  retryLoop rpc st (S fuel) offset limit retries rd
  = (mkReader (S (reads rd)) (waited rd) (allRelays rd), retries + 1, Thrown message).
Proof.
  intros Hlt Hrpc Hrate. cbn [retryLoop]. unfold readContract.
  destruct (Z.ltb_spec retries 5); [| lia].
  rewrite Hrpc. unfold isRateLimit in Hrate. rewrite Hrate. reflexivity.
Qed.

Lemma retryLoop_exhausted (fuel : nat) (offset limit retries : Z) (rd : Reader) :
  5 <= retries ->
  retryLoop rpc st fuel offset limit retries rd = (rd, retries, Exhausted).
Proof.
  intros Hge. destruct fuel; cbn [retryLoop];
    destruct (Z.ltb_spec retries 5); (lia || reflexivity).
Qed.

(** X24. The sweep gives up on a page in two ways, and keeps what it has
    collected.  An error that is not a rate limit ends it at once: one
    read, no wait, no retry.  Five rate-limited reads in a row end it
    after waits of 2000, 4000, 8000, 16000 and 32000 ms: the fifth wait
    is served although no sixth read follows. *)
Theorem sweep_stops_on_failure (todo : nat) (i total : Z) (rd : Reader) :
  (forall message,
     rpc (reads rd) = ReadError message -> isRateLimit message = false ->
     sweepLoop rpc st (S todo) i total rd
     = mkReader (S (reads rd)) (waited rd) (allRelays rd)) /\
  ((forall j, (j < 5)%nat ->
      exists message,
        rpc (reads rd + j)%nat = ReadError message /\ isRateLimit message = true) ->
   sweepLoop rpc st (S todo) i total rd
   = mkReader (reads rd + 5) (waited rd ++ [2000; 4000; 8000; 16000; 32000])
       (allRelays rd)).
Proof.
  split.
  - intros message Hrpc Hrate. cbn [sweepLoop].
    rewrite (retryLoop_thrown 4 _ _ 0 rd message) by (lia || assumption).
    reflexivity.
  - intros Hlimited.
    destruct (Hlimited 0%nat ltac:(lia)) as (m0 & H0 & R0).
    destruct (Hlimited 1%nat ltac:(lia)) as (m1 & H1 & R1).
    destruct (Hlimited 2%nat ltac:(lia)) as (m2 & H2 & R2).
    destruct (Hlimited 3%nat ltac:(lia)) as (m3 & H3 & R3).
    destruct (Hlimited 4%nat ltac:(lia)) as (m4 & H4 & R4).
    rewrite Nat.add_0_r in H0.
    replace (reads rd + 1)%nat with (S (reads rd)) in H1 by lia.
    replace (reads rd + 2)%nat with (S (S (reads rd))) in H2 by lia.
    replace (reads rd + 3)%nat with (S (S (S (reads rd)))) in H3 by lia.
    replace (reads rd + 4)%nat with (S (S (S (S (reads rd))))) in H4 by lia.
    cbn [sweepLoop].
    rewrite (retryLoop_rate_limited rpc st 4 _ _ 0 rd m0) by (lia || assumption).
    rewrite (retryLoop_rate_limited rpc st 3 _ _ (0 + 1) _ m1) by (lia || assumption).
    rewrite (retryLoop_rate_limited rpc st 2 _ _ (0 + 1 + 1) _ m2)
      by (lia || assumption).
    rewrite (retryLoop_rate_limited rpc st 1 _ _ (0 + 1 + 1 + 1) _ m3)
      by (lia || assumption).
    rewrite (retryLoop_rate_limited rpc st 0 _ _ (0 + 1 + 1 + 1 + 1) _ m4)
      by (lia || assumption).
    rewrite retryLoop_exhausted by lia.
    cbn [reads waited allRelays]. rewrite <- !app_assoc. f_equal. lia.
Qed.

End ReaderSweep.

Lemma sweep_collects_every_record_witness :
  allRelays (fetchAllRelaysProgressively alwaysServed tenRelayStore 10) = tenRelays /\
  reads (fetchAllRelaysProgressively alwaysServed tenRelayStore 10) = 1%nat.
Proof.
  destruct (sweep_collects_every_record alwaysServed tenRelayStore 10)
    as (H1 & H2 & _).
  - intros k. reflexivity.
  - split; [lia | vm_compute; discriminate].
  - vm_compute. discriminate.
  - split; [rewrite H2 by reflexivity; reflexivity | rewrite H1; reflexivity].
Defined.

Lemma sweep_stops_on_failure_witness :
  sweepLoop alwaysDown tenRelayStore 1 0 10 (mkReader 0 [] []) = mkReader 1 [] [] /\
  sweepLoop alwaysLimited tenRelayStore 1 0 10 (mkReader 0 [] [])
  = mkReader 5 [2000; 4000; 8000; 16000; 32000] [].
Proof.
  split.
  - destruct (sweep_stops_on_failure alwaysDown tenRelayStore 0 0 10 (mkReader 0 [] []))
      as [H _].
    apply (H "connection refused"); reflexivity.
  - destruct (sweep_stops_on_failure alwaysLimited tenRelayStore 0 0 10
                (mkReader 0 [] [])) as [_ H].
    apply H. intros j _. exists "rate limit". split; reflexivity.
Defined.

(** * The search view *)






(** * Where a single upsert lands *)

(** X26. A successful [updateRelay] touches one key: every other
    fingerprint reads what it read before.  If the fingerprint was stored
    already, the index is unchanged, so every relay keeps its position; if
    it is new, it is appended, so that [getFingerprintByIndex] of the old
    count returns it and the count grows by one. *)
Theorem upsert_touches_one_key (e : Env) (r : RelayData) (s s' : State) :
  updateRelayWith e r s = Ok s' ->
  (forall fp, fp <> fingerprint r ->
     relayAt s' fp = relayAt s fp /\ relayExists fp s' = relayExists fp s) /\
  (relayExists (fingerprint r) s = true ->
     fingerprintList s' = fingerprintList s) /\
  (relayExists (fingerprint r) s = false ->
     fingerprintList s' = (fingerprintList s ++ [fingerprint r])%list /\
     getRelayCount s' = getRelayCount s + 1 /\
     getFingerprintByIndex (getRelayCount s) s' = Ok (fingerprint r)).
Proof.
  intros Hok.
  assert (Hs' := admin_ok_fields e (CallUpdateRelay r) s s' Hok). simpl in Hs'.
  subst s'. split; [| split].
  - intros fp Hne. unfold relayExists.
    rewrite relayAt_writeRelay_ne by assumption. split; reflexivity.
  - intros Hex. rewrite writeRelay_existing by assumption. reflexivity.
  - intros Hnew.
    assert (Hl : fingerprintList (writeRelay r s)
                 = (fingerprintList s ++ [fingerprint r])%list).
    { rewrite writeRelay_fresh by assumption. reflexivity. }
    split; [exact Hl |]. split.
    + unfold getRelayCount. rewrite Hl, length_app. simpl. lia.
    + unfold getRelayCount at 1.
      apply getFingerprintByIndex_lookup. rewrite Hl.
      rewrite lookup_app_r by lia. rewrite Nat.sub_diag. reflexivity.
Qed.

Lemma upsert_touches_one_key_witness :
  getFingerprintByIndex 1
    (writeRelay lowerCaseRelay seededStore) = Ok (fingerprint lowerCaseRelay) /\
  relayAt (writeRelay lowerCaseRelay seededStore) (fingerprint sampleRelay)
  = sampleRelay.
Proof.
  destruct (upsert_touches_one_key (laterBy 1) lowerCaseRelay seededStore
              (writeRelay lowerCaseRelay seededStore)) as (Hother & _ & Hnew).
  - vm_compute. reflexivity.
  - split.
    + destruct Hnew as (_ & _ & H); [reflexivity | exact H].
    + destruct (Hother (fingerprint sampleRelay)) as [H _]; [discriminate |].
      rewrite H. reflexivity.
Defined.
